(** * Mission Control: task store, dependency graph and facade

    A shallow embedding of [packages/mission-control/src/mission_control.py]
    and of the tool handlers of [packages/mission-control/src/server.py]
    that read or change tasks.

    Conventions of the embedding:
    - the two JSONL files are lists of records, one record per line, in
      file order; a record has the shape of [Task.model_dump()]. Lines that
      are not JSON, or whose fields have the wrong type, are skipped by
      every read and are left out of the lists; a record whose priority is
      out of range, or whose id is empty, is kept, and the validation of
      [load_all_tasks] deals with it;
    - a Python [dict] is an association list in insertion order whose keys
      are unique: assigning to an existing key overwrites the value and
      keeps the position of the key;
    - a Python [set] of strings is kept as the list it was built from; the
      order in which a [for] loop walks it is not fixed by the language and
      is a parameter ([set_iter]) of the graph operations;
    - a string is the sequence of bytes of its UTF-8 text;
    - what the code asks of the outside world (git branch and commit, the
      wall clock, the SHA-256 of title and nanosecond clock) is passed in as
      an argument;
    - exceptions and fuel exhaustion are explicit results; the recursion
      limit of the interpreter is not part of the embedding. *)

From Stdlib Require Import List String Ascii ZArith Bool Arith Lia.
From Stdlib Require Import Permutation Sorting.Sorted Structures.OrderedTypeEx.
From Stdlib Require Import DecimalString Relations.Relation_Operators.
From Stdlib Require Import Relations.Operators_Properties.
Import ListNotations.

(* ================================================================== *)
(** * Enums and task model *)
(* ================================================================== *)

Inductive TaskStatus : Type := TODO | IN_PROGRESS | BLOCKED | DONE.

Definition TaskStatus_eqb (a b : TaskStatus) : bool :=
  match a, b with
  | TODO, TODO | IN_PROGRESS, IN_PROGRESS | BLOCKED, BLOCKED | DONE, DONE => true
  | _, _ => false
  end.

Record GitMetadata : Type := mkGitMetadata {
  branch : string;
  commit_hash : string;
  created_at : string;
  updated_at : string
}.

Record Task : Type := mkTask {
  id : string;
  title : string;
  description : string;
  status : TaskStatus;
  depends_on : list string;
  blocked_by : list string;
  tags : list string;
  priority : Z;
  metadata : GitMetadata
}.

(** Attribute assignments [task.f = v]. *)

Definition set_id (v : string) (t : Task) : Task :=
  mkTask v (title t) (description t) (status t) (depends_on t)
         (blocked_by t) (tags t) (priority t) (metadata t).

Definition set_status (v : TaskStatus) (t : Task) : Task :=
  mkTask (id t) (title t) (description t) v (depends_on t)
         (blocked_by t) (tags t) (priority t) (metadata t).

Definition set_blocked_by (v : list string) (t : Task) : Task :=
  mkTask (id t) (title t) (description t) (status t) (depends_on t)
         v (tags t) (priority t) (metadata t).

Definition set_metadata (v : GitMetadata) (t : Task) : Task :=
  mkTask (id t) (title t) (description t) (status t) (depends_on t)
         (blocked_by t) (tags t) (priority t) v.

Definition set_title (v : string) (t : Task) : Task :=
  mkTask (id t) v (description t) (status t) (depends_on t)
         (blocked_by t) (tags t) (priority t) (metadata t).

Definition set_description (v : string) (t : Task) : Task :=
  mkTask (id t) (title t) v (status t) (depends_on t)
         (blocked_by t) (tags t) (priority t) (metadata t).

Definition set_depends_on (v : list string) (t : Task) : Task :=
  mkTask (id t) (title t) (description t) (status t) v
         (blocked_by t) (tags t) (priority t) (metadata t).

Definition set_tags (v : list string) (t : Task) : Task :=
  mkTask (id t) (title t) (description t) (status t) (depends_on t)
         (blocked_by t) v (priority t) (metadata t).

(** Pydantic does not validate on assignment: any integer is accepted. *)
Definition set_priority (v : Z) (t : Task) : Task :=
  mkTask (id t) (title t) (description t) (status t) (depends_on t)
         (blocked_by t) (tags t) v (metadata t).

(** [status.value] and [TaskStatus(value)]; [None] is the [ValueError] of a
    string that is no status. *)
Definition TaskStatus_value (st : TaskStatus) : string :=
  match st with
  | TODO => "todo"
  | IN_PROGRESS => "in_progress"
  | BLOCKED => "blocked"
  | DONE => "done"
  end.

Definition TaskStatus_of_value (v : string) : option TaskStatus :=
  if (v =? "todo")%string then Some TODO
  else if (v =? "in_progress")%string then Some IN_PROGRESS
  else if (v =? "blocked")%string then Some BLOCKED
  else if (v =? "done")%string then Some DONE
  else None.

(** [priority: int = Field(default=5, ge=1, le=10)]. *)
Definition priority_ok (t : Task) : bool :=
  ((1 <=? priority t) && (priority t <=? 10))%Z.

(** [generate_id_if_empty]: [hash_hex] stands for
    [hashlib.sha256(f"{title}{time.time_ns()}").hexdigest()[:6]]. *)
Definition generate_id_if_empty (hash_hex : string) (t : Task) : Task :=
  if (id t =? "")%string then set_id ("m-" ++ hash_hex)%string t else t.

(** Building a [Task] from a record, as [load_all_tasks] does: the field
    constraints, then the [after] validator. [None] is the validation
    error. *)
Definition Task_validate (hash_hex : string) (record : Task) : option Task :=
  if priority_ok record then Some (generate_id_if_empty hash_hex record)
  else None.

(** A record that validation accepts and returns as it is. *)
Definition Task_valid (t : Task) : Prop :=
  priority_ok t = true /\ id t <> ""%string.

(* ================================================================== *)
(** * Python dictionaries *)
(* ================================================================== *)

Section Dict.
Variable V : Type.

Definition dict : Type := list (string * V).

Fixpoint dict_get (k : string) (d : dict) : option V :=
  match d with
  | [] => None
  | (k', v) :: d' => if (k' =? k)%string then Some v else dict_get k d'
  end.

(** [d[k] = v] *)
Fixpoint dict_set (k : string) (v : V) (d : dict) : dict :=
  match d with
  | [] => [(k, v)]
  | (k', v') :: d' =>
      if (k' =? k)%string then (k, v) :: d' else (k', v') :: dict_set k v d'
  end.

Definition dict_mem (k : string) (d : dict) : bool :=
  match dict_get k d with Some _ => true | None => false end.

Definition dict_keys (d : dict) : list string := map fst d.
Definition dict_values (d : dict) : list V := map snd d.
End Dict.

Arguments dict_get {V} k d.
Arguments dict_set {V} k v d.
Arguments dict_mem {V} k d.
Arguments dict_keys {V} d.
Arguments dict_values {V} d.

(** [x in xs] for a list or set of strings. *)
Definition str_mem (x : string) (xs : list string) : bool :=
  existsb (String.eqb x) xs.

(* ================================================================== *)
(** * Git utilities and task storage *)
(* ================================================================== *)

(** Answers of the version-control tool and of the clock at one
    [save_task]: [get_current_branch()], [get_current_commit()],
    [datetime.now().isoformat()]. *)
Record Vca : Type := mkVca {
  get_current_branch : string;
  get_current_commit : string;
  now_isoformat : string
}.

(** The first six hex digits of the SHA-256 taken while the record at a given
    position of the file is validated, as a function of its title. *)
Definition HashOracle : Type := nat -> string -> string.

(** Contents of [tasks.jsonl] and [archive.jsonl]. *)
Record TaskStorage : Type := mkTaskStorage {
  tasks_file : list Task;
  archive_file : list Task
}.

Fixpoint load_records (h : HashOracle) (i : nat) (records : list Task)
  : list Task :=
  match records with
  | [] => []
  | record :: rest =>
      match Task_validate (h i (title record)) record with
      | Some t => t :: load_records h (S i) rest
      | None => load_records h (S i) rest   (* skip invalid records *)
      end
  end.

Definition load_all_tasks (h : HashOracle) (s : TaskStorage) : list Task :=
  load_records h 0 (tasks_file s).

Definition load_task (h : HashOracle) (s : TaskStorage) (task_id : string)
  : option Task :=
  find (fun task => (id task =? task_id)%string) (load_all_tasks h s).

(** The [for i, existing in enumerate(tasks)] loop of [save_task] together
    with the [if not found: tasks.append(task)] that follows it. *)
Fixpoint upsert (task : Task) (tasks : list Task) : list Task :=
  match tasks with
  | [] => [task]
  | existing :: rest =>
      if (id existing =? id task)%string then task :: rest
      else existing :: upsert task rest
  end.

Definition refresh_metadata (v : Vca) (task : Task) : Task :=
  set_metadata
    (mkGitMetadata (get_current_branch v) (get_current_commit v)
                   (created_at (metadata task)) (now_isoformat v))
    task.

Definition save_task (v : Vca) (h : HashOracle) (s : TaskStorage) (task : Task)
  : Task * TaskStorage :=
  let task := refresh_metadata v task in
  let tasks := load_all_tasks h s in
  (task, mkTaskStorage (upsert task tasks) (archive_file s)).

Definition delete_task (h : HashOracle) (s : TaskStorage) (task_id : string)
  : bool * TaskStorage :=
  let tasks := load_all_tasks h s in
  let original_count := List.length tasks in
  let tasks := filter (fun t => negb (id t =? task_id)%string) tasks in
  if List.length tasks <? original_count
  then (true, mkTaskStorage tasks (archive_file s))
  else (false, s).

(** [archive_task] loads twice: [h1] serves [load_task], [h2] serves the
    [load_all_tasks] of [delete_task]. *)
Definition archive_task (h1 h2 : HashOracle) (s : TaskStorage)
  (task_id : string) : bool * TaskStorage :=
  match load_task h1 s task_id with
  | None => (false, s)
  | Some task =>
      delete_task h2
        (mkTaskStorage (tasks_file s) (archive_file s ++ [task])) task_id
  end.

(* ================================================================== *)
(** * Dependency graph operations *)
(* ================================================================== *)

Inductive exn : Type := ValueError | KeyError.

(** Outcome of a call that may raise; [OutOfFuel] is the embedding's own
    bound on the recursion depth and is shown not to occur. *)
Inductive result (A : Type) : Type :=
| Ok (a : A)
| Raise (e : exn)
| OutOfFuel.

Arguments Ok {A} a.
Arguments Raise {A} e.
Arguments OutOfFuel {A}.

(** [{t.id: t for t in tasks}] and [{t.id: set(t.depends_on) for t in tasks}] *)
Definition build_task_dict (tasks : list Task) : dict Task :=
  fold_left (fun d t => dict_set (id t) t d) tasks [].

Definition build_adj (tasks : list Task) : dict (list string) :=
  fold_left (fun d t => dict_set (id t) (depends_on t) d) tasks [].

Definition _build_graph (h : HashOracle) (s : TaskStorage)
  : dict Task * dict (list string) :=
  let tasks := load_all_tasks h s in
  (build_task_dict tasks, build_adj tasks).

(** ** Ready queue *)

(** One round of [for dep_id in task.depends_on]; the state is
    [(all_deps_done, blocking)]. *)
Definition check_dep (task_dict : dict Task) (st : bool * list string)
  (dep_id : string) : bool * list string :=
  match dict_get dep_id task_dict with
  | None => (false, snd st ++ [dep_id])
  | Some dep_task =>
      if negb (TaskStatus_eqb (status dep_task) DONE)
      then (false, snd st ++ [dep_id])
      else st
  end.

(** One round of [for task_id, task in task_dict.items()]. The tasks are
    objects shared with [task_dict], so [task.blocked_by = blocking] is an
    update of the dictionary; the state is [(task_dict, ready)]. *)
Definition ready_step (st : dict Task * list Task) (task_id : string)
  : dict Task * list Task :=
  let (task_dict, ready) := st in
  match dict_get task_id task_dict with
  | None => st
  | Some task =>
      if negb (TaskStatus_eqb (status task) TODO) then st
      else
        let (all_deps_done, blocking) :=
          fold_left (check_dep task_dict) (depends_on task) (true, []) in
        if all_deps_done then (task_dict, ready ++ [task])
        else (dict_set task_id (set_blocked_by blocking task) task_dict, ready)
  end.

(** [key=lambda t: (-t.priority, t.metadata.created_at)] and the tuple
    comparison [<]. Strings are compared byte by byte, which on UTF-8 is the
    code point order Python uses. *)
Definition sort_key (t : Task) : Z * string :=
  ((- priority t)%Z, created_at (metadata t)).

Definition key_lt (a b : Z * string) : bool :=
  ((fst a <? fst b)%Z || ((fst a =? fst b)%Z && String.ltb (snd a) (snd b))).

(** [list.sort] is stable: an element is placed before the first element of
    the sorted remainder that is not strictly smaller than it. *)
Fixpoint insert_by_key (x : Task) (l : list Task) : list Task :=
  match l with
  | [] => [x]
  | y :: l' =>
      if key_lt (sort_key y) (sort_key x) then y :: insert_by_key x l'
      else x :: y :: l'
  end.

Definition sort_by_key (l : list Task) : list Task :=
  fold_right insert_by_key [] l.

(** The loop of [get_ready_tasks] followed by the sort; the second
    component is the local [task_dict] when the function returns. *)
Definition get_ready_tasks_run (h : HashOracle) (s : TaskStorage)
  : list Task * dict Task :=
  let (task_dict, adj) := _build_graph h s in
  let (task_dict', ready) :=
    fold_left ready_step (dict_keys task_dict) (task_dict, []) in
  (sort_by_key ready, task_dict').

Definition get_ready_tasks (h : HashOracle) (s : TaskStorage) : list Task :=
  fst (get_ready_tasks_run h s).

(** ** Dependents *)

Definition get_dependents (h : HashOracle) (s : TaskStorage)
  (task_id : string) : list Task :=
  let (task_dict, _) := _build_graph h s in
  filter (fun task => str_mem task_id (depends_on task))
         (dict_values task_dict).

(** ** Blocked report *)

(** One round of [for dep_id in task.depends_on] in [get_blocked_tasks]. *)
Definition blocked_dep (task_dict : dict Task) (blocking : list string)
  (dep_id : string) : list string :=
  match dict_get dep_id task_dict with
  | None => blocking ++ [dep_id]
  | Some dep_task =>
      if negb (TaskStatus_eqb (status dep_task) DONE)
      then blocking ++ [dep_id]
      else blocking
  end.

(** One round of [for task_id, task in task_dict.items()] in
    [get_blocked_tasks]; nothing is assigned to the tasks here. *)
Definition blocked_step (task_dict : dict Task)
  (blocked : list (Task * list string)) (item : string * Task)
  : list (Task * list string) :=
  let (task_id, task) := item in
  if negb (TaskStatus_eqb (status task) TODO) then blocked
  else
    let blocking := fold_left (blocked_dep task_dict) (depends_on task) [] in
    match blocking with
    | [] => blocked
    | _ :: _ => blocked ++ [(task, blocking)]
    end.

Definition get_blocked_tasks (h : HashOracle) (s : TaskStorage)
  : list (Task * list string) :=
  let (task_dict, adj) := _build_graph h s in
  fold_left (blocked_step task_dict) task_dict [].

(** ** Consistency check and dependency chain *)

Inductive Color : Type := WHITE | GRAY | BLACK.

(** The variables that the nested [dfs] of [check_consistency] updates:
    the [color] dictionary, the [path] list handed down through the
    recursive calls of one traversal, and the [cycles] list. (The source's
    [parent] dictionary is written once and never read.) *)
Record DfsState : Type := mkDfsState {
  color : dict Color;
  path : list string;
  cycles : list string
}.

(** [path.index(x)]; [None] is the [ValueError] of a missing element. *)
Fixpoint list_index (x : string) (l : list string) : option nat :=
  match l with
  | [] => None
  | y :: l' =>
      if (y =? x)%string then Some 0
      else match list_index x l' with Some i => Some (S i) | None => None end
  end.

Definition cycle_message (cycle : list string) : string :=
  ("Circular dependency detected: " ++ String.concat " -> " cycle)%string.

Definition missing_message (task_id dep_id : string) : string :=
  ("Task '" ++ task_id ++ "' depends on non-existent task '" ++ dep_id ++ "'")%string.

(** [adj.get(node, set())] *)
Definition adj_get (adj : dict (list string)) (node : string) : list string :=
  match dict_get node adj with Some deps => deps | None => [] end.

Section GraphTraversal.
(** The order in which a [for] loop walks a set built from the given
    list. *)
Variable set_iter : list string -> list string.

Variable task_dict : dict Task.
Variable adj : dict (list string).

(** The nested [dfs(node, path)] of [check_consistency]; the boolean is
    its return value. The inner [fix] is the [for neighbor in ...] loop,
    whose [return True] leaves the loop and the call at once. *)
Fixpoint cycle_dfs (fuel : nat) (node : string) (st : DfsState)
  : result (bool * DfsState) :=
  match fuel with
  | O => OutOfFuel
  | S fuel' =>
      let st :=
        mkDfsState (dict_set node GRAY (color st)) (path st ++ [node])
                   (cycles st) in
      let loop :=
        fix loop (neighbors : list string) (st : DfsState)
          : result (bool * DfsState) :=
          match neighbors with
          | [] => Ok (false, st)
          | neighbor :: rest =>
              match dict_get neighbor (color st) with
              | None => loop rest st
              | Some GRAY =>
                  match list_index neighbor (path st) with
                  | None => Raise ValueError
                  | Some cycle_start =>
                      let cycle := skipn cycle_start (path st) ++ [neighbor] in
                      Ok (true,
                          mkDfsState (color st) (path st)
                                     (cycles st ++ [cycle_message cycle]))
                  end
              | Some WHITE =>
                  match cycle_dfs fuel' neighbor st with
                  | Ok (true, st') => Ok (true, st')
                  | Ok (false, st') => loop rest st'
                  | Raise e => Raise e
                  | OutOfFuel => OutOfFuel
                  end
              | Some BLACK => loop rest st
              end
          end in
      match loop (set_iter (adj_get adj node)) st with
      | Ok (false, st') =>
          Ok (false,
              mkDfsState (dict_set node BLACK (color st'))
                         (removelast (path st')) (cycles st'))
      | other => other
      end
  end.

(** [for task_id in task_dict: if color[task_id] == WHITE: dfs(task_id, [])];
    the state is [(color, cycles)], every traversal starts on a new list. *)
Fixpoint cycle_dfs_all (fuel : nat) (task_ids : list string)
  (st : dict Color * list string) : result (dict Color * list string) :=
  match task_ids with
  | [] => Ok st
  | task_id :: rest =>
      match dict_get task_id (fst st) with
      | None => Raise KeyError
      | Some WHITE =>
          match cycle_dfs fuel task_id (mkDfsState (fst st) [] (snd st)) with
          | Ok (_, st') => cycle_dfs_all fuel rest (color st', cycles st')
          | Raise e => Raise e
          | OutOfFuel => OutOfFuel
          end
      | Some _ => cycle_dfs_all fuel rest st
      end
  end.

(** The second loop of [check_consistency]. *)
Definition missing_errors : list string :=
  flat_map
    (fun item : string * Task =>
       let (task_id, task) := item in
       flat_map
         (fun dep_id =>
            if negb (dict_mem dep_id task_dict)
            then [missing_message task_id dep_id] else [])
         (depends_on task))
    task_dict.

Definition check_consistency_graph : result (bool * list string) :=
  let color : dict Color :=
    map (fun task_id => (task_id, WHITE)) (dict_keys task_dict) in
  match cycle_dfs_all (S (List.length task_dict)) (dict_keys task_dict)
                      (color, []) with
  | Ok (_, cycles) =>
      let errors := cycles ++ missing_errors in
      Ok (Nat.eqb (List.length errors) 0, errors)
  | Raise e => Raise e
  | OutOfFuel => OutOfFuel
  end.

(** The nested [dfs(node)] of [get_dependency_chain]; the state is
    [(visited, chain)]. *)
Fixpoint chain_dfs (fuel : nat) (node : string)
  (st : list string * list Task) : result (list string * list Task) :=
  match fuel with
  | O => OutOfFuel
  | S fuel' =>
      if str_mem node (fst st) then Ok st
      else
        let st := (node :: fst st, snd st) in
        let loop :=
          fix loop (deps : list string) (st : list string * list Task)
            : result (list string * list Task) :=
            match deps with
            | [] => Ok st
            | dep_id :: rest =>
                if dict_mem dep_id task_dict then
                  match chain_dfs fuel' dep_id st with
                  | Ok st' => loop rest st'
                  | other => other
                  end
                else loop rest st
            end in
        match loop (set_iter (adj_get adj node)) st with
        | Ok (visited, chain) =>
            match dict_get node task_dict with
            | Some task => Ok (visited, chain ++ [task])
            | None => Raise KeyError
            end
        | other => other
        end
  end.

Definition dependency_chain_graph (task_id : string) : result (list Task) :=
  if negb (dict_mem task_id task_dict) then Ok []
  else
    match chain_dfs (S (List.length task_dict)) task_id ([], []) with
    | Ok (_, chain) => Ok chain
    | Raise e => Raise e
    | OutOfFuel => OutOfFuel
    end.
End GraphTraversal.

Definition check_consistency (set_iter : list string -> list string)
  (h : HashOracle) (s : TaskStorage) : result (bool * list string) :=
  let (task_dict, adj) := _build_graph h s in
  check_consistency_graph set_iter task_dict adj.

Definition get_dependency_chain (set_iter : list string -> list string)
  (h : HashOracle) (s : TaskStorage) (task_id : string) : result (list Task) :=
  let (task_dict, adj) := _build_graph h s in
  dependency_chain_graph set_iter task_dict adj task_id.

(** The dictionary returned by [summary]; [by_status] is keyed by
    [status.value] in the order of the enum, an entry of [ready_tasks] is
    [(id, title, priority)]. *)
Record Summary : Type := mkSummary {
  total_tasks : nat;
  by_status : dict nat;
  ready_count : nat;
  ready_tasks : list (string * string * Z);
  is_consistent : bool;
  consistency_errors : list string;
  task_dir : string
}.

(** [xs or []] for an optional list argument. *)
Definition or_empty (xs : option (list string)) : list string :=
  match xs with Some l => l | None => [] end.

(* ================================================================== *)
(** * Mission control (main API) *)
(* ================================================================== *)

Module MissionControl.

(** [update_task_status] reads the active file up to five times; [hs k]
    is the oracle of the read number [k]. *)
Definition update_task_status (v : Vca) (hs : nat -> HashOracle)
  (s : TaskStorage) (task_id : string) (new_status : TaskStatus)
  (auto_archive : bool) : option Task * TaskStorage :=
  match load_task (hs 0) s task_id with
  | None => (None, s)
  | Some task =>
      let task := set_status new_status task in
      let (task, s) := save_task v (hs 1) s task in
      if auto_archive && TaskStatus_eqb new_status DONE then
        let dependents := get_dependents (hs 2) s task_id in
        match dependents with
        | [] => (Some task, snd (archive_task (hs 3) (hs 4) s task_id))
        | _ :: _ => (Some task, s)
        end
      else (Some task, s)
  end.

Definition delete_task (h : HashOracle) (s : TaskStorage) (task_id : string)
  : bool * TaskStorage :=
  delete_task h s task_id.

Definition get_task (h : HashOracle) (s : TaskStorage) (task_id : string)
  : option Task :=
  load_task h s task_id.

Definition list_ready_work (h : HashOracle) (s : TaskStorage) : list Task :=
  get_ready_tasks h s.

Definition check_consistency (set_iter : list string -> list string)
  (h : HashOracle) (s : TaskStorage) : result (bool * list string) :=
  check_consistency set_iter h s.

Definition get_task_chain (set_iter : list string -> list string)
  (h : HashOracle) (s : TaskStorage) (task_id : string)
  : result (list Task) :=
  get_dependency_chain set_iter h s task_id.

Definition get_task_impact (h : HashOracle) (s : TaskStorage)
  (task_id : string) : list Task :=
  get_dependents h s task_id.

(** [create_task]: the constructor call validates the priority and, the id
    being empty, generates one from [hash_hex]; [created] and [updated] are
    the two clock readings of the default [GitMetadata]. [None] is the
    validation error, raised before anything is written. *)
Definition create_task (v : Vca) (h : HashOracle)
  (hash_hex created updated : string) (s : TaskStorage)
  (title description : string) (depends_on tags : option (list string))
  (priority : Z) : option (Task * TaskStorage) :=
  match Task_validate hash_hex
          (mkTask "" title description TODO (or_empty depends_on) []
                  (or_empty tags) priority
                  (mkGitMetadata "" "" created updated)) with
  | None => None
  | Some task => Some (save_task v h s task)
  end.

(** [update_task]: a field is assigned when its argument is not [None];
    [hs 0] serves [load_task], [hs 1] the read of [save_task]. *)
Definition update_task (v : Vca) (hs : nat -> HashOracle) (s : TaskStorage)
  (task_id : string) (title description : option string)
  (depends_on tags : option (list string)) (priority : option Z)
  (status : option TaskStatus) : option Task * TaskStorage :=
  match load_task (hs 0) s task_id with
  | None => (None, s)
  | Some task =>
      let task := match title with Some x => set_title x task | None => task end in
      let task :=
        match description with Some x => set_description x task | None => task end in
      let task :=
        match depends_on with Some x => set_depends_on x task | None => task end in
      let task := match tags with Some x => set_tags x task | None => task end in
      let task :=
        match priority with Some x => set_priority x task | None => task end in
      let task := match status with Some x => set_status x task | None => task end in
      let (task, s) := save_task v (hs 1) s task in
      (Some task, s)
  end.

(** [list_tasks]: [if status:] holds for every status, [if tags:] fails for
    [None] and for the empty list; [tag_set & set(t.tags)] is true when the
    two sets share an element. *)
Definition list_tasks (h : HashOracle) (s : TaskStorage)
  (status_filter : option TaskStatus) (tags_filter : option (list string))
  : list Task :=
  let tasks := load_all_tasks h s in
  let tasks :=
    match status_filter with
    | Some st => filter (fun t => TaskStatus_eqb (status t) st) tasks
    | None => tasks
    end in
  match tags_filter with
  | Some (tag :: more) =>
      filter (fun t => existsb (fun x => str_mem x (tags t)) (tag :: more)) tasks
  | _ => tasks
  end.

Definition list_blocked (h : HashOracle) (s : TaskStorage)
  : list (Task * list string) :=
  get_blocked_tasks h s.

(** [summary]: [hs 0] serves [load_all_tasks], [hs 1] the consistency check
    and [hs 2] the ready queue; [dir] is [str(self.storage.task_dir)]. *)
Definition summary (set_iter : list string -> list string)
  (hs : nat -> HashOracle) (dir : string) (s : TaskStorage) : result Summary :=
  let tasks := load_all_tasks (hs 0) s in
  match check_consistency set_iter (hs 1) s with
  | Ok (consistent, errors) =>
      let ready := list_ready_work (hs 2) s in
      let counts :=
        fold_left
          (fun d st =>
             dict_set (TaskStatus_value st)
                      (List.length
                         (filter (fun t => TaskStatus_eqb (status t) st) tasks))
                      d)
          [TODO; IN_PROGRESS; BLOCKED; DONE] [] in
      Ok (mkSummary (List.length tasks) counts (List.length ready)
                    (map (fun t => (id t, title t, priority t)) (firstn 5 ready))
                    consistent errors dir)
  | Raise e => Raise e
  | OutOfFuel => OutOfFuel
  end.

End MissionControl.

(* ================================================================== *)
(** * Tool handlers *)
(* ================================================================== *)

(** The objects handed to [json.dumps]. *)
#[local] Unset Elimination Schemes.
Inductive json : Type :=
| JBool (b : bool)
| JString (s : string)
| JList (l : list json)
| JObject (fields : list (string * json)).
#[local] Set Elimination Schemes.

(** [str(n)] for a length. *)
Definition str_of_nat (n : nat) : string :=
  NilZero.string_of_uint (Nat.to_uint n).

(** [handle_delete_task] on the storage that [project_path] selects;
    [h1] serves the read of [get_task_impact], [h2] the read of
    [delete_task]. *)
Definition handle_delete_task (h1 h2 : HashOracle) (s : TaskStorage)
  (task_id : string) : json * TaskStorage :=
  let dependents := MissionControl.get_task_impact h1 s task_id in
  match dependents with
  | _ :: _ =>
      (JObject
         [("success"%string, JBool false);
          ("error"%string,
           JString ("Cannot delete task " ++ task_id ++ " - "
                    ++ str_of_nat (List.length dependents)
                    ++ " task(s) depend on it")%string);
          ("dependent_tasks"%string,
           JList (map (fun t => JObject [("id"%string, JString (id t));
                                         ("title"%string, JString (title t))])
                      dependents))],
       s)
  | [] =>
      let (deleted, s') := MissionControl.delete_task h2 s task_id in
      (JObject
         [("success"%string, JBool deleted);
          ("message"%string,
           JString (if deleted then ("Deleted task " ++ task_id)%string
                    else ("Task " ++ task_id ++ " not found")%string))],
       s')
  end.

(** ** Handlers whose answers hold numbers *)

(** The objects handed to [json.dumps] by the other handlers: [json] with
    [None] and integers added. An object is a dictionary in insertion
    order. *)
#[local] Unset Elimination Schemes.
Inductive jvalue : Type :=
| VNull
| VBool (b : bool)
| VInt (z : Z)
| VString (s : string)
| VList (l : list jvalue)
| VObject (fields : dict jvalue).
#[local] Set Elimination Schemes.

Definition task_to_dict (task : Task) : jvalue :=
  VObject
    [("id"%string, VString (id task));
     ("title"%string, VString (title task));
     ("description"%string, VString (description task));
     ("status"%string, VString (TaskStatus_value (status task)));
     ("depends_on"%string, VList (map VString (depends_on task)));
     ("blocked_by"%string, VList (map VString (blocked_by task)));
     ("tags"%string, VList (map VString (tags task)));
     ("priority"%string, VInt (priority task));
     ("metadata"%string,
      VObject
        [("branch"%string, VString (branch (metadata task)));
         ("commit_hash"%string, VString (commit_hash (metadata task)));
         ("created_at"%string, VString (created_at (metadata task)));
         ("updated_at"%string, VString (updated_at (metadata task)))])].

(** The entry [{"id": t.id, "title": t.title}] of [newly_ready]. *)
Definition id_title_entry (t : Task) : jvalue :=
  VObject [("id"%string, VString (id t)); ("title"%string, VString (title t))].

(** [handle_update_task_status] on the storage that [project_path]
    selects; [task_id] and [status_value] are [arguments["task_id"]] and
    [arguments["status"]]. [hs 0] to [hs 4] serve [update_task_status],
    [hs 5] the read of [list_ready_work]. *)
Definition handle_update_task_status (v : Vca) (hs : nat -> HashOracle)
  (s : TaskStorage) (task_id status_value : string)
  : result (jvalue * TaskStorage) :=
  match TaskStatus_of_value status_value with
  | None => Raise ValueError
  | Some new_status =>
      let (task, s') :=
        MissionControl.update_task_status v hs s task_id new_status true in
      match task with
      | Some task =>
          let ready := MissionControl.list_ready_work (hs 5) s' in
          let newly_ready :=
            filter (fun t => negb (id t =? task_id)%string) ready in
          Ok (VObject
                [("success"%string, VBool true);
                 ("task"%string, task_to_dict task);
                 ("newly_ready"%string,
                  VList (map id_title_entry (firstn 5 newly_ready)));
                 ("message"%string,
                  VString ("Updated " ++ task_id ++ " to "
                           ++ TaskStatus_value new_status)%string)],
              s')
      | None =>
          Ok (VObject
                [("success"%string, VBool false);
                 ("error"%string,
                  VString ("Task " ++ task_id ++ " not found")%string)],
              s')
      end
  end.

(** [handle_list_ready_work]; [h1] serves [list_ready_work], [h2] the read
    of [list_blocked]. *)
Definition handle_list_ready_work (h1 h2 : HashOracle) (s : TaskStorage)
  : jvalue :=
  let ready := MissionControl.list_ready_work h1 s in
  match ready with
  | _ :: _ =>
      VObject
        [("success"%string, VBool true);
         ("count"%string, VInt (Z.of_nat (List.length ready)));
         ("tasks"%string, VList (map task_to_dict ready));
         ("message"%string,
          VString (str_of_nat (List.length ready)
                   ++ " task(s) ready for work")%string)]
  | [] =>
      let blocked := MissionControl.list_blocked h2 s in
      VObject
        [("success"%string, VBool true);
         ("count"%string, VInt 0);
         ("tasks"%string, VList []);
         ("blocked_count"%string, VInt (Z.of_nat (List.length blocked)));
         ("blocked_summary"%string,
          VList
            (map (fun item : Task * list string =>
                    let (t, blockers) := item in
                    VObject
                      [("id"%string, VString (id t));
                       ("title"%string, VString (title t));
                       ("blocked_by"%string, VList (map VString blockers))])
                 (firstn 5 blocked)));
         ("message"%string,
          VString "No tasks ready. Check blocked tasks or create new work.")]
  end.

(** [handle_get_task]; [include_chain] and [include_impact] are the truth
    values of [arguments.get(...)]. [hs 0] serves [get_task], [hs 1] the
    chain and [hs 2] the impact. *)
Definition handle_get_task (set_iter : list string -> list string)
  (hs : nat -> HashOracle) (s : TaskStorage) (task_id : string)
  (include_chain include_impact : bool) : result jvalue :=
  match MissionControl.get_task (hs 0) s task_id with
  | None =>
      Ok (VObject
            [("success"%string, VBool false);
             ("error"%string,
              VString ("Task " ++ task_id ++ " not found")%string)])
  | Some task =>
      let answer : dict jvalue :=
        [("success"%string, VBool true); ("task"%string, task_to_dict task)] in
      let with_chain : result (dict jvalue) :=
        if include_chain then
          match MissionControl.get_task_chain set_iter (hs 1) s task_id with
          | Ok chain =>
              Ok (dict_set "dependency_chain"%string
                    (VList
                       (map task_to_dict
                          (filter (fun t => negb (id t =? task_id)%string)
                                  chain)))
                    answer)
          | Raise e => Raise e
          | OutOfFuel => OutOfFuel
          end
        else Ok answer in
      match with_chain with
      | Ok answer =>
          if include_impact then
            Ok (VObject
                  (dict_set "dependent_tasks"%string
                     (VList
                        (map task_to_dict
                           (MissionControl.get_task_impact (hs 2) s task_id)))
                     answer))
          else Ok (VObject answer)
      | Raise e => Raise e
      | OutOfFuel => OutOfFuel
      end
  end.

(* ================================================================== *)
(** * Vocabulary of the properties *)
(* ================================================================== *)

(** The entry of a task in a dictionary keyed by task id. *)
Definition keyed (t : Task) : string * Task := (id t, t).

(** A dependency id is resolved in a dictionary: it is a key, and the task
    under it is done. *)
Definition dep_done (task_dict : dict Task) (dep_id : string) : bool :=
  match dict_get dep_id task_dict with
  | Some dep_task => TaskStatus_eqb (status dep_task) DONE
  | None => false
  end.

(** The value of [blocking] after the inner loop of [get_ready_tasks]. *)
Definition blocking_of (task_dict : dict Task) (t : Task) : list string :=
  filter (fun dep_id => negb (dep_done task_dict dep_id)) (depends_on t).

(** The test that sends a task of the dictionary to [ready]. *)
Definition ready_in (task_dict : dict Task) (t : Task) : bool :=
  TaskStatus_eqb (status t) TODO && forallb (dep_done task_dict) (depends_on t).

(** What one round of the outer loop of [get_ready_tasks] leaves in the
    dictionary for a task. *)
Definition mark_task (task_dict : dict Task) (t : Task) : Task :=
  if TaskStatus_eqb (status t) TODO && negb (forallb (dep_done task_dict) (depends_on t))
  then set_blocked_by (blocking_of task_dict t) t
  else t.

Definition mark_entry (task_dict : dict Task) (kv : string * Task)
  : string * Task :=
  (fst kv, mark_task task_dict (snd kv)).

(** Readiness in the words of the specification: the status is [todo] and
    every id in [depends_on] refers to an existing active task whose status
    is [done]. *)
Definition is_ready (tasks : list Task) (t : Task) : Prop :=
  status t = TODO /\
  forall dep_id, In dep_id (depends_on t) ->
    exists d, In d tasks /\ id d = dep_id /\ status d = DONE.

Definition is_readyb (tasks : list Task) (t : Task) : bool :=
  TaskStatus_eqb (status t) TODO &&
  forallb (fun dep_id =>
             existsb (fun d => (id d =? dep_id)%string &&
                               TaskStatus_eqb (status d) DONE) tasks)
          (depends_on t).

(** The invariant of the data model: task ids are unique across the active
    set. *)
Definition unique_ids (tasks : list Task) : Prop := NoDup (map id tasks).

(** Every record of the active log carries an id, so that no id is
    generated when the log is read. *)
Definition records_have_ids (s : TaskStorage) : Prop :=
  Forall (fun record => id record <> ""%string) (tasks_file s).

(** Two dictionary entries with the same key and the same status. *)
Definition same_status (a b : string * Task) : Prop :=
  fst a = fst b /\ status (snd a) = status (snd b).

(** The order of the ready queue: priority descending, creation timestamp
    ascending among equal priorities. *)
Definition queue_order (a b : Task) : Prop :=
  (priority b <= priority a)%Z /\
  (priority a = priority b ->
   String.leb (created_at (metadata a)) (created_at (metadata b)) = true).

(** What the dependency graph sees of a task: its id and its
    [depends_on]. *)
Definition dep_view (t : Task) : string * list string := (id t, depends_on t).

(** The entry [{"id": t.id, "title": t.title}] of [dependent_tasks]. *)
Definition dependent_entry (t : Task) : json :=
  JObject [("id"%string, JString (id t)); ("title"%string, JString (title t))].

(** [task_id] has a dependent in the active set: an active task names it
    in its [depends_on]. *)
Definition has_dependent (tasks : list Task) (task_id : string) : Prop :=
  exists d, In d tasks /\ In task_id (depends_on d).

(** An upsert keyed by id from [records] to [records']: the first record
    with the id of [task] is replaced in place by [saved] and the others
    stay as they are and where they are; when no record has that id,
    [saved] is appended after all of them. *)
Definition upsert_on (records : list Task) (task saved : Task)
  (records' : list Task) : Prop :=
  (forall pre old suf,
      records = pre ++ old :: suf ->
      id old = id task ->
      (forall x, In x pre -> id x <> id task) ->
      records' = pre ++ saved :: suf) /\
  ((forall x, In x records -> id x <> id task) ->
   records' = records ++ [saved]).

(** ** The dependency graph of the active set *)

(** An edge of the graph held by a task dictionary: [b] is a dependency of
    the task under key [a], and [b] is itself a key. *)
Definition dict_edge (task_dict : dict Task) (a b : string) : Prop :=
  exists t, dict_get a task_dict = Some t /\ In b (depends_on t) /\
            In b (dict_keys task_dict).

(** The same edge read off the list of active tasks: the active task of id
    [a] depends on [b], and [b] is the id of an active task. *)
Definition depends_edge (tasks : list Task) (a b : string) : Prop :=
  exists t, In t tasks /\ id t = a /\ In b (depends_on t) /\
            In b (map id tasks).

(** [b] is reachable from [a] via [depends_on]; [a] itself is. *)
Definition reachable (tasks : list Task) : string -> string -> Prop :=
  clos_refl_trans string (depends_edge tasks).

(** [n] lies on a dependency cycle. *)
Definition on_cycle (tasks : list Task) (n : string) : Prop :=
  clos_trans string (depends_edge tasks) n n.

(** The active-set graph is acyclic. *)
Definition acyclic (tasks : list Task) : Prop := forall n, ~ on_cycle tasks n.

(** Every [depends_on] id of every active task refers to an active task. *)
Definition no_dangling (tasks : list Task) : Prop :=
  forall t dep_id, In t tasks -> In dep_id (depends_on t) ->
                   In dep_id (map id tasks).

(** The contract of the iteration order of a set: it walks the elements of
    the set, each one once. *)
Definition set_iter_ok (set_iter : list string -> list string) : Prop :=
  forall l, NoDup (set_iter l) /\ forall x, In x (set_iter l) <-> In x l.

(** The [for dep_id in adj.get(node, set())] loop of the [dfs] of
    [get_dependency_chain], named so that it can be reasoned about; see
    [chain_dfs_unfold]. *)
Definition chain_loop (set_iter : list string -> list string)
  (task_dict : dict Task) (adj : dict (list string)) (fuel : nat)
  : list string -> list string * list Task -> result (list string * list Task) :=
  fix loop (deps : list string) (st : list string * list Task) :=
    match deps with
    | [] => Ok st
    | dep_id :: rest =>
        if dict_mem dep_id task_dict then
          match chain_dfs set_iter task_dict adj fuel dep_id st with
          | Ok st' => loop rest st'
          | other => other
          end
        else loop rest st
    end.

(** Number of keys that are not yet in [visited]. *)
Definition unvisited (task_dict : dict Task) (visited : list string) : nat :=
  List.length (filter (fun k => negb (str_mem k visited)) (dict_keys task_dict)).

(** Every task of [chain] has its dependencies that are keys among [seen]
    or among the ids listed before it. *)
Fixpoint chain_topo (task_dict : dict Task) (seen : list string)
  (chain : list Task) : Prop :=
  match chain with
  | [] => True
  | t :: rest =>
      (forall dep_id, In dep_id (depends_on t) ->
                      In dep_id (dict_keys task_dict) -> In dep_id seen) /\
      chain_topo task_dict (seen ++ [id t]) rest
  end.

(** What a traversal started at [n] in state [(V, C)] has added when it
    returns [(V', C ++ C2)]. *)
Definition chain_props (task_dict : dict Task) (n : string)
  (V : list string) (C : list Task) (V' : list string) (C2 : list Task) : Prop :=
  (forall x, In x V' <-> In x V \/ In x (map id C2)) /\
  (forall x, In x (map id C2) -> ~ In x V) /\
  NoDup (map id C2) /\
  (forall t, In t C2 ->
     dict_get (id t) task_dict = Some t /\
     clos_refl_trans string (dict_edge task_dict) n (id t)) /\
  chain_topo task_dict (map id C) C2.

(** What a traversal started at [n] in state [(V, C)] relies on: the nodes
    entered and not yet listed reach [n], and no node that [n] reaches lies
    on a cycle. *)
Definition chain_pre (task_dict : dict Task) (n : string)
  (V : list string) (C : list Task) : Prop :=
  (forall x, In x V -> ~ In x (map id C) ->
             clos_refl_trans string (dict_edge task_dict) x n) /\
  (forall m, clos_refl_trans string (dict_edge task_dict) n m ->
             ~ clos_trans string (dict_edge task_dict) m m).

(** The adjacency dictionary that goes with a task dictionary; see
    [build_adj_task_dict]. *)
Definition adj_of (task_dict : dict Task) : dict (list string) :=
  map (fun kv => (fst kv, depends_on (snd kv))) task_dict.

(** The statement proved of [chain_dfs] by induction on the fuel. *)
Definition chain_dfs_ok (set_iter : list string -> list string)
  (task_dict : dict Task) (f : nat) : Prop :=
  forall node V C,
    In node (dict_keys task_dict) -> unvisited task_dict V < f ->
    chain_pre task_dict node V C ->
    exists V' C2,
      chain_dfs set_iter task_dict (adj_of task_dict) f node (V, C) =
        Ok (V', C ++ C2) /\
      chain_props task_dict node V C V' C2 /\
      In node V' /\
      (~ In node V ->
       exists C2' tn, C2 = C2' ++ [tn] /\ dict_get node task_dict = Some tn).

(** ** Sample stores *)

Definition sample_hash : HashOracle := fun _ _ => "000000"%string.

Definition sample_vca : Vca :=
  mkVca "main" "abc1234" "2025-01-02T09:00:00".

(** One order in which the elements of a set may be walked: first
    occurrences, in the order of the list the set was built from. *)
Definition first_seen_order : list string -> list string := nodup string_dec.

Definition sample_task (i : string) (st : TaskStatus) (deps : list string)
  (p : Z) : Task :=
  mkTask i i "" st deps [] [] p
         (mkGitMetadata "main" "abc1234" "2025-01-01T09:00:00"
                        "2025-01-01T09:00:00").

(** [m-a] is done; [m-b] waits for [m-a], [m-c] for [m-b], and [m-d] for an
    id that no task carries. *)
Definition sample_store : TaskStorage :=
  mkTaskStorage
    [sample_task "m-a" DONE [] 5;
     sample_task "m-b" TODO ["m-a"%string] 5;
     sample_task "m-c" TODO ["m-b"%string] 7;
     sample_task "m-d" TODO ["m-ghost"%string] 9]
    [].

(** [m-a] and [m-b] depend on each other and [m-c] depends on [m-a]; the
    file order is the creation order. *)
Definition cycle_store : TaskStorage :=
  mkTaskStorage
    [sample_task "m-a" TODO ["m-b"%string] 5;
     sample_task "m-b" TODO ["m-a"%string] 5;
     sample_task "m-c" TODO ["m-a"%string] 5]
    [].

(** [m-b] was written with [blocked_by = [m-a]]; [m-a] is done by now. *)
Definition stale_store : TaskStorage :=
  mkTaskStorage
    [sample_task "m-a" DONE [] 5;
     set_blocked_by ["m-a"%string] (sample_task "m-b" TODO ["m-a"%string] 5)]
    [].

(** The log after [update_task] has given [m-a] the priority 11: the first
    record fails validation on every read. *)
Definition out_of_range_store : TaskStorage :=
  mkTaskStorage
    [sample_task "m-a" TODO [] 11;
     sample_task "m-b" TODO [] 5]
    [].

(** Three tasks without dependencies; [m-z] and [m-a] share priority and
    creation timestamp, and [m-z] stands first in the file. *)
Definition tie_store : TaskStorage :=
  mkTaskStorage
    [sample_task "m-z" TODO [] 5;
     sample_task "m-c" TODO [] 7;
     sample_task "m-a" TODO [] 5]
    [].

(** A computable criterion for an acyclic store: every dependency that is
    an active id stands earlier in the file than the task that names it. *)
Definition deps_point_back (tasks : list Task) : bool :=
  forallb
    (fun t =>
       forallb
         (fun dep_id =>
            match list_index dep_id (map id tasks),
                  list_index (id t) (map id tasks) with
            | Some i, Some j => i <? j
            | _, _ => true
            end)
         (depends_on t))
    tasks.

Definition file_rank (tasks : list Task) (n : string) : nat :=
  match list_index n (map id tasks) with Some i => i | None => 0 end.

(** ** The traversal of the consistency check *)

(** The [for neighbor in adj.get(node, set())] loop of the [dfs] of
    [check_consistency], named so that it can be reasoned about; see
    [cycle_dfs_unfold]. *)
Definition cycle_loop (set_iter : list string -> list string)
  (adj : dict (list string)) (fuel : nat)
  : list string -> DfsState -> result (bool * DfsState) :=
  fix loop (neighbors : list string) (st : DfsState) :=
    match neighbors with
    | [] => Ok (false, st)
    | neighbor :: rest =>
        match dict_get neighbor (color st) with
        | None => loop rest st
        | Some GRAY =>
            match list_index neighbor (path st) with
            | None => Raise ValueError
            | Some cycle_start =>
                let cycle := skipn cycle_start (path st) ++ [neighbor] in
                Ok (true,
                    mkDfsState (color st) (path st)
                               (cycles st ++ [cycle_message cycle]))
            end
        | Some WHITE =>
            match cycle_dfs set_iter adj fuel neighbor st with
            | Ok (true, st') => Ok (true, st')
            | Ok (false, st') => loop rest st'
            | Raise e => Raise e
            | OutOfFuel => OutOfFuel
            end
        | Some BLACK => loop rest st
        end
    end.

Definition is_white (c : dict Color) (k : string) : bool :=
  match dict_get k c with Some WHITE => true | _ => false end.

(** Number of keys that are still white. *)
Definition whites (task_dict : dict Task) (c : dict Color) : nat :=
  List.length (filter (is_white c) (dict_keys task_dict)).

(** The colour dictionary has the keys of the task dictionary. *)
Definition keys_ok (task_dict : dict Task) (c : dict Color) : Prop :=
  forall k, dict_get k c = None <-> ~ In k (dict_keys task_dict).

(** From [c] to [c'] the keys are kept and no key has turned white. *)
Definition grow (c c' : dict Color) : Prop :=
  (forall k, dict_get k c' = None <-> dict_get k c = None) /\
  (forall k, dict_get k c' = Some WHITE -> dict_get k c = Some WHITE).

(** From [c] to [c'] the only changes are white keys turned black. *)
Definition quiet (c c' : dict Color) : Prop :=
  (forall k, dict_get k c' = None <-> dict_get k c = None) /\
  (forall k, dict_get k c = Some GRAY -> dict_get k c' = Some GRAY) /\
  (forall k, dict_get k c = Some BLACK -> dict_get k c' = Some BLACK) /\
  (forall k, dict_get k c = Some WHITE ->
             dict_get k c' = Some WHITE \/ dict_get k c' = Some BLACK).

(** The black keys are closed under the edges and none lies on a cycle. *)
Definition black_inv (task_dict : dict Task) (c : dict Color) : Prop :=
  (forall n m, dict_get n c = Some BLACK -> dict_edge task_dict n m ->
               dict_get m c = Some BLACK) /\
  (forall n, dict_get n c = Some BLACK ->
             ~ clos_trans string (dict_edge task_dict) n n).

(** What a call of [dfs], or a run of its loop, started in [st] may end in;
    [black] names the keys that a run returning [False] has made black. *)
Definition cycle_post (task_dict : dict Task) (st : DfsState)
  (black : string -> Prop) (res : result (bool * DfsState)) : Prop :=
  match res with
  | OutOfFuel => False
  | Raise _ => True
  | Ok (true, st') =>
      grow (color st) (color st') /\
      exists msg, cycles st' = cycles st ++ [msg]
  | Ok (false, st') =>
      quiet (color st) (color st') /\
      cycles st' = cycles st /\
      path st' = path st /\
      (forall k, black k -> dict_get k (color st') = Some BLACK) /\
      (black_inv task_dict (color st) -> black_inv task_dict (color st'))
  end.

(** The gray keys reach [node], and nothing that [node] reaches lies on a
    cycle. *)
Definition cycle_pre_acyclic (task_dict : dict Task) (st : DfsState)
  (node : string) : Prop :=
  (forall g, dict_get g (color st) = Some GRAY ->
             clos_refl_trans string (dict_edge task_dict) g node) /\
  (forall m, clos_refl_trans string (dict_edge task_dict) node m ->
             ~ clos_trans string (dict_edge task_dict) m m).

(** The statement proved of [cycle_dfs] by induction on the fuel. *)
Definition cycle_dfs_ok (set_iter : list string -> list string)
  (task_dict : dict Task) (f : nat) : Prop :=
  forall node st,
    keys_ok task_dict (color st) ->
    dict_get node (color st) = Some WHITE ->
    whites task_dict (color st) < f ->
    cycle_post task_dict st (fun k => k = node)
               (cycle_dfs set_iter (adj_of task_dict) f node st) /\
    (cycle_pre_acyclic task_dict st node ->
     exists st', cycle_dfs set_iter (adj_of task_dict) f node st = Ok (false, st')).

(** The graph of a task dictionary is acyclic, has no dangling edge. *)
Definition dict_acyclic (task_dict : dict Task) : Prop :=
  forall n, ~ clos_trans string (dict_edge task_dict) n n.

Definition dict_no_dangling (task_dict : dict Task) : Prop :=
  forall k t dep_id, In (k, t) task_dict -> In dep_id (depends_on t) ->
                     In dep_id (dict_keys task_dict).

Definition no_gray (c : dict Color) : Prop :=
  forall k, dict_get k c <> Some GRAY.

(** What the outer loop of [check_consistency], started in [(c, cyc)], may
    end in. *)
Definition cycle_all_post (task_dict : dict Task) (ks : list string)
  (c : dict Color) (cyc : list string)
  (res : result (dict Color * list string)) : Prop :=
  match res with
  | OutOfFuel => False
  | Raise _ => True
  | Ok (c', cyc') =>
      grow c c' /\
      exists extra,
        cyc' = cyc ++ extra /\
        (extra = [] -> no_gray c -> black_inv task_dict c ->
         quiet c c' /\ black_inv task_dict c' /\
         forall k, In k ks -> dict_get k c' = Some BLACK)
  end.

(** ** Vocabulary of the further properties *)

(** The invariant that the operations of the engine keep: every record of
    the active log carries an id, and the records that pass validation have
    distinct ids. *)
Definition store_inv (s : TaskStorage) : Prop :=
  records_have_ids s /\
  NoDup (map id (filter priority_ok (tasks_file s))).

(** The tasks of priority [p] created at [c]: the tasks that the sort key
    of the ready queue does not tell apart. *)
Definition same_key (p : Z) (c : string) (t : Task) : bool :=
  (priority t =? p)%Z && (created_at (metadata t) =? c)%string.

(** What a traversal of [get_dependency_chain] started at [n] with the
    visited set [V] has added when it returns the visited set [V'] and the
    new chain elements [C2], on any graph: the new elements are the newly
    visited keys, each once and each reachable from [n], and every
    dependency of a new element that is a key has been visited. *)
Definition chain_visit (task_dict : dict Task) (n : string)
  (V V' : list string) (C2 : list Task) : Prop :=
  (forall x, In x V' <-> In x V \/ In x (map id C2)) /\
  (forall x, In x (map id C2) -> ~ In x V) /\
  NoDup (map id C2) /\
  (forall t, In t C2 ->
     dict_get (id t) task_dict = Some t /\
     clos_refl_trans string (dict_edge task_dict) n (id t)) /\
  (forall t dep_id, In t C2 -> In dep_id (depends_on t) ->
     In dep_id (dict_keys task_dict) -> In dep_id V').

(** The statement proved of [chain_dfs] on any graph by induction on the
    fuel. *)
Definition chain_total_ok (set_iter : list string -> list string)
  (task_dict : dict Task) (f : nat) : Prop :=
  forall node V C,
    In node (dict_keys task_dict) -> unvisited task_dict V < f ->
    exists V' C2,
      chain_dfs set_iter task_dict (adj_of task_dict) f node (V, C) =
        Ok (V', C ++ C2) /\
      chain_visit task_dict node V V' C2 /\
      In node V' /\
      (~ In node V ->
       exists C2' tn, C2 = C2' ++ [tn] /\ dict_get node task_dict = Some tn).

(* ================================================================== *)
(** * Facts about dictionaries *)
(* ================================================================== *)

Section DictFacts.
Context {V : Type}.
Implicit Types (d : dict V) (k : string) (v : V).

Lemma dict_get_set_same d k v : dict_get k (dict_set k v d) = Some v.
Proof.
  induction d as [|[k' v'] d IH]; simpl.
  - now rewrite String.eqb_refl.
  - destruct (k' =? k)%string eqn:E; simpl.
    + now rewrite String.eqb_refl.
    + now rewrite E.
Qed.

Lemma dict_get_set_other d k k' v :
  k <> k' -> dict_get k' (dict_set k v d) = dict_get k' d.
Proof.
  intros Hne. induction d as [|[k0 v0] d IH]; simpl.
  - destruct (String.eqb_spec k k'); congruence.
  - destruct (String.eqb_spec k0 k); simpl.
    + subst k0. destruct (String.eqb_spec k k'); congruence.
    + destruct (String.eqb_spec k0 k'); congruence.
Qed.

Lemma dict_get_None d k : dict_get k d = None <-> ~ In k (dict_keys d).
Proof.
  induction d as [|[k' v'] d IH]; simpl.
  - tauto.
  - destruct (String.eqb_spec k' k).
    + split; [discriminate | tauto].
    + rewrite IH. tauto.
Qed.

Lemma dict_get_Some_In d k v : dict_get k d = Some v -> In (k, v) d.
Proof.
  induction d as [|[k' v'] d IH]; simpl; [discriminate|].
  destruct (String.eqb_spec k' k).
  - intros [= ->]. subst. now left.
  - auto.
Qed.

Lemma dict_get_In_keys d k v : dict_get k d = Some v -> In k (dict_keys d).
Proof.
  intros H. apply dict_get_Some_In in H.
  unfold dict_keys. change k with (fst (k, v)). now apply in_map.
Qed.

Lemma In_dict_get d k v :
  NoDup (dict_keys d) -> In (k, v) d -> dict_get k d = Some v.
Proof.
  induction d as [|[k' v'] d IH]; simpl; [tauto|].
  intros Hnd [H|H].
  - injection H as -> ->. now rewrite String.eqb_refl.
  - inversion Hnd as [|? ? Hnotin Hnd']; subst.
    destruct (String.eqb_spec k' k) as [->|Hne].
    + exfalso. apply Hnotin. unfold dict_keys.
      change k with (fst (k, v)). now apply in_map.
    + auto.
Qed.

Lemma dict_mem_true d k : dict_mem k d = true <-> In k (dict_keys d).
Proof.
  unfold dict_mem. destruct (dict_get k d) eqn:E.
  - split; [intros _; eapply dict_get_In_keys; eauto | reflexivity].
  - apply dict_get_None in E. split; [discriminate | tauto].
Qed.

Lemma dict_mem_false d k : dict_mem k d = false <-> ~ In k (dict_keys d).
Proof.
  rewrite <- dict_mem_true. destruct (dict_mem k d); split; congruence.
Qed.

Lemma dict_set_absent d k v :
  ~ In k (dict_keys d) -> dict_set k v d = d ++ [(k, v)].
Proof.
  induction d as [|[k' v'] d IH]; simpl; [reflexivity|].
  intros H. destruct (String.eqb_spec k' k); [tauto|].
  rewrite IH; tauto.
Qed.

Lemma dict_set_middle pre suf k v v' :
  ~ In k (dict_keys pre) ->
  dict_set k v' (pre ++ (k, v) :: suf) = pre ++ (k, v') :: suf.
Proof.
  induction pre as [|[k0 v0] pre IH]; simpl.
  - now rewrite String.eqb_refl.
  - intros H. destruct (String.eqb_spec k0 k); [tauto|].
    rewrite IH; tauto.
Qed.

Lemma dict_get_middle pre suf k v :
  ~ In k (dict_keys pre) -> dict_get k (pre ++ (k, v) :: suf) = Some v.
Proof.
  induction pre as [|[k0 v0] pre IH]; simpl.
  - now rewrite String.eqb_refl.
  - intros H. destruct (String.eqb_spec k0 k); [tauto|].
    apply IH; tauto.
Qed.

Lemma dict_keys_set d k v :
  dict_keys (dict_set k v d) =
  if dict_mem k d then dict_keys d else dict_keys d ++ [k].
Proof.
  unfold dict_mem. induction d as [|[k' v'] d IH]; simpl; [reflexivity|].
  destruct (String.eqb_spec k' k); simpl.
  - now subst.
  - rewrite IH. now destruct (dict_get k d).
Qed.

Lemma dict_keys_set_In d k v k' :
  In k' (dict_keys (dict_set k v d)) <-> k' = k \/ In k' (dict_keys d).
Proof.
  rewrite dict_keys_set. destruct (dict_mem k d) eqn:E.
  - apply dict_mem_true in E. split; [tauto|]. intros [->|]; auto.
  - rewrite in_app_iff. simpl. intuition.
Qed.

Lemma dict_keys_set_NoDup d k v :
  NoDup (dict_keys d) -> NoDup (dict_keys (dict_set k v d)).
Proof.
  intros H. rewrite dict_keys_set. destruct (dict_mem k d) eqn:E; [exact H|].
  apply dict_mem_false in E.
  apply NoDup_rev in H. rewrite <- (rev_involutive (_ ++ _)).
  apply NoDup_rev. rewrite rev_app_distr. simpl. constructor; [|exact H].
  now rewrite <- in_rev.
Qed.
End DictFacts.

Lemma dict_get_map {V W : Type} (f : string -> V -> W) (d : dict V) k :
  dict_get k (map (fun kv => (fst kv, f (fst kv) (snd kv))) d) =
  option_map (f k) (dict_get k d).
Proof.
  induction d as [|[k' v'] d IH]; simpl; [reflexivity|].
  destruct (String.eqb_spec k' k); [now subst | exact IH].
Qed.

Lemma dict_keys_map {V W : Type} (f : string -> V -> W) (d : dict V) :
  dict_keys (map (fun kv => (fst kv, f (fst kv) (snd kv))) d) = dict_keys d.
Proof.
  unfold dict_keys. rewrite map_map. reflexivity.
Qed.

Lemma str_mem_In x xs : str_mem x xs = true <-> In x xs.
Proof.
  unfold str_mem. rewrite existsb_exists. split.
  - intros (y & Hy & E). apply String.eqb_eq in E. now subst.
  - intros H. exists x. now rewrite String.eqb_refl.
Qed.

Lemma str_mem_false x xs : str_mem x xs = false <-> ~ In x xs.
Proof.
  rewrite <- str_mem_In. destruct (str_mem x xs); split; congruence.
Qed.

(* ================================================================== *)
(** * Facts about loading and building the graph *)
(* ================================================================== *)

Lemma Task_validate_valid hash_hex t :
  Task_valid t -> Task_validate hash_hex t = Some t.
Proof.
  intros [Hp Hid]. unfold Task_validate, generate_id_if_empty. rewrite Hp.
  destruct (String.eqb_spec (id t) ""); [contradiction | reflexivity].
Qed.

Lemma Task_validate_Some hash_hex r t :
  Task_validate hash_hex r = Some t -> Task_valid t.
Proof.
  unfold Task_validate, generate_id_if_empty, Task_valid.
  destruct (priority_ok r) eqn:Hp; [|discriminate].
  destruct (String.eqb_spec (id r) ""); intros [= <-]; split; auto.
  simpl. discriminate.
Qed.

Lemma load_records_valid h i records :
  Forall Task_valid records -> load_records h i records = records.
Proof.
  intros H. revert i. induction H as [|r rs Hr _ IH]; intros i; simpl.
  - reflexivity.
  - rewrite Task_validate_valid by exact Hr. now rewrite IH.
Qed.

Lemma load_records_all_valid h i records :
  Forall Task_valid (load_records h i records).
Proof.
  revert i. induction records as [|r rs IH]; intros i; simpl.
  - constructor.
  - destruct (Task_validate (h i (title r)) r) eqn:E; [|apply IH].
    constructor; [eapply Task_validate_Some; eauto | apply IH].
Qed.

Lemma load_records_ids h i records :
  Forall (fun record => id record <> ""%string) records ->
  load_records h i records = filter priority_ok records.
Proof.
  intros H. revert i. induction H as [|r rs Hr _ IH]; intros i; simpl.
  - reflexivity.
  - unfold Task_validate, generate_id_if_empty.
    destruct (priority_ok r); [|apply IH].
    destruct (String.eqb_spec (id r) ""); [contradiction|]. now rewrite IH.
Qed.

Lemma load_all_tasks_valid h s :
  Forall Task_valid (tasks_file s) -> load_all_tasks h s = tasks_file s.
Proof. apply load_records_valid. Qed.

(** The dictionaries built from a task list. *)

Lemma fold_dict_set_keys_NoDup {V : Type} (f : Task -> V) tasks acc :
  NoDup (dict_keys acc) ->
  NoDup (dict_keys (fold_left (fun d t => dict_set (id t) (f t) d) tasks acc)).
Proof.
  revert acc. induction tasks as [|t ts IH]; intros acc H; simpl; [exact H|].
  apply IH. now apply dict_keys_set_NoDup.
Qed.

Lemma fold_dict_set_keys_In {V : Type} (f : Task -> V) tasks acc k :
  In k (dict_keys (fold_left (fun d t => dict_set (id t) (f t) d) tasks acc))
  <-> In k (dict_keys acc) \/ In k (map id tasks).
Proof.
  revert acc. induction tasks as [|t ts IH]; intros acc; simpl; [tauto|].
  rewrite IH, dict_keys_set_In. intuition.
Qed.

Lemma fold_dict_set_values {V : Type} (f : Task -> V) tasks acc k v :
  In (k, v) (fold_left (fun d t => dict_set (id t) (f t) d) tasks acc) ->
  In (k, v) acc \/ exists t, In t tasks /\ id t = k /\ f t = v.
Proof.
  revert acc. induction tasks as [|t ts IH]; intros acc; simpl; [tauto|].
  intros H. apply IH in H. destruct H as [H|(t' & ? & ? & ?)].
  - assert (Hs : forall d, In (k, v) (dict_set (id t) (f t) d) ->
                           In (k, v) d \/ (id t = k /\ f t = v)).
    { clear. induction d as [|[k0 v0] d IHd]; simpl.
      - intros [[= <- <-]|[]]; auto.
      - destruct (String.eqb_spec k0 (id t)); simpl.
        + intros [[= <- <-]|?]; auto.
        + intros [?|?]; auto. destruct (IHd H); auto. }
    destruct (Hs _ H) as [?|[? ?]]; [now left | right; exists t; auto].
  - right. exists t'. auto.
Qed.

Lemma fold_dict_set_NoDup {V : Type} (f : Task -> V) tasks acc :
  NoDup (dict_keys acc ++ map id tasks) ->
  fold_left (fun d t => dict_set (id t) (f t) d) tasks acc =
  acc ++ map (fun t => (id t, f t)) tasks.
Proof.
  revert acc. induction tasks as [|t ts IH]; intros acc H; simpl.
  - now rewrite app_nil_r.
  - assert (Hnotin : ~ In (id t) (dict_keys acc)).
    { intros Hin. apply NoDup_remove_2 in H. apply H.
      apply in_or_app. now left. }
    rewrite dict_set_absent by exact Hnotin.
    rewrite IH.
    + now rewrite <- app_assoc.
    + unfold dict_keys in *. rewrite map_app. simpl.
      rewrite <- app_assoc. exact H.
Qed.

Lemma build_task_dict_NoDup tasks :
  NoDup (map id tasks) -> build_task_dict tasks = map keyed tasks.
Proof.
  intros H. unfold build_task_dict.
  now rewrite (fold_dict_set_NoDup (fun t => t)).
Qed.

Lemma build_task_dict_keys_NoDup tasks : NoDup (dict_keys (build_task_dict tasks)).
Proof. apply fold_dict_set_keys_NoDup. constructor. Qed.

Lemma build_task_dict_keys_In tasks k :
  In k (dict_keys (build_task_dict tasks)) <-> In k (map id tasks).
Proof.
  unfold build_task_dict. rewrite fold_dict_set_keys_In. simpl. tauto.
Qed.

Lemma build_task_dict_values tasks k t :
  In (k, t) (build_task_dict tasks) -> In t tasks /\ id t = k.
Proof.
  intros H. apply (fold_dict_set_values (fun t => t)) in H.
  destruct H as [[]|(t' & ? & ? & ?)]. subst. auto.
Qed.

(** [adj] holds, under every key, the [depends_on] of the task that
    [task_dict] holds under that key. *)
Lemma build_adj_task_dict tasks :
  build_adj tasks =
  map (fun kv => (fst kv, depends_on (snd kv))) (build_task_dict tasks).
Proof.
  unfold build_adj, build_task_dict.
  assert (G : forall acc,
    fold_left (fun d t => dict_set (id t) (depends_on t) d) tasks
              (map (fun kv : string * Task => (fst kv, depends_on (snd kv))) acc) =
    map (fun kv => (fst kv, depends_on (snd kv)))
        (fold_left (fun d t => dict_set (id t) t d) tasks acc)).
  { induction tasks as [|t ts IH]; intros acc; simpl; [reflexivity|].
    rewrite <- IH. f_equal.
    clear. induction acc as [|[k0 v0] acc IHa]; simpl; [reflexivity|].
    destruct (String.eqb_spec k0 (id t)); simpl; [reflexivity|].
    now rewrite IHa. }
  exact (G []).
Qed.

Lemma adj_get_task_dict (d : dict Task) node :
  adj_get (map (fun kv => (fst kv, depends_on (snd kv))) d) node =
  match dict_get node d with Some t => depends_on t | None => [] end.
Proof.
  unfold adj_get.
  rewrite (dict_get_map (fun _ t => depends_on t)).
  now destruct (dict_get node d).
Qed.

(* ================================================================== *)
(** * The ready queue *)
(* ================================================================== *)

Lemma TaskStatus_eqb_eq a b : TaskStatus_eqb a b = true <-> a = b.
Proof. destruct a, b; simpl; split; congruence. Qed.

Lemma forallb_pointwise {A : Type} (f g : A -> bool) l :
  (forall a, f a = g a) -> forallb f l = forallb g l.
Proof.
  intros H. induction l as [|a l IH]; simpl; [reflexivity|].
  now rewrite H, IH.
Qed.

Lemma fold_check_dep d deps b acc :
  fold_left (check_dep d) deps (b, acc) =
  (b && forallb (dep_done d) deps,
   acc ++ filter (fun dep_id => negb (dep_done d dep_id)) deps).
Proof.
  revert b acc. induction deps as [|dep deps IH]; intros b acc; simpl.
  - now rewrite andb_true_r, app_nil_r.
  - unfold check_dep at 2, dep_done at 1 3. simpl.
    destruct (dict_get dep d) as [t|]; simpl.
    + destruct (TaskStatus_eqb (status t) DONE); simpl.
      * now rewrite IH.
      * rewrite IH. simpl. now rewrite andb_false_r, <- app_assoc.
    + rewrite IH. simpl. now rewrite andb_false_r, <- app_assoc.
Qed.

Lemma dep_done_same_status d d' :
  Forall2 same_status d d' -> forall dep_id, dep_done d dep_id = dep_done d' dep_id.
Proof.
  intros H dep_id. unfold dep_done.
  induction H as [|[k t] [k' t'] d d' [Hk Hs] _ IH]; simpl; [reflexivity|].
  simpl in Hk, Hs. subst k'.
  destruct (k =? dep_id)%string; [now rewrite Hs | exact IH].
Qed.

Lemma mark_task_status d t : status (mark_task d t) = status t.
Proof. unfold mark_task. now destruct (_ && _). Qed.

Lemma same_status_marked d0 pre suf :
  Forall2 same_status (map (mark_entry d0) pre ++ suf) (pre ++ suf).
Proof.
  apply Forall2_app.
  - induction pre as [|[k t] pre IH]; simpl; constructor; auto.
    split; simpl; [reflexivity | apply mark_task_status].
  - induction suf; constructor; auto. now split.
Qed.

Lemma mark_entry_keys d0 pre :
  dict_keys (map (mark_entry d0) pre) = dict_keys pre.
Proof. unfold dict_keys. now rewrite map_map. Qed.

Lemma ready_fold d0 :
  NoDup (dict_keys d0) ->
  forall suf pre ready,
    d0 = pre ++ suf ->
    fold_left ready_step (dict_keys suf) (map (mark_entry d0) pre ++ suf, ready) =
    (map (mark_entry d0) d0, ready ++ filter (ready_in d0) (dict_values suf)).
Proof.
  intros Hnd. induction suf as [|[k t] suf IH]; intros pre ready Hd0; simpl.
  - subst d0. now rewrite !app_nil_r.
  - assert (Hk : ~ In k (dict_keys (map (mark_entry d0) pre))).
    { rewrite mark_entry_keys. subst d0. unfold dict_keys in Hnd.
      rewrite map_app in Hnd. simpl in Hnd.
      apply NoDup_remove_2 in Hnd. intros Hin. apply Hnd.
      apply in_or_app. now left. }
    rewrite dict_get_middle by exact Hk.
    assert (Hdone : forall dep_id,
               dep_done (map (mark_entry d0) pre ++ (k, t) :: suf) dep_id =
               dep_done d0 dep_id).
    { intros dep_id. rewrite Hd0 at 2.
      apply dep_done_same_status, same_status_marked. }
    rewrite fold_check_dep.
    rewrite (forallb_pointwise _ _ _ Hdone). simpl.
    assert (Hblk : filter (fun dep_id => negb (dep_done
                      (map (mark_entry d0) pre ++ (k, t) :: suf) dep_id))
                     (depends_on t) = blocking_of d0 t).
    { unfold blocking_of. apply filter_ext. intros a. now rewrite Hdone. }
    rewrite Hblk.
    assert (IH' : forall ready',
      fold_left ready_step (dict_keys suf)
        (map (mark_entry d0) pre ++ (k, mark_task d0 t) :: suf, ready') =
      (map (mark_entry d0) d0,
       ready' ++ filter (ready_in d0) (dict_values suf))).
    { intros ready'. specialize (IH (pre ++ [(k, t)]) ready').
      replace (map (mark_entry d0) (pre ++ [(k, t)]) ++ suf)
        with (map (mark_entry d0) pre ++ (k, mark_task d0 t) :: suf) in IH
        by (rewrite map_app, <- app_assoc; reflexivity).
      apply IH. now rewrite Hd0, <- app_assoc. }
    unfold mark_task in IH'.
    assert (Hr : ready_in d0 t =
                 TaskStatus_eqb (status t) TODO &&
                 forallb (dep_done d0) (depends_on t)) by reflexivity.
    rewrite Hr.
    destruct (TaskStatus_eqb (status t) TODO) eqn:Etodo; simpl in *.
    + destruct (forallb (dep_done d0) (depends_on t)) eqn:Eall; simpl in *.
      * rewrite IH'. now rewrite <- app_assoc.
      * rewrite dict_set_middle by exact Hk. now rewrite IH'.
    + now rewrite IH'.
Qed.

Lemma ready_fold_all d0 :
  NoDup (dict_keys d0) ->
  fold_left ready_step (dict_keys d0) (d0, []) =
  (map (mark_entry d0) d0, filter (ready_in d0) (dict_values d0)).
Proof. intros Hnd. exact (ready_fold d0 Hnd d0 [] [] eq_refl). Qed.

Lemma get_ready_tasks_run_eq h s :
  let d0 := build_task_dict (load_all_tasks h s) in
  get_ready_tasks_run h s =
  (sort_by_key (filter (ready_in d0) (dict_values d0)),
   map (mark_entry d0) d0).
Proof.
  intros d0. unfold get_ready_tasks_run, _build_graph.
  cbv beta iota zeta. fold d0.
  rewrite ready_fold_all by apply build_task_dict_keys_NoDup.
  reflexivity.
Qed.

(* ================================================================== *)
(** * The sort of the ready queue *)
(* ================================================================== *)

Lemma string_ltb_lt a b : String.ltb a b = true <-> String_as_OT.lt a b.
Proof.
  unfold String.ltb. rewrite <- String_as_OT.cmp_lt. unfold String_as_OT.cmp.
  destruct (String.compare a b); split; congruence.
Qed.

Lemma string_leb_ltb a b : String.leb a b = negb (String.ltb b a).
Proof.
  unfold String.leb, String.ltb. rewrite (String.compare_antisym b a).
  now destruct (String.compare a b).
Qed.

Lemma string_leb_cases a b :
  String.leb a b = true <-> a = b \/ String_as_OT.lt a b.
Proof.
  rewrite <- String_as_OT.cmp_lt, <- String_as_OT.cmp_eq.
  unfold String.leb, String_as_OT.cmp.
  destruct (String.compare a b); split; try tauto; try congruence.
  intros [?|?]; discriminate.
Qed.

Lemma string_leb_trans a b c :
  String.leb a b = true -> String.leb b c = true -> String.leb a c = true.
Proof.
  rewrite !string_leb_cases.
  intros [->|H1] [->|H2]; auto.
  right. eapply String_as_OT.lt_trans; eauto.
Qed.

Lemma key_lt_false_iff a b :
  key_lt (sort_key b) (sort_key a) = false <-> queue_order a b.
Proof.
  unfold key_lt, sort_key, queue_order. simpl.
  rewrite string_leb_ltb.
  destruct (Z.ltb_spec (- priority b) (- priority a));
    destruct (Z.eqb_spec (- priority b) (- priority a)); simpl.
  - lia.
  - split; [discriminate | lia].
  - split.
    + intros ->. split; [lia | reflexivity].
    + intros [_ H']. rewrite negb_true_iff in H'. apply H'. lia.
  - split; [|reflexivity]. intros _. split; lia.
Qed.

Lemma key_lt_true_order a b :
  key_lt (sort_key a) (sort_key b) = true -> queue_order a b.
Proof.
  unfold key_lt, sort_key, queue_order. simpl.
  rewrite orb_true_iff, andb_true_iff, Z.ltb_lt, Z.eqb_eq.
  intros [H|[H1 H2]].
  - split; lia.
  - split; [lia|]. intros _.
    apply string_leb_cases. right. now apply string_ltb_lt.
Qed.

Lemma queue_order_trans a b c :
  queue_order a b -> queue_order b c -> queue_order a c.
Proof.
  unfold queue_order. intros [H1 H2] [H3 H4]. split; [lia|].
  intros E. eapply string_leb_trans; [apply H2 | apply H4]; lia.
Qed.

Lemma insert_by_key_perm x l : Permutation (insert_by_key x l) (x :: l).
Proof.
  induction l as [|y l IH]; simpl; [reflexivity|].
  destruct (key_lt (sort_key y) (sort_key x)); [|reflexivity].
  rewrite IH. apply perm_swap.
Qed.

Lemma sort_by_key_perm l : Permutation (sort_by_key l) l.
Proof.
  induction l as [|x l IH]; simpl; [reflexivity|].
  now rewrite insert_by_key_perm, IH.
Qed.

Lemma insert_by_key_sorted x l :
  StronglySorted queue_order l -> StronglySorted queue_order (insert_by_key x l).
Proof.
  induction 1 as [|y l Hs IH Hy]; simpl.
  - repeat constructor.
  - destruct (key_lt (sort_key y) (sort_key x)) eqn:E.
    + constructor; [exact IH|].
      rewrite Forall_forall in *. intros z Hz.
      apply (Permutation_in _ (insert_by_key_perm x l)) in Hz.
      destruct Hz as [<-|Hz]; [now apply key_lt_true_order | auto].
    + apply key_lt_false_iff in E.
      constructor; [now constructor|].
      constructor; [exact E|].
      rewrite Forall_forall in *. intros z Hz.
      eapply queue_order_trans; eauto.
Qed.

Lemma sort_by_key_sorted l : StronglySorted queue_order (sort_by_key l).
Proof.
  induction l as [|x l IH]; simpl; [constructor|].
  now apply insert_by_key_sorted.
Qed.

(* ================================================================== *)
(** * Readiness, ordering and [blocked_by] of the ready queue *)
(* ================================================================== *)

Lemma dict_values_keyed tasks : dict_values (map keyed tasks) = tasks.
Proof. unfold dict_values. rewrite map_map. simpl. apply map_id. Qed.

Lemma dict_get_keyed tasks k :
  dict_get k (map keyed tasks) = find (fun t => (id t =? k)%string) tasks.
Proof.
  induction tasks as [|t ts IH]; simpl; [reflexivity|].
  destruct (id t =? k)%string; [reflexivity | exact IH].
Qed.

Lemma dep_done_unique tasks dep_id :
  unique_ids tasks ->
  dep_done (map keyed tasks) dep_id =
  existsb (fun d => (id d =? dep_id)%string && TaskStatus_eqb (status d) DONE) tasks.
Proof.
  unfold dep_done, unique_ids. rewrite dict_get_keyed.
  induction tasks as [|t ts IH]; simpl; [reflexivity|].
  intros Hnd. inversion Hnd as [|? ? Hnotin Hnd']; subst.
  destruct (String.eqb_spec (id t) dep_id) as [E|E]; simpl.
  - destruct (TaskStatus_eqb (status t) DONE); simpl; [reflexivity|].
    symmetry. apply not_true_is_false. intros H.
    apply existsb_exists in H. destruct H as (d & Hd & H).
    apply andb_true_iff in H. destruct H as [H _].
    apply String.eqb_eq in H. apply Hnotin. rewrite E, <- H. now apply in_map.
  - now apply IH.
Qed.

Lemma ready_in_unique tasks t :
  unique_ids tasks -> ready_in (map keyed tasks) t = is_readyb tasks t.
Proof.
  intros H. unfold ready_in, is_readyb. f_equal.
  apply forallb_pointwise. intros dep_id. now apply dep_done_unique.
Qed.

Lemma is_readyb_spec tasks t : is_readyb tasks t = true <-> is_ready tasks t.
Proof.
  unfold is_readyb, is_ready.
  rewrite andb_true_iff, TaskStatus_eqb_eq, forallb_forall.
  split; intros [Hs Hd]; split; auto; intros dep_id Hin.
  - specialize (Hd _ Hin). apply existsb_exists in Hd.
    destruct Hd as (d & Hd & H). apply andb_true_iff in H.
    destruct H as [H1 H2]. apply String.eqb_eq in H1.
    apply TaskStatus_eqb_eq in H2. eauto.
  - destruct (Hd _ Hin) as (d & Hd1 & Hd2 & Hd3).
    apply existsb_exists. exists d. split; [exact Hd1|].
    apply andb_true_iff. split; [now apply String.eqb_eq | now apply TaskStatus_eqb_eq].
Qed.

Lemma list_ready_work_eq h s :
  let d0 := build_task_dict (load_all_tasks h s) in
  MissionControl.list_ready_work h s =
  sort_by_key (filter (ready_in d0) (dict_values d0)).
Proof.
  intros d0. unfold MissionControl.list_ready_work, get_ready_tasks.
  now rewrite get_ready_tasks_run_eq.
Qed.

(** C1. When the ids of the active tasks are unique, [list_ready_work]
    returns, up to order, exactly the active tasks that are ready: status
    [todo] and every id of [depends_on] naming an active task whose status is
    [done]. In particular a [todo] task with a dependency id that names no
    active task is not returned. *)
Theorem list_ready_work_exact (h : HashOracle) (s : TaskStorage) :
  unique_ids (load_all_tasks h s) ->
  let tasks := load_all_tasks h s in
  let ready := MissionControl.list_ready_work h s in
  Permutation ready (filter (is_readyb tasks) tasks) /\
  (forall t, In t ready <-> In t tasks /\ is_ready tasks t) /\
  (forall t dep_id,
      In t tasks -> status t = TODO -> In dep_id (depends_on t) ->
      MissionControl.get_task h s dep_id = None -> ~ In t ready).
Proof.
  intros Hu. cbv zeta.
  set (tasks := load_all_tasks h s) in *.
  set (ready := MissionControl.list_ready_work h s).
  assert (Hperm : Permutation ready (filter (is_readyb tasks) tasks)).
  { unfold ready. rewrite list_ready_work_eq. fold tasks.
    rewrite (build_task_dict_NoDup _ Hu), dict_values_keyed.
    rewrite sort_by_key_perm.
    erewrite filter_ext; [reflexivity|].
    intros t. now apply ready_in_unique. }
  assert (Hin : forall t, In t ready <-> In t tasks /\ is_ready tasks t).
  { intros t. rewrite <- is_readyb_spec, <- filter_In. split; intros H.
    - eapply Permutation_in; eauto.
    - eapply Permutation_in; [symmetry|]; eauto. }
  split; [exact Hperm|]. split; [exact Hin|].
  intros t dep_id Ht Hs Hdep Hnone Hr.
  apply Hin in Hr. destruct Hr as [_ [_ Hdeps]].
  destruct (Hdeps _ Hdep) as (d & Hd & Hid & _).
  unfold MissionControl.get_task, load_task in Hnone. fold tasks in Hnone.
  apply (find_none _ _ Hnone) in Hd. rewrite Hid, String.eqb_refl in Hd.
  discriminate.
Qed.

(** C5. The list returned by [list_ready_work] is sorted: priority is
    non-increasing and, among tasks of equal priority, [created_at] is
    non-decreasing. *)
Theorem list_ready_work_sorted (h : HashOracle) (s : TaskStorage) :
  StronglySorted queue_order (MissionControl.list_ready_work h s).
Proof.
  rewrite list_ready_work_eq. apply sort_by_key_sorted.
Qed.

(** A task of the ready queue is returned as it was loaded: the loop does
    not touch its [blocked_by]. *)
Lemma list_ready_work_as_loaded h s t :
  In t (MissionControl.list_ready_work h s) -> In t (load_all_tasks h s).
Proof.
  rewrite list_ready_work_eq. intros H.
  apply (Permutation_in _ (sort_by_key_perm _)) in H.
  apply filter_In in H. destruct H as [H _].
  unfold dict_values in H. apply in_map_iff in H.
  destruct H as ([k t'] & E & H). simpl in E. subst t'.
  now apply build_task_dict_values in H.
Qed.

(** X26. In [get_ready_tasks], a [todo] task that is not ready leaves the
    loop with [blocked_by] equal to its unfinished or missing dependencies,
    in [depends_on] order, and with nothing else changed; the assignment is
    made on the task objects of the call, which are not returned. *)
Lemma get_ready_tasks_blocked_by h s k t :
  let d0 := build_task_dict (load_all_tasks h s) in
  dict_get k d0 = Some t ->
  status t = TODO ->
  ready_in d0 t = false ->
  exists t',
    dict_get k (snd (get_ready_tasks_run h s)) = Some t' /\
    blocked_by t' =
      filter (fun dep_id => negb (dep_done d0 dep_id)) (depends_on t) /\
    t' = set_blocked_by (blocked_by t') t.
Proof.
  intros d0 Hget Hs Hr. rewrite get_ready_tasks_run_eq. fold d0. simpl.
  unfold mark_entry.
  rewrite (dict_get_map (fun _ v => mark_task d0 v)), Hget. simpl.
  eexists. split; [reflexivity|].
  unfold mark_task. unfold ready_in in Hr.
  apply TaskStatus_eqb_eq in Hs. rewrite Hs in *. simpl in *.
  rewrite Hr. simpl. split; reflexivity.
Qed.

(* ================================================================== *)
(** * The task store: upsert and round trip *)
(* ================================================================== *)

Lemma upsert_replace task pre old suf :
  id old = id task ->
  (forall x, In x pre -> id x <> id task) ->
  upsert task (pre ++ old :: suf) = pre ++ task :: suf.
Proof.
  intros Hold Hpre. induction pre as [|x pre IH]; simpl.
  - rewrite Hold, String.eqb_refl. reflexivity.
  - destruct (String.eqb_spec (id x) (id task)) as [E|E].
    + exfalso. apply (Hpre x); [now left | exact E].
    + rewrite IH; [reflexivity|]. intros y Hy. apply Hpre. now right.
Qed.

Lemma upsert_append task tasks :
  (forall x, In x tasks -> id x <> id task) ->
  upsert task tasks = tasks ++ [task].
Proof.
  intros H. induction tasks as [|x tasks IH]; simpl; [reflexivity|].
  destruct (String.eqb_spec (id x) (id task)) as [E|E].
  - exfalso. apply (H x); [now left | exact E].
  - rewrite IH; [reflexivity|]. intros y Hy. apply H. now right.
Qed.

Lemma find_upsert task tasks :
  find (fun t => (id t =? id task)%string) (upsert task tasks) = Some task.
Proof.
  induction tasks as [|x tasks IH]; simpl.
  - now rewrite String.eqb_refl.
  - destruct (id x =? id task)%string eqn:E; simpl.
    + now rewrite String.eqb_refl.
    + now rewrite E.
Qed.

Lemma upsert_In task tasks x :
  In x (upsert task tasks) -> x = task \/ In x tasks.
Proof.
  induction tasks as [|y tasks IH]; simpl.
  - intros [<-|[]]. now left.
  - destruct (id y =? id task)%string; simpl.
    + intros [<-|H]; auto.
    + intros [<-|H]; auto. destruct (IH H); auto.
Qed.

Lemma upsert_valid task tasks :
  Task_valid task -> Forall Task_valid tasks -> Forall Task_valid (upsert task tasks).
Proof.
  intros Ht Hl. rewrite Forall_forall in *. intros x Hx.
  destruct (upsert_In _ _ _ Hx) as [->|H]; auto.
Qed.

Lemma refresh_metadata_valid v t : Task_valid t -> Task_valid (refresh_metadata v t).
Proof. intros [H1 H2]. split; assumption. Qed.

Lemma load_all_tasks_all_valid h s : Forall Task_valid (load_all_tasks h s).
Proof. apply load_records_all_valid. Qed.

(** The file that [save_task] writes holds valid records only, so every
    later read returns it as it is. *)
Lemma save_task_reload v h h' s task :
  Task_valid task ->
  load_all_tasks h' (snd (save_task v h s task)) =
  upsert (refresh_metadata v task) (load_all_tasks h s).
Proof.
  intros Hv. unfold save_task. simpl. apply load_all_tasks_valid. simpl.
  apply upsert_valid; [now apply refresh_metadata_valid|].
  apply load_all_tasks_all_valid.
Qed.

(** C8. [save_task] is an upsert keyed by id on the tasks that the store
    reads from the active log, not on the lines of the log: when a task
    with the id of the saved task is read, the first such task is replaced
    in place and every other task that is read stays as it is and in its
    order; when none is read, the task is appended after them. What is
    written is this list, so a record that fails validation is not written
    back; when every record is valid the list is the log itself. The archive
    log is not touched. *)
Theorem save_task_upsert (v : Vca) (h : HashOracle) (s : TaskStorage)
  (task : Task) :
  let records := load_all_tasks h s in
  let saved := fst (save_task v h s task) in
  let s' := snd (save_task v h s task) in
  saved = refresh_metadata v task /\
  archive_file s' = archive_file s /\
  (Forall Task_valid (tasks_file s) -> records = tasks_file s) /\
  (forall r, In r (tasks_file s') -> r = saved \/ In r records /\ Task_valid r) /\
  upsert_on records task saved (tasks_file s').
Proof.
  cbv zeta. unfold save_task. simpl.
  split; [reflexivity|]. split; [reflexivity|].
  split; [apply load_all_tasks_valid|]. split; [|split].
  - intros r Hr. apply upsert_In in Hr. destruct Hr as [->|Hr]; [now left|].
    right. split; [exact Hr|].
    pose proof (load_all_tasks_all_valid h s) as Hv.
    rewrite Forall_forall in Hv. now apply Hv.
  - intros pre old suf -> Hold Hpre. now apply upsert_replace.
  - intros Hnone. now apply upsert_append.
Qed.

(** On a log whose records are all valid, the records read are the lines of
    the file. *)
Lemma save_task_upsert_file v h s task :
  Forall Task_valid (tasks_file s) ->
  tasks_file (snd (save_task v h s task)) =
  upsert (refresh_metadata v task) (tasks_file s).
Proof.
  intros H. unfold save_task. simpl. now rewrite load_all_tasks_valid.
Qed.

(** C4. Round trip: after [save_task] of a valid task, [load_task] on its
    id returns a task that agrees with it on every field except
    [metadata.branch], [metadata.commit_hash] and [metadata.updated_at],
    which carry the values refreshed by the save; [metadata.created_at] is
    unchanged. *)
Theorem save_load_round_trip (v : Vca) (h h' : HashOracle) (s : TaskStorage)
  (task : Task) :
  Task_valid task ->
  exists loaded,
    load_task h' (snd (save_task v h s task)) (id task) = Some loaded /\
    loaded = fst (save_task v h s task) /\
    id loaded = id task /\
    title loaded = title task /\
    description loaded = description task /\
    status loaded = status task /\
    depends_on loaded = depends_on task /\
    blocked_by loaded = blocked_by task /\
    tags loaded = tags task /\
    priority loaded = priority task /\
    created_at (metadata loaded) = created_at (metadata task) /\
    branch (metadata loaded) = get_current_branch v /\
    commit_hash (metadata loaded) = get_current_commit v /\
    updated_at (metadata loaded) = now_isoformat v.
Proof.
  intros Hv. exists (refresh_metadata v task). split.
  - unfold load_task. rewrite save_task_reload by exact Hv.
    exact (find_upsert (refresh_metadata v task) _).
  - repeat split; reflexivity.
Qed.

(* ================================================================== *)
(** * Requests for an id outside the active set *)
(* ================================================================== *)

Lemma load_task_None_keys h s task_id :
  load_task h s task_id = None ->
  ~ In task_id (dict_keys (build_task_dict (load_all_tasks h s))).
Proof.
  unfold load_task. intros Hnone Hin.
  apply build_task_dict_keys_In in Hin. apply in_map_iff in Hin.
  destruct Hin as (t & Hid & Ht).
  apply (find_none _ _ Hnone) in Ht. rewrite Hid, String.eqb_refl in Ht.
  discriminate.
Qed.

(** C10. For an id that no active task carries, [get_task_chain] returns
    the empty list: it does not raise, and the id is not an element. *)
Theorem get_task_chain_unknown_id (set_iter : list string -> list string)
  (h : HashOracle) (s : TaskStorage) (task_id : string) :
  MissionControl.get_task h s task_id = None ->
  MissionControl.get_task_chain set_iter h s task_id = Ok [].
Proof.
  intros Hnone.
  unfold MissionControl.get_task_chain, get_dependency_chain, _build_graph.
  unfold dependency_chain_graph.
  apply load_task_None_keys, dict_mem_false in Hnone.
  now rewrite Hnone.
Qed.

(* ================================================================== *)
(** * Dependents, auto-archive and the delete guard *)
(* ================================================================== *)

Lemma build_adj_dep_view tasks acc :
  fold_left (fun d t => dict_set (id t) (depends_on t) d) tasks acc =
  fold_left (fun d p => dict_set (fst p) (snd p) d) (map dep_view tasks) acc.
Proof.
  revert acc. induction tasks as [|t ts IH]; intros acc; simpl; [reflexivity|].
  apply IH.
Qed.

Lemma build_adj_ext tasks tasks' :
  map dep_view tasks = map dep_view tasks' -> build_adj tasks = build_adj tasks'.
Proof.
  intros H. unfold build_adj. now rewrite !build_adj_dep_view, H.
Qed.

Lemma dep_view_upsert task t tasks :
  find (fun x => (id x =? id task)%string) tasks = Some t ->
  depends_on task = depends_on t ->
  map dep_view (upsert task tasks) = map dep_view tasks.
Proof.
  intros Hfind Hdeps. induction tasks as [|x tasks IH]; simpl in *.
  - discriminate.
  - destruct (String.eqb_spec (id x) (id task)) as [E|E]; simpl.
    + injection Hfind as ->. unfold dep_view. now rewrite E, Hdeps.
    + now rewrite IH.
Qed.

Lemma filter_map_nil {A B : Type} (f : B -> bool) (g : A -> B) l :
  filter (fun a => f (g a)) l = [] <-> filter f (map g l) = [].
Proof.
  induction l as [|a l IH]; simpl; [tauto|].
  destruct (f (g a)); [split; discriminate | exact IH].
Qed.

Lemma get_dependents_nil h s task_id :
  get_dependents h s task_id = [] <->
  filter (str_mem task_id) (dict_values (build_adj (load_all_tasks h s))) = [].
Proof.
  unfold get_dependents, _build_graph.
  rewrite build_adj_task_dict. unfold dict_values at 2. rewrite map_map.
  simpl. rewrite (filter_map_nil (str_mem task_id) depends_on).
  unfold dict_values. now rewrite map_map.
Qed.

Lemma filter_length_lt {A : Type} (f : A -> bool) l x :
  In x l -> f x = false -> List.length (filter f l) < List.length l.
Proof.
  induction l as [|a l IH]; simpl; [tauto|].
  intros [->|Hin] Hx.
  - rewrite Hx. pose proof (filter_length_le f l). lia.
  - specialize (IH Hin Hx). destruct (f a); simpl; lia.
Qed.

Lemma find_filter_other task_id (tasks : list Task) :
  find (fun t => (id t =? task_id)%string)
       (filter (fun t => negb (id t =? task_id)%string) tasks) = None.
Proof.
  induction tasks as [|x tasks IH]; simpl; [reflexivity|].
  destruct (id x =? task_id)%string eqn:E; simpl; [exact IH|].
  now rewrite E.
Qed.

Lemma filter_valid (f : Task -> bool) tasks :
  Forall Task_valid tasks -> Forall Task_valid (filter f tasks).
Proof.
  rewrite !Forall_forall. intros H x Hx. apply filter_In in Hx. now apply H.
Qed.

(** Deleting an id that the store reads removes every record of that id
    and reports [True]. *)
Lemma delete_task_present h s task_id t :
  load_task h s task_id = Some t ->
  delete_task h s task_id =
  (true,
   mkTaskStorage
     (filter (fun t => negb (id t =? task_id)%string) (load_all_tasks h s))
     (archive_file s)).
Proof.
  unfold load_task, delete_task. intros Hfind.
  apply find_some in Hfind. destruct Hfind as [Hin Hid].
  assert (Hlt : List.length (filter (fun t => negb (id t =? task_id)%string)
                                    (load_all_tasks h s))
                < List.length (load_all_tasks h s)).
  { apply (filter_length_lt _ _ t Hin). now rewrite Hid. }
  apply Nat.ltb_lt in Hlt. now rewrite Hlt.
Qed.

Lemma load_task_after_delete h h' s task_id :
  load_task h'
    (mkTaskStorage
       (filter (fun t => negb (id t =? task_id)%string) (load_all_tasks h s))
       (archive_file s)) task_id = None.
Proof.
  unfold load_task. rewrite load_all_tasks_valid.
  - apply find_filter_other.
  - simpl. apply filter_valid, load_all_tasks_all_valid.
Qed.

(** Auto-archive in terms of what [get_task_impact] returns at the moment
    of the call, on a store whose records all carry an id: the task is
    absent afterwards exactly when that list was empty, and its record is
    then appended to the archive log; otherwise it remains active with
    status [done] and the archive log is unchanged. *)
Lemma update_task_status_archives_by_impact (v : Vca) (hs : nat -> HashOracle)
  (h h' : HashOracle) (s : TaskStorage) (task_id : string) (t : Task) :
  records_have_ids s ->
  MissionControl.get_task h s task_id = Some t ->
  let result := MissionControl.update_task_status v hs s task_id DONE true in
  let s' := snd result in
  let done := refresh_metadata v (set_status DONE t) in
  fst result = Some done /\
  (MissionControl.get_task h' s' task_id = None <->
   MissionControl.get_task_impact h s task_id = []) /\
  (MissionControl.get_task_impact h s task_id = [] ->
   archive_file s' = archive_file s ++ [done]) /\
  (MissionControl.get_task_impact h s task_id <> [] ->
   MissionControl.get_task h' s' task_id = Some done /\
   status done = DONE /\
   archive_file s' = archive_file s).
Proof.
  intros Hids Hget. cbv zeta.
  unfold MissionControl.get_task, MissionControl.get_task_impact in *.
  unfold MissionControl.update_task_status.
  set (active := filter priority_ok (tasks_file s)).
  assert (Hload : forall g, load_all_tasks g s = active)
    by (intros g; now apply load_records_ids).
  assert (Hvalid : Forall Task_valid active)
    by (rewrite <- (Hload h); apply load_all_tasks_all_valid).
  assert (Hfind : find (fun x => (id x =? task_id)%string) active = Some t)
    by (unfold load_task in Hget; now rewrite Hload in Hget).
  assert (Hl0 : load_task (hs 0) s task_id = Some t)
    by (unfold load_task; now rewrite Hload).
  rewrite Hl0.
  destruct (find_some _ _ Hfind) as [Hin Hid]. apply String.eqb_eq in Hid.
  set (done := refresh_metadata v (set_status DONE t)).
  assert (Hdv : Task_valid (set_status DONE t)).
  { rewrite Forall_forall in Hvalid. destruct (Hvalid _ Hin). now split. }
  assert (Hid' : id done = task_id) by exact Hid.
  unfold save_task. rewrite Hload. fold done. cbv beta iota zeta.
  set (s1 := mkTaskStorage (upsert done active) (archive_file s)).
  assert (Hv1 : Forall Task_valid (tasks_file s1)).
  { simpl. apply upsert_valid; [now apply refresh_metadata_valid | exact Hvalid]. }
  assert (Hload1 : forall g, load_all_tasks g s1 = upsert done active)
    by (intros g; now apply load_all_tasks_valid).
  assert (Hl1 : forall g, load_task g s1 task_id = Some done).
  { intros g. unfold load_task. rewrite Hload1, <- Hid'. apply find_upsert. }
  assert (Hdeps : get_dependents (hs 2) s1 task_id = [] <->
                  get_dependents h s task_id = []).
  { rewrite !get_dependents_nil, Hload1, Hload.
    rewrite (build_adj_ext (upsert done active) active); [reflexivity|].
    apply dep_view_upsert with (t := t); [now rewrite Hid' | reflexivity]. }
  simpl andb. cbv iota.
  destruct (get_dependents (hs 2) s1 task_id) as [|d ds] eqn:Edep.
  - assert (Hnil : get_dependents h s task_id = []) by now apply Hdeps.
    unfold archive_task. rewrite Hl1.
    erewrite delete_task_present
      by (unfold load_task; rewrite load_all_tasks_valid by exact Hv1;
          simpl; rewrite <- Hid'; apply find_upsert).
    simpl.
    assert (Habs : load_task h'
      (mkTaskStorage
         (filter (fun t0 => negb (id t0 =? task_id)%string)
            (load_all_tasks (hs 4)
               (mkTaskStorage (upsert done active)
                              (archive_file s ++ [done]))))
         (archive_file s ++ [done])) task_id = None).
    { exact (load_task_after_delete (hs 4) h'
               (mkTaskStorage (upsert done active)
                              (archive_file s ++ [done])) task_id). }
    split; [reflexivity|]. split; [tauto|]. split; [reflexivity|].
    intros Hne. contradiction.
  - assert (Hne : get_dependents h s task_id <> []).
    { intros Hnil. apply Hdeps in Hnil. discriminate. }
    simpl. rewrite Hl1.
    split; [reflexivity|]. split.
    + split; [discriminate | contradiction].
    + split; [contradiction|]. intros _. repeat split; reflexivity.
Qed.

(** The delete guard in terms of what [get_task_impact] returns: when that
    list is not empty the handler answers [success: false] with the list
    and leaves the store as it is, while [MissionControl.delete_task] on the
    same id returns [True] and removes the task. *)
Lemma delete_guard_by_impact (h1 h2 h h' : HashOracle)
  (s : TaskStorage) (task_id : string) (t : Task) :
  MissionControl.get_task h s task_id = Some t ->
  MissionControl.get_task_impact h1 s task_id <> [] ->
  let dependents := MissionControl.get_task_impact h1 s task_id in
  handle_delete_task h1 h2 s task_id =
    (JObject
       [("success"%string, JBool false);
        ("error"%string,
         JString ("Cannot delete task " ++ task_id ++ " - "
                  ++ str_of_nat (List.length dependents)
                  ++ " task(s) depend on it")%string);
        ("dependent_tasks"%string, JList (map dependent_entry dependents))],
     s) /\
  fst (MissionControl.delete_task h s task_id) = true /\
  MissionControl.get_task h' (snd (MissionControl.delete_task h s task_id))
                          task_id = None /\
  tasks_file (snd (MissionControl.delete_task h s task_id)) =
    filter (fun x => negb (id x =? task_id)%string) (load_all_tasks h s) /\
  archive_file (snd (MissionControl.delete_task h s task_id)) = archive_file s.
Proof.
  intros Hget Hdeps. cbv zeta. split.
  - unfold handle_delete_task.
    destruct (MissionControl.get_task_impact h1 s task_id) as [|d ds];
      [contradiction | reflexivity].
  - unfold MissionControl.delete_task, MissionControl.get_task in *.
    rewrite (delete_task_present h s task_id t Hget). simpl.
    split; [reflexivity|]. split; [apply load_task_after_delete|].
    split; reflexivity.
Qed.

(* ================================================================== *)
(** * The dependency chain *)
(* ================================================================== *)

Lemma chain_topo_app d seen a b :
  chain_topo d seen (a ++ b) <->
  chain_topo d seen a /\ chain_topo d (seen ++ map id a) b.
Proof.
  revert seen. induction a as [|t a IH]; intros seen; simpl.
  - rewrite app_nil_r. tauto.
  - rewrite IH, <- app_assoc. simpl. tauto.
Qed.

Lemma chain_topo_split d seen l1 t l2 dep_id :
  chain_topo d seen (l1 ++ t :: l2) ->
  In dep_id (depends_on t) -> In dep_id (dict_keys d) ->
  In dep_id (seen ++ map id l1).
Proof.
  rewrite chain_topo_app. simpl. intros [_ [H _]]. apply H.
Qed.

Lemma unvisited_keys_mono (ks V V' : list string) :
  (forall x, In x V -> In x V') ->
  List.length (filter (fun k => negb (str_mem k V')) ks) <=
  List.length (filter (fun k => negb (str_mem k V)) ks).
Proof.
  intros H. induction ks as [|k ks IH]; simpl; [lia|].
  destruct (str_mem k V) eqn:E; simpl.
  - apply str_mem_In, H, str_mem_In in E. rewrite E. simpl. exact IH.
  - destruct (str_mem k V'); simpl; lia.
Qed.

Lemma unvisited_keys_add (ks V : list string) n :
  In n ks -> ~ In n V ->
  List.length (filter (fun k => negb (str_mem k (n :: V))) ks) <
  List.length (filter (fun k => negb (str_mem k V)) ks).
Proof.
  intros Hk Hn. induction ks as [|k ks IH]; simpl in Hk; [tauto|].
  pose proof (unvisited_keys_mono ks V (n :: V) (fun x Hx => or_intror Hx)) as Hle.
  cbn [filter].
  destruct (String.eqb_spec k n) as [->|Hne].
  - assert (E1 : str_mem n (n :: V) = true) by (apply str_mem_In; now left).
    apply str_mem_false in Hn. rewrite E1, Hn. cbn [negb List.length]. lia.
  - destruct Hk as [Hk|Hk]; [contradiction|]. specialize (IH Hk).
    assert (E : str_mem k (n :: V) = str_mem k V).
    { unfold str_mem. simpl. destruct (String.eqb_spec k n); [contradiction|].
      reflexivity. }
    rewrite E. destruct (str_mem k V); cbn [negb List.length]; lia.
Qed.

Lemma unvisited_mono d V V' :
  (forall x, In x V -> In x V') -> unvisited d V' <= unvisited d V.
Proof. apply unvisited_keys_mono. Qed.

Lemma unvisited_add d V n :
  In n (dict_keys d) -> ~ In n V -> unvisited d (n :: V) < unvisited d V.
Proof. apply unvisited_keys_add. Qed.

Lemma chain_loop_nil set_iter d adj f st :
  chain_loop set_iter d adj f [] st = Ok st.
Proof. reflexivity. Qed.

Lemma chain_loop_cons set_iter d adj f dep_id rest st :
  chain_loop set_iter d adj f (dep_id :: rest) st =
  if dict_mem dep_id d then
    match chain_dfs set_iter d adj f dep_id st with
    | Ok st' => chain_loop set_iter d adj f rest st'
    | other => other
    end
  else chain_loop set_iter d adj f rest st.
Proof. reflexivity. Qed.

Lemma chain_dfs_unfold set_iter d adj f node st :
  chain_dfs set_iter d adj (S f) node st =
  if str_mem node (fst st) then Ok st
  else
    match chain_loop set_iter d adj f (set_iter (adj_get adj node))
                     (node :: fst st, snd st) with
    | Ok (visited, chain) =>
        match dict_get node d with
        | Some task => Ok (visited, chain ++ [task])
        | None => Raise KeyError
        end
    | other => other
    end.
Proof. reflexivity. Qed.

Lemma NoDup_app_disjoint {A : Type} (l l' : list A) :
  NoDup l -> NoDup l' -> (forall a, In a l -> ~ In a l') -> NoDup (l ++ l').
Proof.
  intros Hl Hl' Hd. induction Hl as [|a l Ha Hl IH]; simpl; [exact Hl'|].
  constructor.
  - rewrite in_app_iff. intros [H|H]; [contradiction|].
    apply (Hd a); [now left | exact H].
  - apply IH. intros b Hb. apply Hd. now right.
Qed.

Section ChainFacts.
Variable set_iter : list string -> list string.
Hypothesis set_iter_In : forall l x, In x (set_iter l) <-> In x l.
Variable d : dict Task.
Hypothesis d_ids : forall k t, dict_get k d = Some t -> id t = k.


Lemma chain_props_nil n V C : chain_props d n V C V [].
Proof.
  unfold chain_props. simpl. split; [tauto|]. split; [tauto|].
  split; [constructor|]. split; [tauto | exact I].
Qed.

Lemma chain_props_app m n V C V1 C2a V2 C2b :
  clos_refl_trans string (dict_edge d) n m ->
  chain_props d m V C V1 C2a ->
  chain_props d n V1 (C ++ C2a) V2 C2b ->
  chain_props d n V C V2 (C2a ++ C2b).
Proof.
  intros Hnm (Ha1 & Ha2 & Ha3 & Ha4 & Ha5) (Hb1 & Hb2 & Hb3 & Hb4 & Hb5).
  unfold chain_props. rewrite map_app. repeat split.
  - rewrite Hb1, Ha1, in_app_iff. tauto.
  - rewrite Hb1, Ha1, in_app_iff. tauto.
  - intros x Hx. apply in_app_iff in Hx. destruct Hx as [Hx|Hx].
    + now apply Ha2.
    + intros HV. apply (Hb2 x Hx). apply Ha1. now left.
  - apply NoDup_app_disjoint; auto.
    intros x Hx Hx'. apply (Hb2 x Hx'). apply Ha1. now right.
  - apply in_app_iff in H. destruct H as [H|H]; [now apply Ha4 | now apply Hb4].
  - apply in_app_iff in H. destruct H as [H|H].
    + eapply rt_trans; [exact Hnm | now apply Ha4].
    + now apply Hb4.
  - apply chain_topo_app. split; [exact Ha5|].
    rewrite map_app in Hb5. exact Hb5.
Qed.

Lemma chain_loop_spec f n :
  chain_dfs_ok set_iter d f ->
  forall deps V C,
    (forall dep_id, In dep_id deps -> In dep_id (dict_keys d) ->
                    dict_edge d n dep_id) ->
    unvisited d V < f -> chain_pre d n V C ->
    exists V' C2,
      chain_loop set_iter d (adj_of d) f deps (V, C) = Ok (V', C ++ C2) /\
      chain_props d n V C V' C2 /\
      (forall dep_id, In dep_id deps -> In dep_id (dict_keys d) ->
                      In dep_id V').
Proof.
  intros IHf. induction deps as [|dep rest IH]; intros V C Hedge Hfuel Hpre.
  - exists V, []. rewrite chain_loop_nil, app_nil_r.
    split; [reflexivity|]. split; [apply chain_props_nil|]. intros ? [].
  - rewrite chain_loop_cons. destruct (dict_mem dep d) eqn:Emem.
    + apply dict_mem_true in Emem.
      assert (Hnd : dict_edge d n dep) by (apply Hedge; [now left | exact Emem]).
      destruct Hpre as [Hstack Hacyc].
      destruct (IHf dep V C Emem Hfuel) as (V1 & C2a & E1 & P1 & Hdep & _).
      { split.
        - intros x Hx Hx'. eapply rt_trans; [now apply Hstack|].
          now apply rt_step.
        - intros m Hm. apply Hacyc. eapply rt_trans; [|exact Hm].
          now apply rt_step. }
      rewrite E1.
      assert (HV1 : forall x, In x V -> In x V1).
      { intros x Hx. destruct P1 as [P1 _]. apply P1. now left. }
      destruct (IH V1 (C ++ C2a)) as (V2 & C2b & E2 & P2 & Hrest).
      { intros dep' Hin. apply Hedge. now right. }
      { pose proof (unvisited_mono d V V1 HV1). lia. }
      { split; [|exact Hacyc].
        intros x Hx Hx'. apply Hstack.
        - destruct P1 as [P1 _]. apply P1 in Hx. destruct Hx as [Hx|Hx]; [exact Hx|].
          exfalso. apply Hx'. rewrite map_app, in_app_iff. now right.
        - intros HxC. apply Hx'. rewrite map_app, in_app_iff. now left. }
      exists V2, (C2a ++ C2b). rewrite E2, app_assoc.
      split; [reflexivity|]. split.
      * eapply chain_props_app; eauto. now apply rt_step.
      * intros dep' [<-|Hin] Hk.
        -- destruct P2 as [P2 _]. apply P2. now left.
        -- now apply Hrest.
    + apply dict_mem_false in Emem.
      destruct (IH V C) as (V2 & C2b & E2 & P2 & Hrest); auto.
      { intros dep' Hin. apply Hedge. now right. }
      exists V2, C2b. split; [exact E2|]. split; [exact P2|].
      intros dep' [<-|Hin] Hk; [contradiction | now apply Hrest].
Qed.

Lemma chain_dfs_spec f : chain_dfs_ok set_iter d f.
Proof.
  induction f as [|f IHf]; intros node V C Hk Hfuel Hpre.
  - lia.
  - rewrite chain_dfs_unfold. cbn [fst snd].
    destruct (str_mem node V) eqn:Emem.
    + apply str_mem_In in Emem. exists V, []. rewrite app_nil_r.
      split; [reflexivity|]. split; [apply chain_props_nil|].
      split; [exact Emem|]. intros Hn. contradiction.
    + apply str_mem_false in Emem.
      destruct (dict_get node d) as [tn|] eqn:Eget;
        [|apply dict_get_None in Eget; contradiction].
      assert (Hadj : adj_get (adj_of d) node = depends_on tn).
      { unfold adj_of. rewrite adj_get_task_dict, Eget. reflexivity. }
      rewrite Hadj.
      assert (Hedge : forall dep_id, In dep_id (depends_on tn) ->
                        In dep_id (dict_keys d) -> dict_edge d node dep_id).
      { intros dep_id Hin Hkk. exists tn. auto. }
      destruct Hpre as [Hstack Hacyc].
      destruct (chain_loop_spec f node IHf (set_iter (depends_on tn))
                                (node :: V) C)
        as (V1 & C2' & E & P & Hdeps).
      { intros dep_id Hin Hkk. apply Hedge; [now apply set_iter_In | exact Hkk]. }
      { pose proof (unvisited_add d V node Hk Emem). lia. }
      { split; [|exact Hacyc].
        intros x [<-|Hx] Hx'; [apply rt_refl | now apply Hstack]. }
      rewrite E. exists V1, (C2' ++ [tn]). rewrite app_assoc.
      split; [reflexivity|].
      assert (Hidn : id tn = node) by (now apply d_ids).
      destruct P as (P1 & P2 & P3 & P4 & P5).
      split; [|split].
      * unfold chain_props. rewrite map_app. simpl. rewrite Hidn.
        split; [|split; [|split; [|split]]].
        -- intros x. rewrite P1, in_app_iff. simpl. tauto.
        -- intros x Hx. apply in_app_iff in Hx. destruct Hx as [Hx|[<-|[]]].
           ++ intros HV. apply (P2 x Hx). now right.
           ++ exact Emem.
        -- apply NoDup_app_disjoint; [exact P3 | repeat constructor; tauto |].
           intros a Ha [<-|[]]. apply (P2 node Ha). now left.
        -- intros t Ht. apply in_app_iff in Ht. destruct Ht as [Ht|[<-|[]]].
           ++ now apply P4.
           ++ rewrite Hidn. split; [exact Eget | apply rt_refl].
        -- apply chain_topo_app. split; [exact P5|]. simpl. split; [|exact I].
           intros dep_id Hdep Hkk.
           destruct (in_dec string_dec dep_id (map id C ++ map id C2'))
             as [Hyes|Hnot]; [exact Hyes|]. exfalso.
           assert (HV1 : In dep_id V1)
             by (apply Hdeps; [now apply set_iter_In | exact Hkk]).
           assert (Hreach : clos_refl_trans string (dict_edge d) dep_id node).
           { apply P1 in HV1. destruct HV1 as [[<-|HV]|HC2].
             - apply rt_refl.
             - apply Hstack; [exact HV|]. intros HC. apply Hnot.
               apply in_app_iff. now left.
             - exfalso. apply Hnot. apply in_app_iff. now right. }
           apply (Hacyc dep_id).
           ++ apply rt_step. now apply Hedge.
           ++ eapply clos_rt_t; [exact Hreach|]. apply t_step. now apply Hedge.
      * apply P1. left. now left.
      * intros _. exists C2', tn. split; reflexivity.
Qed.

Lemma dependency_chain_graph_spec X :
  In X (dict_keys d) ->
  (forall m, clos_refl_trans string (dict_edge d) X m ->
             ~ clos_trans string (dict_edge d) m m) ->
  exists chain,
    dependency_chain_graph set_iter d (adj_of d) X = Ok chain /\
    NoDup (map id chain) /\
    (forall t, In t chain <->
               dict_get (id t) d = Some t /\
               clos_refl_trans string (dict_edge d) X (id t)) /\
    (exists front tX, chain = front ++ [tX] /\ dict_get X d = Some tX) /\
    chain_topo d [] chain.
Proof.
  intros Hk Hacyc. unfold dependency_chain_graph.
  assert (Hmem : dict_mem X d = true) by now apply dict_mem_true.
  rewrite Hmem. simpl negb. cbv iota.
  destruct (chain_dfs_spec (S (List.length d)) X [] []) as (V' & C2 & E & P & HX & Hlast).
  { exact Hk. }
  { unfold unvisited.
    pose proof (filter_length_le (fun k => negb (str_mem k [])) (dict_keys d)) as Hle.
    unfold dict_keys in *. rewrite length_map in Hle. lia. }
  { split; [intros x []|exact Hacyc]. }
  rewrite E. simpl. exists C2.
  destruct P as (P1 & P2 & P3 & P4 & P5). simpl in P5.
  assert (Hclosed : forall m, clos_refl_trans string (dict_edge d) X m ->
                              In m (map id C2)).
  { intros m Hm. apply clos_rt_rtn1 in Hm. induction Hm as [|y z Hyz Hxy IH].
    - apply P1 in HX. destruct HX as [[]|HX]. exact HX.
    - destruct Hyz as (t & Hget & Hz & Hzk).
      apply in_map_iff in IH. destruct IH as (t' & Hid & Ht').
      destruct (P4 t' Ht') as [Hget' _]. rewrite Hid, Hget in Hget'.
      injection Hget' as ->.
      destruct (in_split _ _ Ht') as (l1 & l2 & ->).
      pose proof (chain_topo_split d [] l1 t' l2 z P5 Hz Hzk) as Hin.
      simpl in Hin. rewrite map_app, in_app_iff. now left. }
  split; [reflexivity|]. split; [exact P3|]. split; [|split].
  - intros t. split; [apply P4|]. intros [Hget Hreach].
    apply Hclosed, in_map_iff in Hreach. destruct Hreach as (t' & Hid & Ht').
    destruct (P4 t' Ht') as [Hget' _]. rewrite Hid, Hget in Hget'.
    injection Hget' as ->. exact Ht'.
  - apply Hlast. intros [].
  - exact P5.
Qed.
End ChainFacts.

(** The graph of a dictionary built from tasks of unique ids is the graph
    of the task list. *)

Lemma find_unique tasks t :
  unique_ids tasks -> In t tasks ->
  find (fun x => (id x =? id t)%string) tasks = Some t.
Proof.
  unfold unique_ids. induction tasks as [|x tasks IH]; simpl; [tauto|].
  intros Hnd [->|Hin].
  - now rewrite String.eqb_refl.
  - inversion Hnd as [|? ? Hnotin Hnd']; subst.
    destruct (String.eqb_spec (id x) (id t)) as [E|E].
    + exfalso. apply Hnotin. rewrite E. now apply in_map.
    + now apply IH.
Qed.

Lemma dict_get_keyed_unique tasks t :
  unique_ids tasks ->
  (dict_get (id t) (map keyed tasks) = Some t <-> In t tasks).
Proof.
  intros Hu. rewrite dict_get_keyed. split.
  - intros H. apply find_some in H. tauto.
  - now apply find_unique.
Qed.

Lemma dict_keys_keyed tasks : dict_keys (map keyed tasks) = map id tasks.
Proof. unfold dict_keys. now rewrite map_map. Qed.

Lemma dict_edge_keyed tasks a b :
  unique_ids tasks ->
  (dict_edge (map keyed tasks) a b <-> depends_edge tasks a b).
Proof.
  intros Hu. unfold dict_edge, depends_edge. rewrite dict_keys_keyed.
  split.
  - intros (t & Hget & Hb & Hk). exists t.
    rewrite dict_get_keyed in Hget. apply find_some in Hget.
    destruct Hget as [Hin Hid]. apply String.eqb_eq in Hid. auto.
  - intros (t & Hin & Hid & Hb & Hk). exists t. subst a.
    split; [now apply dict_get_keyed_unique | auto].
Qed.

Lemma clos_refl_trans_equiv {A : Type} (R R' : A -> A -> Prop) :
  (forall a b, R a b <-> R' a b) ->
  forall a b, clos_refl_trans A R a b <-> clos_refl_trans A R' a b.
Proof.
  intros H a b. split; induction 1;
    try (apply rt_step; now apply H); try apply rt_refl;
    eapply rt_trans; eauto.
Qed.

Lemma clos_trans_equiv {A : Type} (R R' : A -> A -> Prop) :
  (forall a b, R a b <-> R' a b) ->
  forall a b, clos_trans A R a b <-> clos_trans A R' a b.
Proof.
  intros H a b. split; induction 1;
    try (apply t_step; now apply H); eapply t_trans; eauto.
Qed.

Lemma build_task_dict_ids tasks k t :
  dict_get k (build_task_dict tasks) = Some t -> id t = k.
Proof.
  intros H. apply dict_get_Some_In in H.
  now apply build_task_dict_values in H.
Qed.

Lemma get_dependency_chain_eq set_iter h s task_id :
  get_dependency_chain set_iter h s task_id =
  let d := build_task_dict (load_all_tasks h s) in
  dependency_chain_graph set_iter d (adj_of d) task_id.
Proof.
  unfold get_dependency_chain, _build_graph.
  now rewrite build_adj_task_dict.
Qed.

(** C7. When the ids of the active tasks are unique and no dependency cycle
    is reachable from an active id [X], [get_task_chain(X)] lists each task
    reachable from [X] via [depends_on] exactly once, the task of id [X] is
    the last element, and every active dependency of a listed task appears
    in the list before that task. *)
Theorem get_task_chain_topological (set_iter : list string -> list string)
  (h : HashOracle) (s : TaskStorage) (X : string) :
  set_iter_ok set_iter ->
  unique_ids (load_all_tasks h s) ->
  In X (map id (load_all_tasks h s)) ->
  (forall n, reachable (load_all_tasks h s) X n ->
             ~ on_cycle (load_all_tasks h s) n) ->
  let tasks := load_all_tasks h s in
  exists chain,
    MissionControl.get_task_chain set_iter h s X = Ok chain /\
    NoDup (map id chain) /\
    (forall t, In t chain <-> In t tasks /\ reachable tasks X (id t)) /\
    (exists front tX, chain = front ++ [tX] /\ id tX = X) /\
    (forall front t back dep_id,
        chain = front ++ t :: back ->
        In dep_id (depends_on t) -> In dep_id (map id tasks) ->
        In dep_id (map id front)).
Proof.
  intros Hiter Hu HX Hacyc tasks. fold tasks in Hu, HX, Hacyc.
  unfold MissionControl.get_task_chain. rewrite get_dependency_chain_eq.
  fold tasks. cbv zeta. rewrite (build_task_dict_NoDup _ Hu).
  set (d := map keyed tasks).
  pose proof (dict_edge_keyed tasks) as Hedge.
  assert (Hreach : forall a b, clos_refl_trans string (dict_edge d) a b <->
                               reachable tasks a b).
  { apply clos_refl_trans_equiv. intros a b. now apply Hedge. }
  assert (Hcyc : forall a, clos_trans string (dict_edge d) a a <->
                           on_cycle tasks a).
  { intros a. apply clos_trans_equiv. intros x y. now apply Hedge. }
  destruct (dependency_chain_graph_spec set_iter (fun l => proj2 (Hiter l)) d)
    with (X := X) as (chain & E & Hnd & Hin & Hlast & Htopo).
  - intros k t H. unfold d in H. rewrite dict_get_keyed in H.
    apply find_some in H. now apply String.eqb_eq.
  - unfold d. now rewrite dict_keys_keyed.
  - intros m Hm Hc. apply (Hacyc m); [now apply Hreach | now apply Hcyc].
  - exists chain. split; [exact E|]. split; [exact Hnd|]. split; [|split].
    + intros t. rewrite Hin, Hreach. unfold d.
      now rewrite dict_get_keyed_unique.
    + destruct Hlast as (front & tX & -> & Hget). exists front, tX.
      split; [reflexivity|]. unfold d in Hget. rewrite dict_get_keyed in Hget.
      apply find_some in Hget. now apply String.eqb_eq.
    + intros front t back dep_id -> Hdep Hk.
      apply (chain_topo_split d [] front t back dep_id Htopo Hdep).
      unfold d. now rewrite dict_keys_keyed.
Qed.

(* ================================================================== *)
(** * Iteration orders and acyclic stores *)
(* ================================================================== *)

Lemma first_seen_order_ok : set_iter_ok first_seen_order.
Proof.
  intros l. split; [apply NoDup_nodup | intros x; apply nodup_In].
Qed.

(** A set with one element is walked in one way only. *)
Lemma set_iter_singleton set_iter x :
  set_iter_ok set_iter -> set_iter [x] = [x].
Proof.
  intros H. destruct (H [x]) as [Hnd Hin].
  destruct (set_iter [x]) as [|a [|b l]].
  - exfalso. apply (Hin x). now left.
  - f_equal. destruct (proj1 (Hin a) (or_introl eq_refl)) as [E|[]]. now subst.
  - exfalso.
    destruct (proj1 (Hin a) (or_introl eq_refl)) as [Ea|[]].
    destruct (proj1 (Hin b) (or_intror (or_introl eq_refl))) as [Eb|[]].
    subst. inversion Hnd as [|? ? Hn _]. apply Hn. now left.
Qed.

Lemma set_iter_nil set_iter : set_iter_ok set_iter -> set_iter [] = [].
Proof.
  intros H. destruct (H []) as [_ Hin].
  destruct (set_iter []) as [|a l]; [reflexivity|].
  exfalso. apply (Hin a). now left.
Qed.

Lemma list_index_In x l : In x l -> exists i, list_index x l = Some i.
Proof.
  induction l as [|y l IH]; simpl; [tauto|].
  intros H. destruct (String.eqb_spec y x); [eauto|].
  destruct H as [H|H]; [contradiction|].
  destruct (IH H) as [i ->]. eauto.
Qed.

Lemma deps_point_back_rank tasks a b :
  deps_point_back tasks = true ->
  depends_edge tasks a b -> file_rank tasks b < file_rank tasks a.
Proof.
  unfold deps_point_back. rewrite forallb_forall.
  intros H (t & Ht & Hid & Hb & Hk). specialize (H t Ht).
  rewrite forallb_forall in H. specialize (H b Hb).
  unfold file_rank. subst a.
  destruct (list_index_In _ _ Hk) as [i Ei].
  destruct (list_index_In (id t) (map id tasks) (in_map id _ _ Ht)) as [j Ej].
  rewrite Ei, Ej in *. now apply Nat.ltb_lt.
Qed.

Lemma deps_point_back_acyclic tasks :
  deps_point_back tasks = true -> acyclic tasks.
Proof.
  intros H n Hc. unfold on_cycle in Hc.
  assert (G : forall a b, clos_trans string (depends_edge tasks) a b ->
                          file_rank tasks b < file_rank tasks a).
  { induction 1 as [a b Hab|a b c _ IH1 _ IH2].
    - now apply deps_point_back_rank.
    - lia. }
  specialize (G n n Hc). lia.
Qed.

(* ================================================================== *)
(** * The consistency check: what it returns when it returns *)
(* ================================================================== *)

Lemma cycle_loop_nil set_iter adj f st :
  cycle_loop set_iter adj f [] st = Ok (false, st).
Proof. reflexivity. Qed.

Lemma cycle_loop_cons set_iter adj f neighbor rest st :
  cycle_loop set_iter adj f (neighbor :: rest) st =
  match dict_get neighbor (color st) with
  | None => cycle_loop set_iter adj f rest st
  | Some GRAY =>
      match list_index neighbor (path st) with
      | None => Raise ValueError
      | Some cycle_start =>
          Ok (true,
              mkDfsState (color st) (path st)
                (cycles st ++
                 [cycle_message (skipn cycle_start (path st) ++ [neighbor])]))
      end
  | Some WHITE =>
      match cycle_dfs set_iter adj f neighbor st with
      | Ok (true, st') => Ok (true, st')
      | Ok (false, st') => cycle_loop set_iter adj f rest st'
      | Raise e => Raise e
      | OutOfFuel => OutOfFuel
      end
  | Some BLACK => cycle_loop set_iter adj f rest st
  end.
Proof. reflexivity. Qed.

Lemma cycle_dfs_unfold set_iter adj f node st :
  cycle_dfs set_iter adj (S f) node st =
  match cycle_loop set_iter adj f (set_iter (adj_get adj node))
          (mkDfsState (dict_set node GRAY (color st)) (path st ++ [node])
                      (cycles st)) with
  | Ok (false, st') =>
      Ok (false,
          mkDfsState (dict_set node BLACK (color st'))
                     (removelast (path st')) (cycles st'))
  | other => other
  end.
Proof. reflexivity. Qed.

Lemma grow_refl c : grow c c.
Proof. split; intros; tauto. Qed.

Lemma grow_trans c1 c2 c3 : grow c1 c2 -> grow c2 c3 -> grow c1 c3.
Proof.
  intros [A1 A2] [B1 B2]. split; intros k.
  - now rewrite B1, A1.
  - intros H. now apply A2, B2.
Qed.

Lemma quiet_refl c : quiet c c.
Proof. unfold quiet. repeat split; intros; tauto. Qed.

Lemma quiet_trans c1 c2 c3 : quiet c1 c2 -> quiet c2 c3 -> quiet c1 c3.
Proof.
  intros (A1 & A2 & A3 & A4) (B1 & B2 & B3 & B4).
  split; [|split; [|split]]; intros k.
  - now rewrite B1, A1.
  - intros H. now apply B2, A2.
  - intros H. now apply B3, A3.
  - intros H. destruct (A4 k H) as [H'|H']; [now apply B4 | right; now apply B3].
Qed.

Lemma quiet_grow c c' : quiet c c' -> grow c c'.
Proof.
  intros (A1 & A2 & A3 & A4). split; [exact A1|].
  intros k H. destruct (dict_get k c) as [[| |]|] eqn:E.
  - reflexivity.
  - apply A2 in E. congruence.
  - apply A3 in E. congruence.
  - apply A1 in E. congruence.
Qed.

Lemma quiet_gray_back c c' k :
  quiet c c' -> dict_get k c' = Some GRAY -> dict_get k c = Some GRAY.
Proof.
  intros (A1 & A2 & A3 & A4) H. destruct (dict_get k c) as [[| |]|] eqn:E.
  - destruct (A4 k E); congruence.
  - reflexivity.
  - apply A3 in E. congruence.
  - apply A1 in E. congruence.
Qed.

Lemma keys_ok_grow d c c' : keys_ok d c -> grow c c' -> keys_ok d c'.
Proof. intros H [G _] k. rewrite G. apply H. Qed.

Lemma filter_length_mono (P Q : string -> bool) ks :
  (forall k, P k = true -> Q k = true) ->
  List.length (filter P ks) <= List.length (filter Q ks).
Proof.
  intros H. induction ks as [|k ks IH]; simpl; [lia|].
  destruct (P k) eqn:E.
  - rewrite (H k E). simpl. lia.
  - destruct (Q k); simpl; lia.
Qed.

Lemma filter_length_strict (P Q : string -> bool) ks n :
  (forall k, P k = true -> Q k = true) ->
  In n ks -> P n = false -> Q n = true ->
  List.length (filter P ks) < List.length (filter Q ks).
Proof.
  intros H Hin HP HQ. induction ks as [|k ks IH]; simpl in *; [tauto|].
  pose proof (filter_length_mono P Q ks H) as Hle.
  destruct Hin as [->|Hin].
  - rewrite HP, HQ. simpl. lia.
  - specialize (IH Hin). destruct (P k) eqn:E.
    + rewrite (H k E). simpl. lia.
    + destruct (Q k); simpl; lia.
Qed.

Lemma whites_grow d c c' : grow c c' -> whites d c' <= whites d c.
Proof.
  intros [_ G]. apply filter_length_mono. intros k. unfold is_white.
  destruct (dict_get k c') as [[| |]|] eqn:E; try discriminate.
  intros _. now rewrite (G k E).
Qed.

Lemma whites_set_gray d c node :
  In node (dict_keys d) -> dict_get node c = Some WHITE ->
  whites d (dict_set node GRAY c) < whites d c.
Proof.
  intros Hin Hw. apply filter_length_strict with (n := node); auto.
  - intros k. unfold is_white. destruct (String.eqb_spec node k) as [->|Hne].
    + now rewrite dict_get_set_same.
    + now rewrite dict_get_set_other.
  - unfold is_white. now rewrite dict_get_set_same.
  - unfold is_white. now rewrite Hw.
Qed.

Lemma cycle_post_step d st st' nb rest res :
  quiet (color st) (color st') ->
  cycles st' = cycles st ->
  path st' = path st ->
  (black_inv d (color st) -> black_inv d (color st')) ->
  (In nb (dict_keys d) -> dict_get nb (color st') = Some BLACK) ->
  cycle_post d st' (fun k => In k rest /\ In k (dict_keys d)) res ->
  cycle_post d st (fun k => In k (nb :: rest) /\ In k (dict_keys d)) res.
Proof.
  intros Hq Hc Hp Hb Hnb. destruct res as [[[|] st'']|e|]; simpl; auto.
  - intros [Hg (msg & Hm)]. split.
    + eapply grow_trans; [apply quiet_grow|]; eauto.
    + exists msg. now rewrite Hm, Hc.
  - intros (Hq2 & Hc2 & Hp2 & Hk2 & Hb2).
    split; [eapply quiet_trans; eauto|].
    split; [congruence|]. split; [congruence|]. split; [|tauto].
    intros k [[<-|Hin] Hk].
    + destruct Hq2 as (_ & _ & Hblack & _). apply Hblack. now apply Hnb.
    + apply Hk2. tauto.
Qed.

Lemma black_closed_reach d c m x :
  black_inv d c -> dict_get m c = Some BLACK ->
  clos_refl_trans string (dict_edge d) m x -> dict_get x c = Some BLACK.
Proof.
  intros [Hclosed _] Hm Hreach. apply clos_rt_rt1n in Hreach.
  induction Hreach as [|a b z Hab _ IH]; [exact Hm|].
  apply IH. eapply Hclosed; eauto.
Qed.

Lemma gray_neighbor_absurd d st node nb :
  cycle_pre_acyclic d st node ->
  dict_edge d node nb ->
  dict_get nb (color st) = Some GRAY -> False.
Proof.
  intros [Hgray Hacyc] Hedge Hnb.
  apply (Hacyc nb).
  - now apply rt_step.
  - eapply clos_rt_t; [apply Hgray; exact Hnb|]. now apply t_step.
Qed.

Lemma clos_trans_first {A : Type} (R : A -> A -> Prop) a b :
  clos_trans A R a b -> exists m, R a m /\ clos_refl_trans A R m b.
Proof.
  intros H. apply clos_trans_t1n in H. destruct H as [y Hxy|y z Hxy Hyz].
  - exists y. split; [exact Hxy | apply rt_refl].
  - exists y. split; [exact Hxy|].
    apply clos_t1n_trans in Hyz. now apply clos_t_clos_rt.
Qed.

Section CycleFacts.
Variable set_iter : list string -> list string.
Hypothesis set_iter_In : forall l x, In x (set_iter l) <-> In x l.
Variable d : dict Task.

Lemma cycle_loop_spec f node :
  cycle_dfs_ok set_iter d f ->
  forall nbrs st,
    keys_ok d (color st) ->
    whites d (color st) < f ->
    cycle_post d st (fun k => In k nbrs /\ In k (dict_keys d))
               (cycle_loop set_iter (adj_of d) f nbrs st) /\
    (cycle_pre_acyclic d st node ->
     (forall nb, In nb nbrs -> In nb (dict_keys d) -> dict_edge d node nb) ->
     exists st', cycle_loop set_iter (adj_of d) f nbrs st = Ok (false, st')).
Proof.
  intros IHf. induction nbrs as [|nb rest IH]; intros st Hkeys Hfuel.
  - rewrite cycle_loop_nil. split.
    + simpl. split; [apply quiet_refl|].
      split; [reflexivity|]. split; [reflexivity|].
      split; [intros k [[] _] | tauto].
    + intros _ _. now exists st.
  - rewrite cycle_loop_cons.
    destruct (dict_get nb (color st)) as [[| |]|] eqn:Ec.
    + (* white *)
      destruct (IHf nb st Hkeys Ec Hfuel) as [Hpost Hacyc].
      assert (Hpre_nb : cycle_pre_acyclic d st node ->
                        (forall x, In x (nb :: rest) -> In x (dict_keys d) ->
                                   dict_edge d node x) ->
                        cycle_pre_acyclic d st nb).
      { intros [Hg Ha] Hedges.
        assert (Hk : In nb (dict_keys d)).
        { destruct (in_dec string_dec nb (dict_keys d)) as [|Hn]; [assumption|].
          apply Hkeys in Hn. congruence. }
        assert (He : dict_edge d node nb) by (apply Hedges; [now left|exact Hk]).
        split.
        - intros g Hgg. eapply rt_trans; [now apply Hg | now apply rt_step].
        - intros m Hm. apply Ha. eapply rt_trans; [apply rt_step|]; eauto. }
      destruct (cycle_dfs set_iter (adj_of d) f nb st) as [[[|] st']|e|] eqn:Edfs.
      * split; [exact Hpost|]. intros Hpre Hedges.
        destruct (Hacyc (Hpre_nb Hpre Hedges)) as [st'' E]. discriminate.
      * simpl in Hpost. destruct Hpost as (Hq & Hc & Hp & Hk & Hb).
        destruct (IH st') as [Hpost2 Hacyc2].
        { eapply keys_ok_grow; [exact Hkeys | now apply quiet_grow]. }
        { pose proof (whites_grow d _ _ (quiet_grow _ _ Hq)). lia. }
        split.
        -- eapply cycle_post_step; eauto.
        -- intros Hpre Hedges. apply Hacyc2.
           ++ destruct Hpre as [Hg Ha]. split; [|exact Ha].
              intros g Hgg. apply Hg. eapply quiet_gray_back; eauto.
           ++ intros x Hx. apply Hedges. now right.
      * split; [exact I|]. intros Hpre Hedges.
        destruct (Hacyc (Hpre_nb Hpre Hedges)) as [st'' E]. discriminate.
      * destruct Hpost.
    + (* gray *)
      assert (Habs : cycle_pre_acyclic d st node ->
                     (forall x, In x (nb :: rest) -> In x (dict_keys d) ->
                                dict_edge d node x) -> False).
      { intros Hpre Hedges.
        assert (Hk : In nb (dict_keys d)).
        { destruct (in_dec string_dec nb (dict_keys d)) as [|Hn]; [assumption|].
          apply Hkeys in Hn. congruence. }
        eapply gray_neighbor_absurd; eauto. apply Hedges; [now left|exact Hk]. }
      destruct (list_index nb (path st)) as [i|].
      * split.
        -- simpl. split; [apply grow_refl | eauto].
        -- intros Hpre Hedges. destruct (Habs Hpre Hedges).
      * split; [exact I|]. intros Hpre Hedges. destruct (Habs Hpre Hedges).
    + (* black *)
      destruct (IH st Hkeys Hfuel) as [Hpost2 Hacyc2]. split.
      * eapply cycle_post_step; eauto. apply quiet_refl.
      * intros Hpre Hedges. apply Hacyc2; [exact Hpre|].
        intros x Hx. apply Hedges. now right.
    + (* not a key *)
      destruct (IH st Hkeys Hfuel) as [Hpost2 Hacyc2]. split.
      * eapply cycle_post_step; eauto; [apply quiet_refl|].
        intros Hk. apply Hkeys in Ec. contradiction.
      * intros Hpre Hedges. apply Hacyc2; [exact Hpre|].
        intros x Hx. apply Hedges. now right.
Qed.

Lemma cycle_dfs_spec f : cycle_dfs_ok set_iter d f.
Proof.
  induction f as [|f IHf]; intros node st Hkeys Hw Hfuel; [lia|].
  rewrite cycle_dfs_unfold.
  set (st1 := mkDfsState (dict_set node GRAY (color st)) (path st ++ [node])
                         (cycles st)).
  assert (Hnode : In node (dict_keys d)).
  { destruct (in_dec string_dec node (dict_keys d)) as [|Hn]; [assumption|].
    apply Hkeys in Hn. congruence. }
  assert (Hsame : forall k, k <> node ->
                    dict_get k (color st1) = dict_get k (color st)).
  { intros k Hk. simpl. apply dict_get_set_other. congruence. }
  assert (Hgray : dict_get node (color st1) = Some GRAY)
    by (simpl; apply dict_get_set_same).
  assert (Hgrow1 : grow (color st) (color st1)).
  { split; intros k; destruct (string_dec k node) as [->|Hne].
    - rewrite Hgray, Hw. split; discriminate.
    - now rewrite Hsame.
    - rewrite Hgray. discriminate.
    - now rewrite Hsame. }
  assert (Hkeys1 : keys_ok d (color st1)) by (eapply keys_ok_grow; eauto).
  assert (Hfuel1 : whites d (color st1) < f).
  { pose proof (whites_set_gray d (color st) node Hnode Hw). simpl. lia. }
  destruct (dict_get node d) as [tn|] eqn:Etn;
    [|apply dict_get_None in Etn; contradiction].
  assert (Hadj : adj_get (adj_of d) node = depends_on tn).
  { unfold adj_of. now rewrite adj_get_task_dict, Etn. }
  rewrite Hadj.
  assert (Hnbrs : forall m, dict_edge d node m ->
                    In m (set_iter (depends_on tn)) /\ In m (dict_keys d)).
  { intros m (t & Ht & Hm & Hk). rewrite Etn in Ht. injection Ht as <-.
    split; [now apply set_iter_In | exact Hk]. }
  assert (Hedges : forall nb, In nb (set_iter (depends_on tn)) ->
                     In nb (dict_keys d) -> dict_edge d node nb).
  { intros nb Hin Hk. exists tn. split; [exact Etn|].
    split; [now apply set_iter_In | exact Hk]. }
  destruct (cycle_loop_spec f node IHf (set_iter (depends_on tn)) st1
                            Hkeys1 Hfuel1) as [Hpost Hacyc].
  assert (Hpre1 : cycle_pre_acyclic d st node -> cycle_pre_acyclic d st1 node).
  { intros [Hg Ha]. split; [|exact Ha]. intros g Hgg.
    destruct (string_dec g node) as [->|Hne]; [apply rt_refl|].
    apply Hg. now rewrite <- Hsame. }
  destruct (cycle_loop set_iter (adj_of d) f (set_iter (depends_on tn)) st1)
    as [[[|] st']|e|] eqn:Eloop.
  - (* a cycle was reported *)
    split.
    + simpl in *. destruct Hpost as [Hg Hm]. split; [|exact Hm].
      eapply grow_trans; eauto.
    + intros Hpre. destruct (Hacyc (Hpre1 Hpre) Hedges) as [st'' E]. discriminate.
  - (* the loop ran to its end *)
    split; [|intros _; eauto].
    simpl in Hpost. destruct Hpost as (Hq & Hc & Hp & Hk & Hb).
    assert (Hgray' : dict_get node (color st') = Some GRAY).
    { destruct Hq as (_ & Hq2 & _). now apply Hq2. }
    simpl.
    assert (Hsame' : forall k, k <> node ->
               dict_get k (dict_set node BLACK (color st')) = dict_get k (color st')).
    { intros k Hne. apply dict_get_set_other. congruence. }
    split; [|split; [|split; [|split]]].
    + destruct Hq as (Q1 & Q2 & Q3 & Q4).
      split; [|split; [|split]]; intros k;
        destruct (string_dec k node) as [->|Hne];
        rewrite ?dict_get_set_same, ?Hsame' by assumption.
      * rewrite Hw. split; discriminate.
      * rewrite Q1. now rewrite Hsame.
      * rewrite Hw. discriminate.
      * intros H. apply Q2. now rewrite Hsame.
      * reflexivity.
      * intros H. apply Q3. now rewrite Hsame.
      * now right.
      * intros H. apply Q4. now rewrite Hsame.
    + exact Hc.
    + rewrite Hp. simpl. apply removelast_last.
    + intros k ->. apply dict_get_set_same.
    + intros Hinv.
      assert (Hinv1 : black_inv d (color st1)).
      { destruct Hinv as [I1 I2]. split.
        - intros n m Hn Hnm.
          assert (n <> node) by (intros ->; congruence).
          rewrite Hsame in Hn by assumption.
          pose proof (I1 n m Hn Hnm) as Hm.
          assert (m <> node) by (intros ->; congruence).
          now rewrite Hsame.
        - intros n Hn.
          assert (n <> node) by (intros ->; congruence).
          rewrite Hsame in Hn by assumption. now apply I2. }
      specialize (Hb Hinv1).
      assert (Hout : forall m, dict_edge d node m ->
                       dict_get m (color st') = Some BLACK /\ m <> node).
      { intros m Hm. destruct (Hnbrs m Hm) as [H1 H2].
        assert (Hmb : dict_get m (color st') = Some BLACK) by (apply Hk; tauto).
        split; [exact Hmb|]. intros ->. congruence. }
      split.
      * intros n m Hn Hnm. destruct (string_dec n node) as [->|Hne].
        -- destruct (Hout m Hnm) as [Hmb Hmn]. now rewrite Hsame'.
        -- rewrite Hsame' in Hn by assumption.
           pose proof (proj1 Hb n m Hn Hnm) as Hmb.
           assert (m <> node) by (intros ->; congruence).
           now rewrite Hsame'.
      * intros n Hn Hcyc. destruct (string_dec n node) as [->|Hne].
        -- destruct (clos_trans_first _ _ _ Hcyc) as (m & Hm & Hback).
           destruct (Hout m Hm) as [Hmb _].
           pose proof (black_closed_reach d (color st') m node Hb Hmb Hback).
           congruence.
        -- rewrite Hsame' in Hn by assumption. exact (proj2 Hb n Hn Hcyc).
  - split; [exact I|]. intros Hpre.
    destruct (Hacyc (Hpre1 Hpre) Hedges) as [st'' E]. discriminate.
  - destruct Hpost.
Qed.
End CycleFacts.

Section CycleAllFacts.
Variable set_iter : list string -> list string.
Hypothesis set_iter_In : forall l x, In x (set_iter l) <-> In x l.
Variable d : dict Task.

Lemma cycle_dfs_all_spec f :
  forall ks c cyc,
    keys_ok d c -> whites d c < f ->
    (forall k, In k ks -> In k (dict_keys d)) ->
    cycle_all_post d ks c cyc (cycle_dfs_all set_iter (adj_of d) f ks (c, cyc)) /\
    (no_gray c -> dict_acyclic d ->
     exists c', cycle_dfs_all set_iter (adj_of d) f ks (c, cyc) = Ok (c', cyc)).
Proof.
  induction ks as [|k rest IH]; intros c cyc Hkeys Hfuel Hks.
  - simpl. split; [|eauto]. split; [apply grow_refl|].
    exists []. rewrite app_nil_r. split; [reflexivity|].
    intros _ _ Hb. split; [apply quiet_refl|]. split; [exact Hb|]. intros ? [].
  - assert (Hrest : forall x, In x rest -> In x (dict_keys d))
      by (intros x Hx; apply Hks; now right).
    simpl. destruct (dict_get k c) as [[| |]|] eqn:Ec.
    + (* white: a new traversal *)
      destruct (cycle_dfs_spec set_iter set_iter_In d f k (mkDfsState c [] cyc)
                               Hkeys Ec Hfuel) as [Hpost Hacyc].
      assert (Hpre : no_gray c -> dict_acyclic d ->
                     cycle_pre_acyclic d (mkDfsState c [] cyc) k).
      { intros Hng Hac. split.
        - intros g Hg. destruct (Hng g Hg).
        - intros m _. apply Hac. }
      destruct (cycle_dfs set_iter (adj_of d) f k (mkDfsState c [] cyc))
        as [[[|] st']|e|] eqn:Edfs.
      * simpl in Hpost. destruct Hpost as [Hg (msg & Hm)].
        destruct (IH (color st') (cycles st')) as [Hpost2 _]; auto.
        { eapply keys_ok_grow; eauto. }
        { pose proof (whites_grow d _ _ Hg). simpl in *. lia. }
        split.
        -- destruct (cycle_dfs_all set_iter (adj_of d) f rest
                       (color st', cycles st')) as [[c' cyc']|e|]; simpl in *; auto.
           destruct Hpost2 as [Hg2 (extra & He & _)].
           split; [eapply grow_trans; eauto|].
           exists (msg :: extra). split.
           ++ rewrite He, Hm, <- app_assoc. reflexivity.
           ++ discriminate.
        -- intros Hng Hac. destruct (Hacyc (Hpre Hng Hac)) as [st'' E].
           discriminate.
      * simpl in Hpost. destruct Hpost as (Hq & Hc & Hp & Hk & Hb).
        simpl in Hq, Hc.
        destruct (IH (color st') (cycles st')) as [Hpost2 Hacyc2]; auto.
        { eapply keys_ok_grow; [exact Hkeys | now apply quiet_grow]. }
        { pose proof (whites_grow d _ _ (quiet_grow _ _ Hq)). lia. }
        assert (Hng' : no_gray c -> no_gray (color st')).
        { intros Hng x Hx. apply (Hng x). eapply quiet_gray_back; eauto. }
        split.
        -- destruct (cycle_dfs_all set_iter (adj_of d) f rest
                       (color st', cycles st')) as [[c' cyc']|e|]; simpl in *; auto.
           destruct Hpost2 as [Hg2 (extra & He & Hall)].
           split; [eapply grow_trans; [apply quiet_grow|]; eauto|].
           exists extra. split; [now rewrite He, Hc|].
           intros Hex Hng Hbi.
           destruct (Hall Hex (Hng' Hng) (Hb Hbi)) as (Hq2 & Hb2 & Hk2).
           split; [eapply quiet_trans; eauto|]. split; [exact Hb2|].
           intros x [<-|Hx]; [|now apply Hk2].
           destruct Hq2 as (_ & _ & Hblack & _). apply Hblack. now apply Hk.
        -- intros Hng Hac. rewrite Hc in Hacyc2 |- *. apply Hacyc2; auto.
      * split; [exact I|]. intros Hng Hac.
        destruct (Hacyc (Hpre Hng Hac)) as [st'' E]. discriminate.
      * destruct Hpost.
    + (* gray *)
      destruct (IH c cyc Hkeys Hfuel Hrest) as [Hpost2 Hacyc2]. split.
      * destruct (cycle_dfs_all set_iter (adj_of d) f rest (c, cyc))
          as [[c' cyc']|e|]; simpl in *; auto.
        destruct Hpost2 as [Hg2 (extra & He & Hall)].
        split; [exact Hg2|]. exists extra. split; [exact He|].
        intros Hex Hng Hbi. destruct (Hng k Ec).
      * exact Hacyc2.
    + (* black *)
      destruct (IH c cyc Hkeys Hfuel Hrest) as [Hpost2 Hacyc2]. split.
      * destruct (cycle_dfs_all set_iter (adj_of d) f rest (c, cyc))
          as [[c' cyc']|e|]; simpl in *; auto.
        destruct Hpost2 as [Hg2 (extra & He & Hall)].
        split; [exact Hg2|]. exists extra. split; [exact He|].
        intros Hex Hng Hbi. destruct (Hall Hex Hng Hbi) as (Hq2 & Hb2 & Hk2).
        split; [exact Hq2|]. split; [exact Hb2|].
        intros x [<-|Hx]; [|now apply Hk2].
        destruct Hq2 as (_ & _ & Hblack & _). now apply Hblack.
      * exact Hacyc2.
    + exfalso. apply Hkeys in Ec. apply Ec, Hks. now left.
Qed.

Lemma initial_color_get (ks : list string) k :
  dict_get k (map (fun task_id => (task_id, WHITE)) ks) =
  if str_mem k ks then Some WHITE else None.
Proof.
  induction ks as [|x ks IH]; simpl; [reflexivity|].
  rewrite (String.eqb_sym k x).
  destruct (x =? k)%string; [reflexivity | exact IH].
Qed.

Lemma flat_map_nil {A B : Type} (g : A -> list B) l :
  flat_map g l = [] <-> forall x, In x l -> g x = [].
Proof.
  induction l as [|a l IH]; simpl.
  - split; [intros _ x [] | reflexivity].
  - split.
    + intros H x [<-|Hx]; apply app_eq_nil in H; [tauto|]. now apply IH.
    + intros H. rewrite (H a (or_introl eq_refl)). simpl.
      apply IH. intros x Hx. apply H. now right.
Qed.

Lemma missing_errors_nil : missing_errors d = [] <-> dict_no_dangling d.
Proof.
  unfold missing_errors, dict_no_dangling. rewrite flat_map_nil. split.
  - intros H k t dep_id Hin Hdep. specialize (H (k, t) Hin). simpl in H.
    rewrite flat_map_nil in H. specialize (H dep_id Hdep).
    destruct (dict_mem dep_id d) eqn:E; [now apply dict_mem_true|discriminate].
  - intros H [k t] Hin. apply flat_map_nil. intros dep_id Hdep.
    specialize (H k t dep_id Hin Hdep). apply dict_mem_true in H.
    now rewrite H.
Qed.

Lemma check_consistency_graph_spec :
  let res := check_consistency_graph set_iter d (adj_of d) in
  res <> OutOfFuel /\
  (dict_acyclic d -> exists ok errors, res = Ok (ok, errors)) /\
  (forall ok errors,
      res = Ok (ok, errors) ->
      (ok = true <-> errors = []) /\
      (ok = true <-> dict_acyclic d /\ dict_no_dangling d)).
Proof.
  cbv zeta. unfold check_consistency_graph.
  set (c0 := map (fun task_id => (task_id, WHITE)) (dict_keys d) : dict Color).
  assert (Hkeys : keys_ok d c0).
  { intros k. unfold c0. rewrite initial_color_get.
    destruct (str_mem k (dict_keys d)) eqn:E.
    - apply str_mem_In in E. split; [discriminate | tauto].
    - apply str_mem_false in E. tauto. }
  assert (Hfuel : whites d c0 < S (List.length d)).
  { unfold whites.
    pose proof (filter_length_le (is_white c0) (dict_keys d)) as Hle.
    unfold dict_keys in *. rewrite length_map in Hle. lia. }
  assert (Hng : no_gray c0).
  { intros k. unfold c0. rewrite initial_color_get.
    destruct (str_mem k (dict_keys d)); discriminate. }
  assert (Hbi : black_inv d c0).
  { split; intros n; unfold c0; rewrite initial_color_get;
      destruct (str_mem n (dict_keys d)); discriminate. }
  destruct (cycle_dfs_all_spec (S (List.length d)) (dict_keys d) c0 []
              Hkeys Hfuel (fun k H => H)) as [Hpost Hacyc].
  destruct (cycle_dfs_all set_iter (adj_of d) (S (List.length d))
                          (dict_keys d) (c0, [])) as [[c' cyc']|e|] eqn:Eall.
  - unfold cycle_all_post in Hpost.
    destruct Hpost as [_ (extra & He & Hall)].
    simpl in He. subst cyc'.
    split; [discriminate|]. split; [eauto|].
    intros ok errors [= <- <-].
    assert (Hok : Nat.eqb (List.length (extra ++ missing_errors d)) 0 = true <->
                  extra ++ missing_errors d = []).
    { rewrite Nat.eqb_eq. apply length_zero_iff_nil. }
    split; [exact Hok|]. rewrite Hok. split.
    + intros H. apply app_eq_nil in H. destruct H as [Hex Hmiss].
      split; [|now apply missing_errors_nil].
      destruct (Hall Hex Hng Hbi) as (_ & [_ Hnc] & Hblack).
      intros n Hcyc. apply (Hnc n); [|exact Hcyc].
      apply Hblack. destruct (clos_trans_first _ _ _ Hcyc) as (m & Hedge & _).
      destruct Hedge as (t & Ht & _). eapply dict_get_In_keys; eauto.
    + intros [Hac Hnd]. destruct (Hacyc Hng Hac) as [c'' [= _ Hex]].
      apply missing_errors_nil in Hnd. rewrite Hnd.
      destruct extra; [reflexivity | discriminate].
  - split; [discriminate|]. split; [|discriminate].
    intros Hac. destruct (Hacyc Hng Hac) as [c'' Habs]. discriminate.
  - destruct Hpost.
Qed.
End CycleAllFacts.

Lemma dict_no_dangling_keyed tasks :
  dict_no_dangling (map keyed tasks) <-> no_dangling tasks.
Proof.
  unfold dict_no_dangling, no_dangling. rewrite dict_keys_keyed. split.
  - intros H t dep_id Ht. apply (H (id t) t). apply in_map_iff. now exists t.
  - intros H k t dep_id Hin. apply in_map_iff in Hin.
    destruct Hin as (t' & [= <- <-] & Ht'). now apply H.
Qed.

(** X25. What [check_consistency] does on a store of unique ids, for every
    iteration order of the dependency sets: the embedding's fuel always
    suffices; on an acyclic store a pair is returned; and whenever a pair
    [(ok, errors)] is returned, [ok] is true iff [errors] is empty, and iff
    the graph is acyclic with no dangling dependency. The one way to miss the
    specification is to raise. *)
Theorem check_consistency_when_it_returns
  (set_iter : list string -> list string) (h : HashOracle) (s : TaskStorage) :
  set_iter_ok set_iter ->
  unique_ids (load_all_tasks h s) ->
  let tasks := load_all_tasks h s in
  let res := MissionControl.check_consistency set_iter h s in
  res <> OutOfFuel /\
  (acyclic tasks -> exists ok errors, res = Ok (ok, errors)) /\
  (forall ok errors,
      res = Ok (ok, errors) ->
      (ok = true <-> errors = []) /\
      (ok = true <-> acyclic tasks /\ no_dangling tasks)).
Proof.
  intros Hiter Hu. cbv zeta.
  unfold MissionControl.check_consistency, check_consistency, _build_graph.
  rewrite build_adj_task_dict, (build_task_dict_NoDup _ Hu).
  set (tasks := load_all_tasks h s) in *.
  fold (adj_of (map keyed tasks)).
  assert (Hac : dict_acyclic (map keyed tasks) <-> acyclic tasks).
  { unfold dict_acyclic, acyclic, on_cycle. split; intros H n Hc; apply (H n).
    - apply (clos_trans_equiv _ _ (fun a b => dict_edge_keyed tasks a b Hu)).
      exact Hc.
    - apply (clos_trans_equiv _ _ (fun a b => dict_edge_keyed tasks a b Hu)).
      exact Hc. }
  destruct (check_consistency_graph_spec set_iter (fun l => proj2 (Hiter l))
              (map keyed tasks)) as (H1 & H2 & H3).
  split; [exact H1|]. split.
  - intros Ha. apply H2. now apply Hac.
  - intros ok errors E. destruct (H3 ok errors E) as [H4 H5].
    split; [exact H4|]. now rewrite H5, Hac, dict_no_dangling_keyed.
Qed.

(* ================================================================== *)
(** * The consistency check on a cycle with a later edge into it *)
(* ================================================================== *)

(** C2. On [cycle_store] the check does not return a pair: the traversal
    started at [m-a] reports the cycle and leaves [m-a] and [m-b] gray, and
    the traversal started at [m-c] then looks [m-a] up in a path that does
    not hold it, which raises [ValueError]. This holds for every iteration
    order of the sets and every hash oracle. *)
Theorem check_consistency_raises_after_cycle
  (set_iter : list string -> list string) (h : HashOracle) :
  set_iter_ok set_iter ->
  MissionControl.check_consistency set_iter h cycle_store = Raise ValueError.
Proof.
  intros Hiter.
  unfold MissionControl.check_consistency, check_consistency, _build_graph.
  change (load_all_tasks h cycle_store) with (tasks_file cycle_store).
  unfold check_consistency_graph.
  repeat (cbn; rewrite ?(set_iter_singleton set_iter _ Hiter)).
  reflexivity.
Qed.

Lemma check_consistency_raises_after_cycle_witness :
  set_iter_ok first_seen_order /\
  MissionControl.check_consistency first_seen_order sample_hash cycle_store =
    Raise ValueError.
Proof.
  split; [exact first_seen_order_ok|].
  exact (check_consistency_raises_after_cycle first_seen_order sample_hash
           first_seen_order_ok).
Defined.

(** The store without [m-c] is reported as inconsistent, as intended. *)
Example check_consistency_plain_cycle :
  MissionControl.check_consistency first_seen_order sample_hash
    (mkTaskStorage (firstn 2 (tasks_file cycle_store)) []) =
  Ok (false, ["Circular dependency detected: m-a -> m-b -> m-a"%string]).
Proof. reflexivity. Qed.

(* ================================================================== *)
(** * A ready task with a stale [blocked_by] *)
(* ================================================================== *)

(** C6. On [stale_store] the task [m-b] is ready and is returned with the
    [blocked_by] it was loaded with, [[m-a]], not with the empty list. *)
Theorem list_ready_work_keeps_stale_blocked_by (h : HashOracle) :
  map (fun t => (id t, blocked_by t)) (MissionControl.list_ready_work h stale_store) =
  [("m-b"%string, ["m-a"%string])].
Proof. reflexivity. Qed.

(* ================================================================== *)
(** * The theorems at the sample store *)
(* ================================================================== *)

Lemma sample_store_unique : unique_ids (load_all_tasks sample_hash sample_store).
Proof.
  unfold unique_ids. cbn. repeat constructor; cbn; intuition discriminate.
Defined.

Lemma sample_store_ids : records_have_ids sample_store.
Proof.
  repeat constructor; discriminate.
Defined.

Lemma list_ready_work_exact_witness :
  unique_ids (load_all_tasks sample_hash sample_store) /\
  Permutation
    (MissionControl.list_ready_work sample_hash sample_store)
    (filter (is_readyb (load_all_tasks sample_hash sample_store))
            (load_all_tasks sample_hash sample_store)).
Proof.
  split; [exact sample_store_unique|].
  exact (proj1 (list_ready_work_exact sample_hash sample_store
                  sample_store_unique)).
Defined.

Lemma save_load_round_trip_witness :
  Task_valid (sample_task "m-e" TODO ["m-a"%string] 3) /\
  exists loaded,
    load_task sample_hash
      (snd (save_task sample_vca sample_hash sample_store
              (sample_task "m-e" TODO ["m-a"%string] 3))) "m-e" = Some loaded /\
    created_at (metadata loaded) = "2025-01-01T09:00:00"%string.
Proof.
  assert (Hv : Task_valid (sample_task "m-e" TODO ["m-a"%string] 3))
    by (split; [reflexivity | discriminate]).
  split; [exact Hv|].
  destruct (save_load_round_trip sample_vca sample_hash sample_hash sample_store
              (sample_task "m-e" TODO ["m-a"%string] 3) Hv)
    as (loaded & Hload & H).
  exists loaded. split; [exact Hload|].
  exact (proj1 (proj2 (proj2 (proj2 (proj2 (proj2 (proj2 (proj2 (proj2 (proj2 H)))))))))).
Defined.

Lemma sample_store_acyclic : acyclic (load_all_tasks sample_hash sample_store).
Proof. apply deps_point_back_acyclic. reflexivity. Defined.

Lemma get_task_chain_topological_witness :
  set_iter_ok first_seen_order /\
  unique_ids (load_all_tasks sample_hash sample_store) /\
  In "m-c"%string (map id (load_all_tasks sample_hash sample_store)) /\
  exists chain,
    MissionControl.get_task_chain first_seen_order sample_hash sample_store "m-c"
      = Ok chain /\
    NoDup (map id chain).
Proof.
  split; [exact first_seen_order_ok|]. split; [exact sample_store_unique|].
  assert (Hin : In "m-c"%string (map id (load_all_tasks sample_hash sample_store)))
    by (cbn; tauto).
  split; [exact Hin|].
  destruct (get_task_chain_topological first_seen_order sample_hash sample_store
              "m-c" first_seen_order_ok sample_store_unique Hin
              (fun n _ => sample_store_acyclic n))
    as (chain & E & Hnd & _).
  exists chain. split; [exact E | exact Hnd].
Defined.

Lemma save_task_upsert_witness :
  tasks_file (snd (save_task sample_vca sample_hash sample_store
                     (sample_task "m-b" IN_PROGRESS ["m-a"%string] 6))) =
  [sample_task "m-a" DONE [] 5] ++
  fst (save_task sample_vca sample_hash sample_store
         (sample_task "m-b" IN_PROGRESS ["m-a"%string] 6)) ::
  [sample_task "m-c" TODO ["m-b"%string] 7;
   sample_task "m-d" TODO ["m-ghost"%string] 9].
Proof.
  apply (proj1 (proj2 (proj2 (proj2 (proj2
           (save_task_upsert sample_vca sample_hash sample_store
              (sample_task "m-b" IN_PROGRESS ["m-a"%string] 6))))))
           [sample_task "m-a" DONE [] 5]
           (sample_task "m-b" TODO ["m-a"%string] 5)
           [sample_task "m-c" TODO ["m-b"%string] 7;
            sample_task "m-d" TODO ["m-ghost"%string] 9]).
  - reflexivity.
  - reflexivity.
  - intros x [<-|[]]. discriminate.
Defined.

Lemma get_task_chain_unknown_id_witness :
  MissionControl.get_task sample_hash sample_store "m-ghost" = None /\
  MissionControl.get_task_chain first_seen_order sample_hash sample_store
    "m-ghost" = Ok [].
Proof.
  split; [reflexivity|].
  exact (get_task_chain_unknown_id first_seen_order sample_hash sample_store
           "m-ghost" eq_refl).
Defined.

Lemma check_consistency_when_it_returns_witness :
  set_iter_ok first_seen_order /\
  unique_ids (load_all_tasks sample_hash sample_store) /\
  acyclic (load_all_tasks sample_hash sample_store) /\
  exists ok errors,
    MissionControl.check_consistency first_seen_order sample_hash sample_store =
    Ok (ok, errors).
Proof.
  split; [exact first_seen_order_ok|]. split; [exact sample_store_unique|].
  split; [exact sample_store_acyclic|].
  destruct (check_consistency_when_it_returns first_seen_order sample_hash
              sample_store first_seen_order_ok sample_store_unique)
    as (_ & H & _).
  exact (H sample_store_acyclic).
Defined.

(* ================================================================== *)
(** * Further properties of the task store *)
(* ================================================================== *)

Lemma find_app_id (k : string) (l1 l2 : list Task) :
  find (fun t => (id t =? k)%string) (l1 ++ l2) =
  match find (fun t => (id t =? k)%string) l1 with
  | Some t => Some t
  | None => find (fun t => (id t =? k)%string) l2
  end.
Proof.
  induction l1 as [|x l1 IH]; simpl; [reflexivity|].
  destruct (id x =? k)%string; [reflexivity | exact IH].
Qed.

Lemma build_task_dict_get_acc tasks acc k :
  dict_get k (fold_left (fun d t => dict_set (id t) t d) tasks acc) =
  match find (fun t => (id t =? k)%string) (rev tasks) with
  | Some t => Some t
  | None => dict_get k acc
  end.
Proof.
  revert acc. induction tasks as [|t ts IH]; intros acc; simpl; [reflexivity|].
  rewrite IH, find_app_id. simpl.
  destruct (find (fun t0 => (id t0 =? k)%string) (rev ts)); [reflexivity|].
  destruct (String.eqb_spec (id t) k) as [->|Hne].
  - apply dict_get_set_same.
  - now apply dict_get_set_other.
Qed.

Lemma find_rev_unique tasks k :
  unique_ids tasks ->
  find (fun t => (id t =? k)%string) (rev tasks) =
  find (fun t => (id t =? k)%string) tasks.
Proof.
  unfold unique_ids. induction tasks as [|t ts IH]; simpl; [reflexivity|].
  intros Hnd. inversion Hnd as [|? ? Hnotin Hnd']; subst.
  rewrite find_app_id, IH by assumption. simpl.
  destruct (String.eqb_spec (id t) k) as [E|E].
  - destruct (find (fun t0 => (id t0 =? k)%string) ts) as [t'|] eqn:F;
      [|reflexivity].
    apply find_some in F. destruct F as [Hin Hid].
    apply String.eqb_eq in Hid. exfalso. apply Hnotin.
    rewrite E, <- Hid. now apply in_map.
  - now destruct (find (fun t0 => (id t0 =? k)%string) ts).
Qed.

(** X1. When two records of the active log carry the same id, the graph
    operations resolve the id to the last of them, while [load_task]
    returns the first; with unique ids the two agree. *)
Theorem graph_resolves_last_record (h : HashOracle) (s : TaskStorage)
  (task_id : string) :
  dict_get task_id (fst (_build_graph h s)) =
    find (fun t => (id t =? task_id)%string) (rev (load_all_tasks h s)) /\
  load_task h s task_id =
    find (fun t => (id t =? task_id)%string) (load_all_tasks h s) /\
  (unique_ids (load_all_tasks h s) ->
   dict_get task_id (fst (_build_graph h s)) = load_task h s task_id).
Proof.
  assert (H1 : dict_get task_id (fst (_build_graph h s)) =
               find (fun t => (id t =? task_id)%string)
                    (rev (load_all_tasks h s))).
  { unfold _build_graph, build_task_dict. simpl.
    rewrite build_task_dict_get_acc.
    now destruct (find _ (rev (load_all_tasks h s))). }
  split; [exact H1|]. split; [reflexivity|].
  intros Hu. rewrite H1. unfold load_task. now apply find_rev_unique.
Qed.

Lemma load_records_length h i records :
  List.length (load_records h i records) <= List.length records.
Proof.
  revert i. induction records as [|r rs IH]; intros i; simpl; [lia|].
  destruct (Task_validate (h i (title r)) r); simpl; specialize (IH (S i)); lia.
Qed.

(** X2. The read contract of the store: every task that [load_all_tasks]
    returns has a priority in 1..10 and a non-empty id; nothing is added to
    the records of the log; a log of valid records is returned as it is;
    and when every record carries an id, what is returned is the log without
    the records whose priority is out of range, whatever ids the hash would
    generate. *)
Theorem load_all_tasks_contract (h : HashOracle) (s : TaskStorage) :
  Forall Task_valid (load_all_tasks h s) /\
  List.length (load_all_tasks h s) <= List.length (tasks_file s) /\
  (Forall Task_valid (tasks_file s) -> load_all_tasks h s = tasks_file s) /\
  (records_have_ids s ->
   load_all_tasks h s = filter priority_ok (tasks_file s)).
Proof.
  split; [apply load_records_all_valid|].
  split; [apply load_records_length|].
  split; [apply load_records_valid | apply load_records_ids].
Qed.

Lemma upsert_upsert task tasks : upsert task (upsert task tasks) = upsert task tasks.
Proof.
  induction tasks as [|x tasks IH]; simpl.
  - now rewrite String.eqb_refl.
  - destruct (id x =? id task)%string eqn:E; simpl.
    + now rewrite String.eqb_refl.
    + now rewrite E, IH.
Qed.

(** X3. Saving is idempotent: after [save_task] of a valid task, saving the
    same task again under the same answers of the version-control tool and
    the clock returns the same task and writes the same active log and the
    same archive. *)
Theorem save_task_idempotent (v : Vca) (h1 h2 : HashOracle) (s : TaskStorage)
  (task : Task) :
  Task_valid task ->
  save_task v h2 (snd (save_task v h1 s task)) task = save_task v h1 s task /\
  save_task v h2 (snd (save_task v h1 s task)) (fst (save_task v h1 s task)) =
    save_task v h1 s task.
Proof.
  intros Hv.
  assert (Hre : load_all_tasks h2 (snd (save_task v h1 s task)) =
                upsert (refresh_metadata v task) (load_all_tasks h1 s))
    by now apply save_task_reload.
  split; unfold save_task at 1; rewrite Hre; cbn [fst snd save_task archive_file].
  - now rewrite upsert_upsert.
  - change (refresh_metadata v (refresh_metadata v task))
      with (refresh_metadata v task).
    now rewrite upsert_upsert.
Qed.

Lemma find_filter_upsert_other (P : Task -> bool) task tasks k :
  id task <> k ->
  find (fun t => (id t =? k)%string) (filter P (upsert task tasks)) =
  find (fun t => (id t =? k)%string) (filter P tasks).
Proof.
  intros Hne.
  assert (Hk : (id task =? k)%string = false) by now apply String.eqb_neq.
  induction tasks as [|x tasks IH]; simpl.
  - destruct (P task); simpl; [now rewrite Hk | reflexivity].
  - destruct (String.eqb_spec (id x) (id task)) as [E|E]; simpl.
    + destruct (P task), (P x); simpl;
        rewrite ?Hk; rewrite ?E, ?Hk; reflexivity.
    + destruct (P x); simpl; [|exact IH].
      destruct (id x =? k)%string; [reflexivity | exact IH].
Qed.

Lemma filter_priority_ok_valid tasks :
  Forall Task_valid tasks -> filter priority_ok tasks = tasks.
Proof.
  induction 1 as [|x l [Hp _] _ IH]; simpl; [reflexivity|].
  now rewrite Hp, IH.
Qed.

Lemma upsert_have_ids task tasks :
  id task <> ""%string -> Forall Task_valid tasks ->
  Forall (fun record => id record <> ""%string) (upsert task tasks).
Proof.
  intros Ht Hl. rewrite Forall_forall in *. intros x Hx.
  destruct (upsert_In _ _ _ Hx) as [->|H]; [exact Ht | apply Hl, H].
Qed.

(** What a later read sees after [save_task] of a task that carries an id:
    the upsert, without the saved record when its priority is out of
    range. *)
Lemma save_task_reload_ids v h h' s task :
  id task <> ""%string ->
  load_all_tasks h' (snd (save_task v h s task)) =
  filter priority_ok (upsert (refresh_metadata v task) (load_all_tasks h s)).
Proof.
  intros Hid. unfold save_task. cbn [snd].
  apply load_records_ids. cbn [tasks_file].
  apply upsert_have_ids; [exact Hid | apply load_all_tasks_all_valid].
Qed.

(** X4. [save_task] of a task that carries an id changes nothing for the
    other ids: [load_task] on any other id returns afterwards what it
    returned before. *)
Theorem save_task_frame (v : Vca) (h h' : HashOracle) (s : TaskStorage)
  (task : Task) (other : string) :
  id task <> ""%string ->
  other <> id task ->
  load_task h' (snd (save_task v h s task)) other = load_task h s other.
Proof.
  intros Hid Hne. unfold load_task.
  rewrite save_task_reload_ids by exact Hid.
  rewrite find_filter_upsert_other by (simpl; congruence).
  now rewrite filter_priority_ok_valid by apply load_all_tasks_all_valid.
Qed.

Lemma filter_all_true {A : Type} (f : A -> bool) l :
  (forall x, In x l -> f x = true) -> filter f l = l.
Proof.
  induction l as [|a l IH]; simpl; intros H; [reflexivity|].
  rewrite (H a (or_introl eq_refl)), IH; [reflexivity|].
  intros x Hx. apply H. now right.
Qed.

Lemma find_filter_other_id (tasks : list Task) task_id other :
  other <> task_id ->
  find (fun t => (id t =? other)%string)
       (filter (fun t => negb (id t =? task_id)%string) tasks) =
  find (fun t => (id t =? other)%string) tasks.
Proof.
  intros Hne. induction tasks as [|x tasks IH]; simpl; [reflexivity|].
  destruct (String.eqb_spec (id x) task_id) as [E|E]; simpl.
  - destruct (String.eqb_spec (id x) other); [congruence | exact IH].
  - destruct (id x =? other)%string; [reflexivity | exact IH].
Qed.

(** X5. [delete_task] on an id that the store does not read reports
    [False] and leaves both files as they are. On a store whose records
    carry ids it changes nothing for the other ids, whether or not the id
    was found. *)
Theorem delete_task_missing_and_frame (h h' : HashOracle) (s : TaskStorage)
  (task_id : string) :
  (load_task h s task_id = None -> delete_task h s task_id = (false, s)) /\
  (records_have_ids s ->
   forall other, other <> task_id ->
     load_task h' (snd (delete_task h s task_id)) other = load_task h s other).
Proof.
  split.
  - unfold load_task, delete_task. intros Hnone.
    rewrite filter_all_true.
    + now rewrite Nat.ltb_irrefl.
    + intros x Hx. apply (find_none _ _ Hnone) in Hx. now rewrite Hx.
  - intros Hids other Hne.
    destruct (load_task h s task_id) as [t|] eqn:E.
    + rewrite (delete_task_present h s task_id t E). cbn [snd].
      unfold load_task. rewrite load_all_tasks_valid.
      * cbn [tasks_file]. now apply find_filter_other_id.
      * cbn [tasks_file]. apply filter_valid, load_all_tasks_all_valid.
    + assert (Hd : delete_task h s task_id = (false, s)).
      { unfold load_task, delete_task in *. rewrite filter_all_true.
        - now rewrite Nat.ltb_irrefl.
        - intros x Hx. apply (find_none _ _ E) in Hx. now rewrite Hx. }
      rewrite Hd. cbn [snd]. unfold load_task, load_all_tasks.
      now rewrite !(load_records_ids _ _ _ Hids).
Qed.

Lemma delete_task_archive h s task_id :
  archive_file (snd (delete_task h s task_id)) = archive_file s.
Proof.
  unfold delete_task. now destruct (_ <? _).
Qed.

Lemma archive_task_archive h1 h2 s task_id :
  archive_file (snd (archive_task h1 h2 s task_id)) =
  archive_file s ++
  match load_task h1 s task_id with Some t => [t] | None => [] end.
Proof.
  unfold archive_task. destruct (load_task h1 s task_id) as [t|].
  - now rewrite delete_task_archive.
  - now rewrite app_nil_r.
Qed.

(** X6. The archive log is append-only: [save_task] and [delete_task] leave
    it as it is, [archive_task] appends the record it read or nothing, and
    [update_task_status] appends at most one record, and none unless the
    new status is [done] and [auto_archive] is set. *)
Theorem archive_is_append_only (v : Vca) (hs : nat -> HashOracle)
  (h1 h2 : HashOracle) (s : TaskStorage) (task : Task) (task_id : string)
  (new_status : TaskStatus) (auto_archive : bool) :
  archive_file (snd (save_task v h1 s task)) = archive_file s /\
  archive_file (snd (delete_task h1 s task_id)) = archive_file s /\
  archive_file (snd (archive_task h1 h2 s task_id)) =
    archive_file s ++
    match load_task h1 s task_id with Some t => [t] | None => [] end /\
  exists added,
    archive_file
      (snd (MissionControl.update_task_status v hs s task_id new_status
              auto_archive)) = archive_file s ++ added /\
    List.length added <= 1 /\
    (auto_archive && TaskStatus_eqb new_status DONE = false -> added = []).
Proof.
  split; [reflexivity|]. split; [apply delete_task_archive|].
  split; [apply archive_task_archive|].
  unfold MissionControl.update_task_status.
  destruct (load_task (hs 0) s task_id) as [t|].
  - unfold save_task. cbv beta iota zeta.
    destruct (auto_archive && TaskStatus_eqb new_status DONE).
    + destruct (get_dependents _ _ _) as [|d ds].
      * cbn [snd]. rewrite archive_task_archive. cbn [archive_file].
        eexists. split; [reflexivity|].
        split; [destruct (load_task _ _ _); simpl; lia | discriminate].
      * exists []. cbn [snd archive_file]. rewrite app_nil_r.
        split; [reflexivity|]. split; [simpl; lia | discriminate].
    + exists []. cbn [snd archive_file]. rewrite app_nil_r.
      split; [reflexivity|]. split; [simpl; lia | reflexivity].
  - exists []. cbn [snd]. rewrite app_nil_r.
    split; [reflexivity|]. split; [simpl; lia | reflexivity].
Qed.

(* ================================================================== *)
(** * The invariant of the store *)
(* ================================================================== *)

Lemma store_inv_load h s :
  store_inv s ->
  load_all_tasks h s = filter priority_ok (tasks_file s) /\
  unique_ids (load_all_tasks h s).
Proof.
  intros [Hids Hnd]. unfold unique_ids, load_all_tasks.
  rewrite (load_records_ids _ _ _ Hids). auto.
Qed.

Lemma store_inv_of_valid tasks archive :
  Forall Task_valid tasks -> NoDup (map id tasks) ->
  store_inv (mkTaskStorage tasks archive).
Proof.
  intros Hv Hnd. split.
  - unfold records_have_ids. cbn [tasks_file].
    eapply Forall_impl; [|exact Hv]. intros a [_ H]. exact H.
  - cbn [tasks_file]. now rewrite filter_priority_ok_valid.
Qed.

Lemma upsert_ids task tasks :
  map id (upsert task tasks) =
  if str_mem (id task) (map id tasks) then map id tasks
  else map id tasks ++ [id task].
Proof.
  induction tasks as [|x tasks IH]; simpl; [reflexivity|].
  rewrite (String.eqb_sym (id task) (id x)).
  destruct (String.eqb_spec (id x) (id task)) as [E|E]; simpl.
  - now rewrite E.
  - rewrite IH. now destruct (str_mem (id task) (map id tasks)).
Qed.

Lemma upsert_unique task tasks :
  unique_ids tasks -> unique_ids (upsert task tasks).
Proof.
  unfold unique_ids. intros H. rewrite upsert_ids.
  destruct (str_mem (id task) (map id tasks)) eqn:E; [exact H|].
  apply str_mem_false in E.
  apply NoDup_app_disjoint; [exact H | repeat constructor; tauto |].
  intros a Ha [<-|[]]. contradiction.
Qed.

Lemma filter_unique (f : Task -> bool) tasks :
  unique_ids tasks -> unique_ids (filter f tasks).
Proof.
  unfold unique_ids. induction tasks as [|x tasks IH]; simpl; [auto|].
  intros Hnd. inversion Hnd as [|? ? Hnotin Hnd']; subst.
  destruct (f x); simpl; [|auto].
  constructor; [|auto]. intros Hin. apply Hnotin.
  apply in_map_iff in Hin. destruct Hin as (y & Hy & Hin).
  apply filter_In in Hin. rewrite <- Hy. apply in_map. tauto.
Qed.

Lemma filter_have_ids (f : Task -> bool) tasks :
  Forall (fun record => id record <> ""%string) tasks ->
  Forall (fun record => id record <> ""%string) (filter f tasks).
Proof.
  rewrite !Forall_forall. intros H x Hx. apply filter_In in Hx. now apply H.
Qed.

Lemma save_task_inv v h s task :
  store_inv s -> id task <> ""%string ->
  store_inv (snd (save_task v h s task)).
Proof.
  intros Hinv Hid. destruct (store_inv_load h s Hinv) as [_ Hu].
  unfold save_task. cbn [snd]. split.
  - unfold records_have_ids. cbn [tasks_file].
    apply upsert_have_ids; [exact Hid | apply load_all_tasks_all_valid].
  - cbn [tasks_file]. apply filter_unique. now apply upsert_unique.
Qed.

Lemma delete_task_inv h s task_id :
  store_inv s -> store_inv (snd (delete_task h s task_id)).
Proof.
  intros Hinv. destruct (store_inv_load h s Hinv) as [_ Hu].
  unfold delete_task. destruct (_ <? _); [|exact Hinv]. cbn [snd].
  apply store_inv_of_valid.
  - apply filter_valid, load_all_tasks_all_valid.
  - now apply filter_unique.
Qed.

Lemma archive_only_inv s archive :
  store_inv s -> store_inv (mkTaskStorage (tasks_file s) archive).
Proof. intros H. exact H. Qed.

Lemma archive_task_inv h1 h2 s task_id :
  store_inv s -> store_inv (snd (archive_task h1 h2 s task_id)).
Proof.
  intros Hinv. unfold archive_task.
  destruct (load_task h1 s task_id); [|exact Hinv].
  apply delete_task_inv. now apply archive_only_inv.
Qed.

(** X7. The three writers of the store keep its invariant (every record
    carries an id, the valid records have distinct ids): [save_task] of a
    task that carries an id, [delete_task] and [archive_task]. In
    particular the ids that a later read returns are unique. *)
Theorem storage_writers_keep_invariant (v : Vca) (h h1 h2 h' : HashOracle)
  (s : TaskStorage) (task : Task) (task_id : string) :
  store_inv s ->
  (id task <> ""%string ->
   store_inv (snd (save_task v h s task)) /\
   unique_ids (load_all_tasks h' (snd (save_task v h s task)))) /\
  (store_inv (snd (delete_task h s task_id)) /\
   unique_ids (load_all_tasks h' (snd (delete_task h s task_id)))) /\
  (store_inv (snd (archive_task h1 h2 s task_id)) /\
   unique_ids (load_all_tasks h' (snd (archive_task h1 h2 s task_id)))).
Proof.
  intros Hinv. split; [|split].
  - intros Hid. pose proof (save_task_inv v h s task Hinv Hid) as H.
    split; [exact H | apply (store_inv_load h' _ H)].
  - pose proof (delete_task_inv h s task_id Hinv) as H.
    split; [exact H | apply (store_inv_load h' _ H)].
  - pose proof (archive_task_inv h1 h2 s task_id Hinv) as H.
    split; [exact H | apply (store_inv_load h' _ H)].
Qed.

Lemma load_task_id h s task_id t :
  load_task h s task_id = Some t -> id t = task_id /\ Task_valid t.
Proof.
  unfold load_task. intros H. apply find_some in H. destruct H as [Hin Hid].
  split; [now apply String.eqb_eq|].
  pose proof (load_all_tasks_all_valid h s) as Hv.
  rewrite Forall_forall in Hv. now apply Hv.
Qed.

Lemma update_task_status_inv v hs s task_id new_status auto_archive :
  store_inv s ->
  store_inv (snd (MissionControl.update_task_status v hs s task_id new_status
                    auto_archive)).
Proof.
  intros Hinv. unfold MissionControl.update_task_status.
  destruct (load_task (hs 0) s task_id) as [t|] eqn:E; [|exact Hinv].
  destruct (load_task_id _ _ _ _ E) as [_ [_ Hid]].
  pose proof (save_task_inv v (hs 1) s (set_status new_status t) Hinv Hid) as H1.
  destruct (save_task v (hs 1) s (set_status new_status t)) as [t' s1].
  cbn [snd] in *.
  destruct (auto_archive && TaskStatus_eqb new_status DONE); [|exact H1].
  destruct (get_dependents (hs 2) s1 task_id); [|exact H1].
  cbn [snd]. now apply archive_task_inv.
Qed.

Lemma update_task_inv v hs s task_id title description depends_on tags
  priority status :
  store_inv s ->
  store_inv (snd (MissionControl.update_task v hs s task_id title description
                    depends_on tags priority status)).
Proof.
  intros Hinv. unfold MissionControl.update_task.
  destruct (load_task (hs 0) s task_id) as [t|] eqn:E; [|exact Hinv].
  destruct (load_task_id _ _ _ _ E) as [_ [_ Hid]].
  match goal with
  | |- context [save_task v (hs 1) s ?x] =>
      pose proof (save_task_inv v (hs 1) s x Hinv) as H1;
      destruct (save_task v (hs 1) s x) as [t' s1]
  end.
  cbn [snd] in *. apply H1.
  destruct title, description, depends_on, tags, priority, status; exact Hid.
Qed.

Lemma create_task_inv v h hash_hex created updated s title description
  depends_on tags priority task s' :
  store_inv s ->
  MissionControl.create_task v h hash_hex created updated s title description
    depends_on tags priority = Some (task, s') ->
  store_inv s'.
Proof.
  intros Hinv. unfold MissionControl.create_task.
  destruct (Task_validate _ _) as [t|] eqn:E; [|discriminate].
  intros [= _ <-]. apply save_task_inv; [exact Hinv|].
  apply Task_validate_Some in E. apply E.
Qed.

(** X8. The operations of the facade keep the invariant of the store:
    after [create_task], [update_task] or [update_task_status], under any
    arguments, every record still carries an id and the ids that a read
    returns are still unique. *)
Theorem facade_keeps_invariant (v : Vca) (hs : nat -> HashOracle)
  (h h' : HashOracle) (hash_hex created updated : string) (s : TaskStorage)
  (task_id title description : string) (new_title new_description : option string)
  (depends_on tags : option (list string)) (priority : Z)
  (new_priority : option Z) (new_status : option TaskStatus)
  (status : TaskStatus) (auto_archive : bool) :
  store_inv s ->
  (forall task s',
      MissionControl.create_task v h hash_hex created updated s title
        description depends_on tags priority = Some (task, s') ->
      store_inv s' /\ unique_ids (load_all_tasks h' s')) /\
  (let s' := snd (MissionControl.update_task v hs s task_id new_title
                    new_description depends_on tags new_priority new_status) in
   store_inv s' /\ unique_ids (load_all_tasks h' s')) /\
  (let s' := snd (MissionControl.update_task_status v hs s task_id status
                    auto_archive) in
   store_inv s' /\ unique_ids (load_all_tasks h' s')).
Proof.
  intros Hinv. split; [|split].
  - intros task s' E.
    pose proof (create_task_inv _ _ _ _ _ _ _ _ _ _ _ _ _ Hinv E) as H.
    split; [exact H | apply (store_inv_load h' _ H)].
  - cbv zeta.
    pose proof (update_task_inv v hs s task_id new_title new_description
                  depends_on tags new_priority new_status Hinv) as H.
    split; [exact H | apply (store_inv_load h' _ H)].
  - cbv zeta.
    pose proof (update_task_status_inv v hs s task_id status auto_archive Hinv)
      as H.
    split; [exact H | apply (store_inv_load h' _ H)].
Qed.

(* ================================================================== *)
(** * Further properties of the facade *)
(* ================================================================== *)

Lemma load_task_after_save v h h' s task :
  Task_valid task ->
  load_task h' (snd (save_task v h s task)) (id task) =
  Some (refresh_metadata v task).
Proof.
  intros Hv. unfold load_task. rewrite save_task_reload by exact Hv.
  exact (find_upsert (refresh_metadata v task) _).
Qed.

(** X9. [update_task_status] besides the archiving case: on an id that the
    store does not read it returns [None] and writes nothing; on an
    existing task, when [auto_archive] is off or the new status is not
    [done], the task stays in the active set with the new status and
    refreshed metadata, all other fields as they were, and the archive is
    not touched. *)
Theorem update_task_status_plain (v : Vca) (hs : nat -> HashOracle)
  (h' : HashOracle) (s : TaskStorage) (task_id : string)
  (new_status : TaskStatus) (auto_archive : bool) :
  (load_task (hs 0) s task_id = None ->
   MissionControl.update_task_status v hs s task_id new_status auto_archive =
     (None, s)) /\
  (forall t,
      load_task (hs 0) s task_id = Some t ->
      auto_archive && TaskStatus_eqb new_status DONE = false ->
      let updated := refresh_metadata v (set_status new_status t) in
      let s' := snd (MissionControl.update_task_status v hs s task_id
                       new_status auto_archive) in
      fst (MissionControl.update_task_status v hs s task_id new_status
             auto_archive) = Some updated /\
      MissionControl.get_task h' s' task_id = Some updated /\
      status updated = new_status /\
      set_metadata (metadata t) (set_status (status t) updated) = t /\
      archive_file s' = archive_file s).
Proof.
  split.
  - intros E. unfold MissionControl.update_task_status. now rewrite E.
  - intros t E Hno. cbv zeta.
    destruct (load_task_id _ _ _ _ E) as [Hid Hv].
    assert (Hv' : Task_valid (set_status new_status t)) by (destruct Hv; now split).
    pose proof (load_task_after_save v (hs 1) h' s _ Hv') as Hl.
    unfold MissionControl.update_task_status, MissionControl.get_task.
    rewrite E. unfold save_task in *. cbv beta iota zeta. rewrite Hno.
    cbn [fst snd] in *.
    split; [reflexivity|]. split.
    + change (id (set_status new_status t)) with (id t) in Hl.
      rewrite Hid in Hl. exact Hl.
    + split; [reflexivity|]. split; [now destruct t | reflexivity].
Qed.

(** The fields of a task after the assignments of [update_task]. *)
Lemma update_task_result v hs s task_id t new_title new_description
  new_depends_on new_tags new_priority new_status :
  load_task (hs 0) s task_id = Some t ->
  exists patched,
    MissionControl.update_task v hs s task_id new_title new_description
      new_depends_on new_tags new_priority new_status =
      (Some (fst (save_task v (hs 1) s patched)),
       snd (save_task v (hs 1) s patched)) /\
    id patched = id t /\
    title patched = match new_title with Some x => x | None => title t end /\
    description patched =
      match new_description with Some x => x | None => description t end /\
    depends_on patched =
      match new_depends_on with Some x => x | None => depends_on t end /\
    tags patched = match new_tags with Some x => x | None => tags t end /\
    priority patched =
      match new_priority with Some x => x | None => priority t end /\
    status patched =
      match new_status with Some x => x | None => status t end /\
    blocked_by patched = blocked_by t /\
    metadata patched = metadata t.
Proof.
  intros E. unfold MissionControl.update_task. rewrite E.
  eexists. split; [reflexivity|].
  destruct new_title, new_description, new_depends_on, new_tags, new_priority,
    new_status; repeat split; reflexivity.
Qed.

(** X10. [update_task] persists the patch: on an existing task, when the
    priority that results is in 1..10, the task that is returned is the one
    a later [get_task] returns; each field named in the call holds the new
    value, each field left out holds the old one, and the id, [blocked_by]
    and the creation timestamp are never changed. *)
Theorem update_task_persists (v : Vca) (hs : nat -> HashOracle)
  (h' : HashOracle) (s : TaskStorage) (task_id : string) (t : Task)
  (new_title new_description : option string)
  (new_depends_on new_tags : option (list string)) (new_priority : option Z)
  (new_status : option TaskStatus) :
  load_task (hs 0) s task_id = Some t ->
  (forall p, new_priority = Some p -> (1 <= p <= 10)%Z) ->
  let r := MissionControl.update_task v hs s task_id new_title new_description
             new_depends_on new_tags new_priority new_status in
  exists updated,
    fst r = Some updated /\
    MissionControl.get_task h' (snd r) task_id = Some updated /\
    id updated = task_id /\
    title updated = match new_title with Some x => x | None => title t end /\
    description updated =
      match new_description with Some x => x | None => description t end /\
    depends_on updated =
      match new_depends_on with Some x => x | None => depends_on t end /\
    tags updated = match new_tags with Some x => x | None => tags t end /\
    priority updated =
      match new_priority with Some x => x | None => priority t end /\
    status updated =
      match new_status with Some x => x | None => status t end /\
    blocked_by updated = blocked_by t /\
    created_at (metadata updated) = created_at (metadata t).
Proof.
  intros E Hp. cbv zeta.
  destruct (update_task_result v hs s task_id t new_title new_description
              new_depends_on new_tags new_priority new_status E)
    as (patched & -> & Hid & Ht & Hd & Hdep & Htag & Hpri & Hst & Hb & Hm).
  destruct (load_task_id _ _ _ _ E) as [Hidt [Hpt Hne]].
  assert (Hv : Task_valid patched).
  { split; [|now rewrite Hid].
    unfold priority_ok. rewrite Hpri. destruct new_priority as [p|].
    - specialize (Hp p eq_refl).
      apply andb_true_iff. split; apply Z.leb_le; lia.
    - exact Hpt. }
  exists (refresh_metadata v patched). cbn [fst snd].
  split; [reflexivity|]. split.
  - unfold MissionControl.get_task. rewrite <- Hidt, <- Hid.
    now apply load_task_after_save.
  - simpl. rewrite Hm. repeat split; congruence.
Qed.

Lemma find_filter_upsert_dropped (P : Task -> bool) task tasks :
  unique_ids tasks -> P task = false ->
  find (fun t => (id t =? id task)%string) (filter P (upsert task tasks)) = None.
Proof.
  unfold unique_ids. intros Hnd HP.
  induction tasks as [|x tasks IH]; simpl.
  - now rewrite HP.
  - inversion Hnd as [|? ? Hnotin Hnd']; subst.
    destruct (String.eqb_spec (id x) (id task)) as [E|E]; simpl.
    + rewrite HP.
      destruct (find (fun t => (id t =? id task)%string) (filter P tasks))
        as [y|] eqn:F; [|reflexivity].
      apply find_some in F. destruct F as [Hin Hid].
      apply filter_In in Hin. apply String.eqb_eq in Hid.
      exfalso. apply Hnotin. rewrite E, <- Hid. apply in_map. tauto.
    + destruct (P x); simpl; [|now apply IH].
      destruct (String.eqb_spec (id x) (id task)); [contradiction|].
      now apply IH.
Qed.

(** X11. [update_task] does not validate what it assigns: given a priority
    outside 1..10 on an existing task of a store with unique ids, it
    returns the task with that priority, and the task is then gone from the
    active set: the record that was written fails validation on every later
    read. *)
Theorem update_task_bad_priority_loses_task (v : Vca)
  (hs : nat -> HashOracle) (h' : HashOracle) (s : TaskStorage)
  (task_id : string) (t : Task) (p : Z)
  (new_title new_description : option string)
  (new_depends_on new_tags : option (list string))
  (new_status : option TaskStatus) :
  load_task (hs 0) s task_id = Some t ->
  unique_ids (load_all_tasks (hs 1) s) ->
  (p < 1 \/ 10 < p)%Z ->
  let r := MissionControl.update_task v hs s task_id new_title new_description
             new_depends_on new_tags (Some p) new_status in
  (exists updated, fst r = Some updated /\ priority updated = p /\
                   id updated = task_id) /\
  MissionControl.get_task h' (snd r) task_id = None.
Proof.
  intros E Hu Hp. cbv zeta.
  destruct (update_task_result v hs s task_id t new_title new_description
              new_depends_on new_tags (Some p) new_status E)
    as (patched & -> & Hid & _ & _ & _ & _ & Hpri & _).
  destruct (load_task_id _ _ _ _ E) as [Hidt [_ Hne]].
  cbn [fst snd]. split.
  - exists (refresh_metadata v patched). simpl. repeat split; congruence.
  - unfold MissionControl.get_task, load_task.
    rewrite save_task_reload_ids by congruence.
    assert (Hbad : priority_ok (refresh_metadata v patched) = false).
    { unfold priority_ok. simpl. rewrite Hpri.
      apply andb_false_iff. rewrite !Z.leb_gt. lia. }
    rewrite <- Hidt, <- Hid.
    change (id patched) with (id (refresh_metadata v patched)).
    now apply find_filter_upsert_dropped.
Qed.

(** X12. [create_task]: a priority outside 1..10 is refused before anything
    is written. Otherwise the new task has the generated id, status [todo],
    empty [blocked_by] and the given fields, a later [get_task] on its id
    returns it, the archive is untouched, and, when it has no dependencies
    and the ids of the store are unique, it is in the ready queue at
    once. *)
Theorem create_task_creates (v : Vca) (h h' : HashOracle)
  (hash_hex created updated : string) (s : TaskStorage)
  (new_title new_description : string)
  (new_depends_on new_tags : option (list string)) (new_priority : Z) :
  let r := MissionControl.create_task v h hash_hex created updated s new_title
             new_description new_depends_on new_tags new_priority in
  ((new_priority < 1 \/ 10 < new_priority)%Z -> r = None) /\
  ((1 <= new_priority <= 10)%Z ->
   exists task s',
     r = Some (task, s') /\
     id task = ("m-" ++ hash_hex)%string /\
     title task = new_title /\
     description task = new_description /\
     status task = TODO /\
     depends_on task = or_empty new_depends_on /\
     blocked_by task = [] /\
     tags task = or_empty new_tags /\
     priority task = new_priority /\
     created_at (metadata task) = created /\
     MissionControl.get_task h' s' (id task) = Some task /\
     archive_file s' = archive_file s /\
     (or_empty new_depends_on = [] ->
      unique_ids (load_all_tasks h s) ->
      In task (MissionControl.list_ready_work h' s'))).
Proof.
  cbv zeta. unfold MissionControl.create_task, Task_validate, priority_ok.
  cbn [priority]. split.
  - intros Hp.
    assert (Hb : ((1 <=? new_priority) && (new_priority <=? 10))%Z = false)
      by (apply andb_false_iff; rewrite !Z.leb_gt; lia).
    now rewrite Hb.
  - intros Hp.
    assert (Hb : ((1 <=? new_priority) && (new_priority <=? 10))%Z = true)
      by (apply andb_true_iff; split; apply Z.leb_le; lia).
    rewrite Hb. unfold generate_id_if_empty. cbn [id]. simpl String.eqb.
    cbv iota.
    set (fresh := set_id ("m-" ++ hash_hex)%string
                    (mkTask "" new_title new_description TODO
                       (or_empty new_depends_on) [] (or_empty new_tags)
                       new_priority (mkGitMetadata "" "" created updated))).
    assert (Hv : Task_valid fresh).
    { split; [exact Hb | discriminate]. }
    exists (refresh_metadata v fresh), (snd (save_task v h s fresh)).
    split; [reflexivity|].
    assert (Hload : load_all_tasks h' (snd (save_task v h s fresh)) =
                    upsert (refresh_metadata v fresh) (load_all_tasks h s))
      by now apply save_task_reload.
    repeat (split; [reflexivity|]).
    split; [exact (load_task_after_save v h h' s fresh Hv)|].
    split; [reflexivity|].
    intros Hdeps Hu.
    rewrite list_ready_work_eq. cbv zeta. rewrite Hload.
    apply (Permutation_in _ (Permutation_sym (sort_by_key_perm _))).
    rewrite build_task_dict_NoDup by now apply upsert_unique.
    rewrite dict_values_keyed. apply filter_In. split.
    + assert (F := find_upsert (refresh_metadata v fresh) (load_all_tasks h s)).
      apply find_some in F. tauto.
    + unfold ready_in. simpl. now rewrite Hdeps.
Qed.

(* ================================================================== *)
(** * The blocked report and the ready queue *)
(* ================================================================== *)

Lemma fold_blocked_dep d deps acc :
  fold_left (blocked_dep d) deps acc =
  acc ++ filter (fun dep_id => negb (dep_done d dep_id)) deps.
Proof.
  revert acc. induction deps as [|dep deps IH]; intros acc; simpl.
  - now rewrite app_nil_r.
  - rewrite IH. unfold blocked_dep, dep_done.
    destruct (dict_get dep d) as [t|]; simpl.
    + destruct (TaskStatus_eqb (status t) DONE); simpl;
        [reflexivity | now rewrite <- app_assoc].
    + now rewrite <- app_assoc.
Qed.

Lemma filter_negb_nil {A : Type} (f : A -> bool) l :
  filter (fun x => negb (f x)) l = [] <-> forallb f l = true.
Proof.
  induction l as [|a l IH]; simpl; [tauto|].
  destruct (f a); simpl; [exact IH | split; discriminate].
Qed.

(** The test that sends a task of the dictionary to the blocked report. *)
Lemma blocked_step_eq d blocked k t :
  blocked_step d blocked (k, t) =
  if TaskStatus_eqb (status t) TODO && negb (forallb (dep_done d) (depends_on t))
  then blocked ++ [(t, blocking_of d t)] else blocked.
Proof.
  unfold blocked_step. destruct (TaskStatus_eqb (status t) TODO); simpl;
    [|reflexivity].
  rewrite (fold_blocked_dep d (depends_on t) []). simpl. fold (blocking_of d t).
  pose proof (filter_negb_nil (dep_done d) (depends_on t)) as H.
  fold (blocking_of d t) in H.
  destruct (blocking_of d t) as [|b bl] eqn:E.
  - rewrite (proj1 H eq_refl). reflexivity.
  - destruct (forallb (dep_done d) (depends_on t)); [|reflexivity].
    discriminate (proj2 H eq_refl).
Qed.

Lemma get_blocked_tasks_eq h s :
  let d0 := build_task_dict (load_all_tasks h s) in
  get_blocked_tasks h s =
  map (fun t => (t, blocking_of d0 t))
      (filter (fun t => TaskStatus_eqb (status t) TODO &&
                        negb (forallb (dep_done d0) (depends_on t)))
              (dict_values d0)).
Proof.
  intros d0. unfold get_blocked_tasks, _build_graph. fold d0.
  assert (G : forall items acc,
    fold_left (blocked_step d0) items acc =
    acc ++ map (fun t => (t, blocking_of d0 t))
               (filter (fun t => TaskStatus_eqb (status t) TODO &&
                                 negb (forallb (dep_done d0) (depends_on t)))
                       (dict_values items))).
  { induction items as [|[k t] items IH]; intros acc.
    - simpl. now rewrite app_nil_r.
    - cbn [fold_left]. rewrite IH, blocked_step_eq.
      unfold dict_values. cbn [map snd filter].
      destruct (TaskStatus_eqb (status t) TODO &&
                negb (forallb (dep_done d0) (depends_on t))); simpl;
        [now rewrite <- app_assoc | reflexivity]. }
  exact (G d0 []).
Qed.

Lemma filter_split_perm {A : Type} (f g h : A -> bool) l :
  (forall x, h x = f x || g x) -> (forall x, f x && g x = false) ->
  Permutation (filter f l ++ filter g l) (filter h l).
Proof.
  intros Hh Hfg. induction l as [|a l IH]; simpl; [constructor|].
  rewrite (Hh a). specialize (Hfg a).
  destruct (f a), (g a); simpl in *; try discriminate.
  - now constructor.
  - etransitivity; [symmetry; apply Permutation_middle|]. now constructor.
  - exact IH.
Qed.

(** X13. On a store that satisfies the invariant, the [todo] tasks split
    into the ready queue and the blocked report: the report lists, in file
    order, the [todo] tasks that are not ready, each with its unfinished or
    missing dependencies in [depends_on] order (never an empty list); no
    task is in both, and the two lengths add up to the number of [todo]
    tasks. *)
Theorem ready_blocked_partition (h h' : HashOracle) (s : TaskStorage) :
  store_inv s ->
  let tasks := load_all_tasks h s in
  let ready := MissionControl.list_ready_work h s in
  let blocked := MissionControl.list_blocked h' s in
  let todo := filter (fun t => TaskStatus_eqb (status t) TODO) tasks in
  blocked =
    map (fun t =>
           (t, filter (fun dep_id =>
                         negb (existsb (fun d => (id d =? dep_id)%string &&
                                                 TaskStatus_eqb (status d) DONE)
                                       tasks))
                      (depends_on t)))
        (filter (fun t => TaskStatus_eqb (status t) TODO &&
                          negb (is_readyb tasks t)) tasks) /\
  (forall t blockers, In (t, blockers) blocked -> blockers <> []) /\
  (forall t, In t ready -> ~ In t (map fst blocked)) /\
  Permutation (ready ++ map fst blocked) todo /\
  List.length ready + List.length blocked = List.length todo.
Proof.
  intros Hinv. cbv zeta.
  destruct (store_inv_load h s Hinv) as [Eh Hu].
  destruct (store_inv_load h' s Hinv) as [Eh' _].
  assert (Eload : load_all_tasks h' s = load_all_tasks h s) by congruence.
  set (tasks := load_all_tasks h s) in *.
  assert (Hblocked : MissionControl.list_blocked h' s =
            map (fun t =>
                   (t, filter (fun dep_id =>
                         negb (existsb (fun d => (id d =? dep_id)%string &&
                                                 TaskStatus_eqb (status d) DONE)
                                       tasks))
                      (depends_on t)))
                (filter (fun t => TaskStatus_eqb (status t) TODO &&
                                  negb (is_readyb tasks t)) tasks)).
  { unfold MissionControl.list_blocked. rewrite get_blocked_tasks_eq.
    cbv zeta. rewrite Eload.
    rewrite (build_task_dict_NoDup _ Hu), dict_values_keyed.
    erewrite filter_ext.
    - apply map_ext. intros t. f_equal. unfold blocking_of.
      apply filter_ext. intros dep_id. now rewrite dep_done_unique.
    - intros t. unfold is_readyb.
      destruct (TaskStatus_eqb (status t) TODO); simpl; [|reflexivity].
      f_equal. apply forallb_pointwise. intros dep_id.
      now apply dep_done_unique. }
  assert (Hready : Permutation (MissionControl.list_ready_work h s)
                               (filter (is_readyb tasks) tasks)).
  { rewrite list_ready_work_eq. cbv zeta. fold tasks.
    rewrite (build_task_dict_NoDup _ Hu), dict_values_keyed, sort_by_key_perm.
    erewrite filter_ext; [reflexivity|].
    intros t. now apply ready_in_unique. }
  assert (Hfst : map fst (MissionControl.list_blocked h' s) =
                 filter (fun t => TaskStatus_eqb (status t) TODO &&
                                  negb (is_readyb tasks t)) tasks).
  { rewrite Hblocked, map_map. simpl. apply map_id. }
  assert (Hperm : Permutation
            (MissionControl.list_ready_work h s ++
             map fst (MissionControl.list_blocked h' s))
            (filter (fun t => TaskStatus_eqb (status t) TODO) tasks)).
  { rewrite Hfst, Hready. apply filter_split_perm.
    - intros t. unfold is_readyb.
      destruct (TaskStatus_eqb (status t) TODO); simpl; [|reflexivity].
      now destruct (forallb _ (depends_on t)).
    - intros t. now destruct (is_readyb tasks t), (TaskStatus_eqb (status t) TODO). }
  split; [exact Hblocked|]. split; [|split; [|split]].
  - rewrite Hblocked. intros t blockers Hin.
    apply in_map_iff in Hin. destruct Hin as (t' & [= <- <-] & Hin).
    apply filter_In in Hin. destruct Hin as [_ Hin].
    apply andb_true_iff in Hin. destruct Hin as [Hs Hnr].
    unfold is_readyb in Hnr. rewrite Hs in Hnr. simpl in Hnr.
    intros Hnil. apply filter_negb_nil in Hnil. rewrite Hnil in Hnr.
    discriminate.
  - intros t Hr Hb. rewrite Hfst in Hb.
    apply (Permutation_in _ Hready) in Hr.
    apply filter_In in Hr. apply filter_In in Hb.
    destruct Hr as [_ Hr]. destruct Hb as [_ Hb]. rewrite Hr in Hb.
    now rewrite andb_false_r in Hb.
  - exact Hperm.
  - apply Permutation_length in Hperm.
    now rewrite length_app, length_map in Hperm.
Qed.

Lemma dict_values_ids tasks :
  map id (dict_values (build_task_dict tasks)) = dict_keys (build_task_dict tasks).
Proof.
  unfold dict_values, dict_keys. rewrite map_map. apply map_ext_in.
  intros [k t] Hin. simpl. now apply build_task_dict_values in Hin.
Qed.

Lemma NoDup_map_filter {A B : Type} (g : A -> B) (f : A -> bool) l :
  NoDup (map g l) -> NoDup (map g (filter f l)).
Proof.
  induction l as [|a l IH]; simpl; [auto|].
  intros H. inversion H as [|? ? Hnotin Hnd]; subst.
  destruct (f a); simpl; [|now apply IH].
  constructor; [|now apply IH].
  intros Hin. apply Hnotin. apply in_map_iff in Hin.
  destruct Hin as (x & E & Hx). apply filter_In in Hx.
  rewrite <- E. apply in_map. tauto.
Qed.

(** X14. Whatever the active log holds, the ready queue names every id at
    most once, and a task of the queue is the last valid record of its id in
    the log: with an id written twice, the queue goes by the later record
    where [get_task] goes by the earlier one. *)
Theorem list_ready_work_distinct_ids (h : HashOracle) (s : TaskStorage) :
  let ready := MissionControl.list_ready_work h s in
  NoDup (map id ready) /\
  forall t, In t ready ->
    find (fun x => (id x =? id t)%string) (rev (load_all_tasks h s)) = Some t.
Proof.
  cbv zeta. rewrite list_ready_work_eq. cbv zeta.
  set (d0 := build_task_dict (load_all_tasks h s)).
  pose proof (sort_by_key_perm (filter (ready_in d0) (dict_values d0))) as Hp.
  split.
  - apply (Permutation_NoDup (Permutation_sym (Permutation_map id Hp))).
    apply NoDup_map_filter. unfold d0. rewrite dict_values_ids.
    apply build_task_dict_keys_NoDup.
  - intros t Hin. apply (Permutation_in _ Hp) in Hin.
    apply filter_In in Hin. destruct Hin as [Hin _].
    unfold dict_values in Hin. apply in_map_iff in Hin.
    destruct Hin as ([k t'] & E & Hin). simpl in E. subst t'.
    pose proof (build_task_dict_values _ _ _ Hin) as [_ Hid].
    apply In_dict_get in Hin; [|apply build_task_dict_keys_NoDup].
    rewrite <- Hid in Hin. unfold d0, build_task_dict in Hin.
    rewrite build_task_dict_get_acc in Hin. simpl in Hin.
    destruct (find (fun x => (id x =? id t)%string) (rev (load_all_tasks h s)));
      [exact Hin | discriminate].
Qed.

Lemma string_ltb_irrefl a : String.ltb a a = false.
Proof.
  pose proof (string_leb_ltb a a) as H.
  rewrite (proj2 (string_leb_cases a a) (or_introl eq_refl)) in H.
  now destruct (String.ltb a a).
Qed.

Lemma insert_by_key_same_key p c x l :
  filter (same_key p c) (insert_by_key x l) = filter (same_key p c) (x :: l).
Proof.
  induction l as [|y l IH]; [reflexivity|].
  cbn [insert_by_key]. destruct (key_lt (sort_key y) (sort_key x)) eqn:E;
    [|reflexivity].
  cbn [filter] in *. rewrite IH.
  destruct (same_key p c x) eqn:Ex; [|reflexivity].
  destruct (same_key p c y) eqn:Ey; [|reflexivity].
  exfalso. unfold same_key in Ex, Ey.
  apply andb_true_iff in Ex. apply andb_true_iff in Ey.
  destruct Ex as [Ex1 Ex2]. destruct Ey as [Ey1 Ey2].
  apply Z.eqb_eq in Ex1. apply Z.eqb_eq in Ey1.
  apply String.eqb_eq in Ex2. apply String.eqb_eq in Ey2.
  unfold key_lt, sort_key in E. simpl in E.
  rewrite Ex1, Ey1, Ex2, Ey2, Z.ltb_irrefl, Z.eqb_refl, string_ltb_irrefl in E.
  discriminate.
Qed.

Lemma sort_by_key_same_key p c l :
  filter (same_key p c) (sort_by_key l) = filter (same_key p c) l.
Proof.
  induction l as [|x l IH]; [reflexivity|].
  unfold sort_by_key in *. cbn [fold_right].
  rewrite insert_by_key_same_key. cbn [filter]. now rewrite IH.
Qed.

(** X15. The sort of the ready queue is stable: on a store that satisfies
    the invariant, the ready tasks that share a priority and a creation
    timestamp come in the order of their records in the active log. *)
Theorem list_ready_work_ties_in_file_order (h : HashOracle) (s : TaskStorage)
  (p : Z) (c : string) :
  store_inv s ->
  let tasks := load_all_tasks h s in
  filter (same_key p c) (MissionControl.list_ready_work h s) =
  filter (same_key p c) (filter (is_readyb tasks) tasks).
Proof.
  intros Hinv. cbv zeta. destruct (store_inv_load h s Hinv) as [_ Hu].
  rewrite list_ready_work_eq. cbv zeta.
  rewrite sort_by_key_same_key.
  rewrite (build_task_dict_NoDup _ Hu), dict_values_keyed.
  f_equal. apply filter_ext. intros t. now apply ready_in_unique.
Qed.

(* ================================================================== *)
(** * The dependency chain on any graph *)
(* ================================================================== *)

Section ChainTotal.
Variable set_iter : list string -> list string.
Hypothesis set_iter_In : forall l x, In x (set_iter l) <-> In x l.
Variable d : dict Task.
Hypothesis d_ids : forall k t, dict_get k d = Some t -> id t = k.

Lemma chain_visit_nil n V : chain_visit d n V V [].
Proof.
  unfold chain_visit. simpl. split; [tauto|]. split; [tauto|].
  split; [constructor|]. split; intros; tauto.
Qed.

Lemma chain_visit_app m n V V1 C2a V2 C2b :
  clos_refl_trans string (dict_edge d) n m ->
  chain_visit d m V V1 C2a ->
  chain_visit d n V1 V2 C2b ->
  chain_visit d n V V2 (C2a ++ C2b).
Proof.
  intros Hnm (Ha1 & Ha2 & Ha3 & Ha4 & Ha5) (Hb1 & Hb2 & Hb3 & Hb4 & Hb5).
  unfold chain_visit. rewrite map_app.
  split; [|split; [|split; [|split]]].
  - intros x. rewrite Hb1, Ha1, in_app_iff. tauto.
  - intros x Hx. apply in_app_iff in Hx. destruct Hx as [Hx|Hx].
    + now apply Ha2.
    + intros HV. apply (Hb2 x Hx). apply Ha1. now left.
  - apply NoDup_app_disjoint; auto.
    intros x Hx Hx'. apply (Hb2 x Hx'). apply Ha1. now right.
  - intros t Ht. apply in_app_iff in Ht. destruct Ht as [Ht|Ht].
    + split; [now apply Ha4|].
      eapply rt_trans; [exact Hnm | now apply Ha4].
    + now apply Hb4.
  - intros t dep_id Ht Hdep Hk. apply in_app_iff in Ht. destruct Ht as [Ht|Ht].
    + apply Hb1. left. eapply Ha5; eauto.
    + eapply Hb5; eauto.
Qed.

Lemma chain_loop_total f n :
  chain_total_ok set_iter d f ->
  forall deps V C,
    (forall dep_id, In dep_id deps -> In dep_id (dict_keys d) ->
                    dict_edge d n dep_id) ->
    unvisited d V < f ->
    exists V' C2,
      chain_loop set_iter d (adj_of d) f deps (V, C) = Ok (V', C ++ C2) /\
      chain_visit d n V V' C2 /\
      (forall dep_id, In dep_id deps -> In dep_id (dict_keys d) ->
                      In dep_id V').
Proof.
  intros IHf. induction deps as [|dep rest IH]; intros V C Hedge Hfuel.
  - exists V, []. rewrite chain_loop_nil, app_nil_r.
    split; [reflexivity|]. split; [apply chain_visit_nil|]. intros ? [].
  - rewrite chain_loop_cons. destruct (dict_mem dep d) eqn:Emem.
    + apply dict_mem_true in Emem.
      assert (Hnd : dict_edge d n dep) by (apply Hedge; [now left | exact Emem]).
      destruct (IHf dep V C Emem Hfuel) as (V1 & C2a & E1 & P1 & Hdep & _).
      rewrite E1.
      assert (HV1 : forall x, In x V -> In x V1).
      { intros x Hx. destruct P1 as [P1 _]. apply P1. now left. }
      destruct (IH V1 (C ++ C2a)) as (V2 & C2b & E2 & P2 & Hrest).
      { intros dep' Hin. apply Hedge. now right. }
      { pose proof (unvisited_mono d V V1 HV1). lia. }
      exists V2, (C2a ++ C2b). rewrite E2, app_assoc.
      split; [reflexivity|]. split.
      * eapply chain_visit_app; eauto. now apply rt_step.
      * intros dep' [<-|Hin] Hk.
        -- destruct P2 as [P2 _]. apply P2. now left.
        -- now apply Hrest.
    + apply dict_mem_false in Emem.
      destruct (IH V C) as (V2 & C2b & E2 & P2 & Hrest); auto.
      { intros dep' Hin. apply Hedge. now right. }
      exists V2, C2b. split; [exact E2|]. split; [exact P2|].
      intros dep' [<-|Hin] Hk; [contradiction | now apply Hrest].
Qed.

Lemma chain_dfs_total f : chain_total_ok set_iter d f.
Proof.
  induction f as [|f IHf]; intros node V C Hk Hfuel.
  - lia.
  - rewrite chain_dfs_unfold. cbn [fst snd].
    destruct (str_mem node V) eqn:Emem.
    + apply str_mem_In in Emem. exists V, []. rewrite app_nil_r.
      split; [reflexivity|]. split; [apply chain_visit_nil|].
      split; [exact Emem|]. intros Hn. contradiction.
    + apply str_mem_false in Emem.
      destruct (dict_get node d) as [tn|] eqn:Eget;
        [|apply dict_get_None in Eget; contradiction].
      assert (Hadj : adj_get (adj_of d) node = depends_on tn).
      { unfold adj_of. rewrite adj_get_task_dict, Eget. reflexivity. }
      rewrite Hadj.
      assert (Hedge : forall dep_id, In dep_id (depends_on tn) ->
                        In dep_id (dict_keys d) -> dict_edge d node dep_id).
      { intros dep_id Hin Hkk. exists tn. auto. }
      destruct (chain_loop_total f node IHf (set_iter (depends_on tn))
                                 (node :: V) C)
        as (V1 & C2' & E & P & Hdeps).
      { intros dep_id Hin Hkk. apply Hedge; [now apply set_iter_In | exact Hkk]. }
      { pose proof (unvisited_add d V node Hk Emem). lia. }
      rewrite E. exists V1, (C2' ++ [tn]). rewrite app_assoc.
      split; [reflexivity|].
      assert (Hidn : id tn = node) by (now apply d_ids).
      destruct P as (P1 & P2 & P3 & P4 & P5).
      split; [|split].
      * unfold chain_visit. rewrite map_app. simpl. rewrite Hidn.
        split; [|split; [|split; [|split]]].
        -- intros x. rewrite P1, in_app_iff. simpl. tauto.
        -- intros x Hx. apply in_app_iff in Hx. destruct Hx as [Hx|[<-|[]]].
           ++ intros HV. apply (P2 x Hx). now right.
           ++ exact Emem.
        -- apply NoDup_app_disjoint; [exact P3 | repeat constructor; tauto |].
           intros a Ha [<-|[]]. apply (P2 node Ha). now left.
        -- intros t Ht. apply in_app_iff in Ht. destruct Ht as [Ht|[<-|[]]].
           ++ now apply P4.
           ++ rewrite Hidn. split; [exact Eget | apply rt_refl].
        -- intros t dep_id Ht Hdep Hkk.
           apply in_app_iff in Ht. destruct Ht as [Ht|[<-|[]]].
           ++ eapply P5; eauto.
           ++ apply Hdeps; [now apply set_iter_In | exact Hkk].
      * apply P1. left. now left.
      * intros _. exists C2', tn. split; reflexivity.
Qed.

Lemma dependency_chain_graph_total X :
  exists chain,
    dependency_chain_graph set_iter d (adj_of d) X = Ok chain /\
    NoDup (map id chain) /\
    (forall t, In t chain <->
               In X (dict_keys d) /\
               dict_get (id t) d = Some t /\
               clos_refl_trans string (dict_edge d) X (id t)) /\
    (In X (dict_keys d) ->
     exists front tX, chain = front ++ [tX] /\ dict_get X d = Some tX).
Proof.
  unfold dependency_chain_graph.
  destruct (dict_mem X d) eqn:Hmem; simpl negb; cbv iota.
  - apply dict_mem_true in Hmem.
    destruct (chain_dfs_total (S (List.length d)) X [] [])
      as (V' & C2 & E & P & HX & Hlast).
    { exact Hmem. }
    { unfold unvisited.
      pose proof (filter_length_le (fun k => negb (str_mem k [])) (dict_keys d))
        as Hle.
      unfold dict_keys in *. rewrite length_map in Hle. lia. }
    rewrite E. simpl. exists C2.
    destruct P as (P1 & P2 & P3 & P4 & P5).
    assert (Hclosed : forall m, clos_refl_trans string (dict_edge d) X m ->
                                In m (map id C2)).
    { intros m Hm. apply clos_rt_rtn1 in Hm. induction Hm as [|y z Hyz Hxy IH].
      - apply P1 in HX. destruct HX as [[]|HX]. exact HX.
      - destruct Hyz as (t & Hget & Hz & Hzk).
        apply in_map_iff in IH. destruct IH as (t' & Hid & Ht').
        destruct (P4 t' Ht') as [Hget' _]. rewrite Hid, Hget in Hget'.
        injection Hget' as ->.
        pose proof (P5 t' z Ht' Hz Hzk) as Hin.
        apply P1 in Hin. destruct Hin as [[]|Hin]. exact Hin. }
    split; [reflexivity|]. split; [exact P3|]. split.
    + intros t. split.
      * intros Ht. split; [exact Hmem | now apply P4].
      * intros (_ & Hget & Hreach).
        apply Hclosed, in_map_iff in Hreach. destruct Hreach as (t' & Hid & Ht').
        destruct (P4 t' Ht') as [Hget' _]. rewrite Hid, Hget in Hget'.
        injection Hget' as ->. exact Ht'.
    + intros _. apply Hlast. intros [].
  - apply dict_mem_false in Hmem. exists []. split; [reflexivity|].
    split; [constructor|]. split.
    + intros t. simpl. tauto.
    + intros H. contradiction.
Qed.
End ChainTotal.

(** The chain on a store of unique ids, in the words of the task list. *)
Lemma get_task_chain_all_graphs set_iter h s X :
  set_iter_ok set_iter ->
  unique_ids (load_all_tasks h s) ->
  exists chain,
    MissionControl.get_task_chain set_iter h s X = Ok chain /\
    NoDup (map id chain) /\
    (forall t, In t chain <->
               In t (load_all_tasks h s) /\
               reachable (load_all_tasks h s) X (id t)) /\
    (In X (map id (load_all_tasks h s)) ->
     exists front tX, chain = front ++ [tX] /\ id tX = X).
Proof.
  intros Hiter Hu. set (tasks := load_all_tasks h s) in *.
  unfold MissionControl.get_task_chain. rewrite get_dependency_chain_eq.
  fold tasks. cbv zeta. rewrite (build_task_dict_NoDup _ Hu).
  set (d := map keyed tasks).
  pose proof (dict_edge_keyed tasks) as Hedge.
  assert (Hreach : forall a b, clos_refl_trans string (dict_edge d) a b <->
                               reachable tasks a b).
  { apply clos_refl_trans_equiv. intros a b. now apply Hedge. }
  assert (Hd_ids : forall k t, dict_get k d = Some t -> id t = k).
  { intros k t H. unfold d in H. rewrite dict_get_keyed in H.
    apply find_some in H. now apply String.eqb_eq. }
  destruct (dependency_chain_graph_total set_iter (fun l => proj2 (Hiter l)) d
              Hd_ids X) as (chain & E & Hnd & Hin & Hlast).
  exists chain. split; [exact E|]. split; [exact Hnd|]. split.
  - intros t. rewrite Hin, Hreach. unfold d.
    rewrite dict_get_keyed_unique, dict_keys_keyed by exact Hu.
    split; [tauto|]. intros [Ht Hr]. split; [|tauto].
    apply clos_rt_rt1n in Hr. remember (id t) as m eqn:Em.
    destruct Hr as [|y z Hxy Hyz].
    + subst. now apply in_map.
    + destruct Hxy as (tx & Htx & Hidx & _). rewrite <- Hidx. now apply in_map.
  - intros HX. unfold d in Hlast. rewrite dict_keys_keyed in Hlast.
    destruct (Hlast HX) as (front & tX & -> & Hget). exists front, tX.
    split; [reflexivity|]. now apply Hd_ids.
Qed.

(** X16. [get_task_chain] needs no acyclic graph to answer: on every store
    of unique ids, cyclic ones included, it returns a list that holds each
    active task reachable from [X] via [depends_on] exactly once and ends
    with the task of id [X]; for an id that no active task carries the list
    is empty. Only the order of the list depends on the graph being
    acyclic. *)
Theorem get_task_chain_total (set_iter : list string -> list string)
  (h : HashOracle) (s : TaskStorage) (X : string) :
  set_iter_ok set_iter ->
  unique_ids (load_all_tasks h s) ->
  let tasks := load_all_tasks h s in
  exists chain,
    MissionControl.get_task_chain set_iter h s X = Ok chain /\
    NoDup (map id chain) /\
    (forall t, In t chain <-> In t tasks /\ reachable tasks X (id t)) /\
    (In X (map id tasks) ->
     exists front tX, chain = front ++ [tX] /\ id tX = X).
Proof.
  intros Hiter Hu. cbv zeta. now apply get_task_chain_all_graphs.
Qed.

(* ================================================================== *)
(** * The consistency check on an acyclic store *)
(* ================================================================== *)

Lemma check_consistency_graph_acyclic set_iter (d : dict Task) :
  (forall l x, In x (set_iter l) <-> In x l) ->
  dict_acyclic d ->
  check_consistency_graph set_iter d (adj_of d) =
  Ok (Nat.eqb (List.length (missing_errors d)) 0, missing_errors d).
Proof.
  intros Hiter Hac. unfold check_consistency_graph.
  set (c0 := map (fun task_id => (task_id, WHITE)) (dict_keys d) : dict Color).
  assert (Hkeys : keys_ok d c0).
  { intros k. unfold c0. rewrite initial_color_get.
    destruct (str_mem k (dict_keys d)) eqn:E.
    - apply str_mem_In in E. split; [discriminate | tauto].
    - apply str_mem_false in E. tauto. }
  assert (Hfuel : whites d c0 < S (List.length d)).
  { unfold whites.
    pose proof (filter_length_le (is_white c0) (dict_keys d)) as Hle.
    unfold dict_keys in *. rewrite length_map in Hle. lia. }
  assert (Hng : no_gray c0).
  { intros k. unfold c0. rewrite initial_color_get.
    destruct (str_mem k (dict_keys d)); discriminate. }
  destruct (cycle_dfs_all_spec set_iter Hiter d (S (List.length d))
              (dict_keys d) c0 [] Hkeys Hfuel (fun k H => H)) as [_ Hacyc].
  destruct (Hacyc Hng Hac) as [c' E]. rewrite E. reflexivity.
Qed.

Lemma dict_mem_keyed tasks k :
  dict_mem k (map keyed tasks) = str_mem k (map id tasks).
Proof.
  unfold dict_mem, str_mem. induction tasks as [|t ts IH]; simpl; [reflexivity|].
  rewrite (String.eqb_sym k (id t)).
  destruct (id t =? k)%string; [reflexivity | exact IH].
Qed.

Lemma flat_map_map {A B C : Type} (f : B -> list C) (g : A -> B) l :
  flat_map f (map g l) = flat_map (fun x => f (g x)) l.
Proof.
  induction l as [|a l IH]; simpl; [reflexivity | now rewrite IH].
Qed.

(** X17. On an acyclic store of unique ids [check_consistency] returns,
    and what it returns is exactly the list of missing dependencies: one
    message for every occurrence in a [depends_on] of an id that no active
    task carries, in the order of the tasks in the log and, for one task, in
    the order of its [depends_on]; the flag is true iff that list is
    empty. *)
Theorem check_consistency_acyclic_errors
  (set_iter : list string -> list string) (h : HashOracle) (s : TaskStorage) :
  set_iter_ok set_iter ->
  unique_ids (load_all_tasks h s) ->
  acyclic (load_all_tasks h s) ->
  let tasks := load_all_tasks h s in
  let errors :=
    flat_map
      (fun t =>
         flat_map
           (fun dep_id =>
              if str_mem dep_id (map id tasks) then []
              else [missing_message (id t) dep_id])
           (depends_on t))
      tasks in
  MissionControl.check_consistency set_iter h s =
  Ok (match errors with [] => true | _ :: _ => false end, errors).
Proof.
  intros Hiter Hu Hac. cbv zeta.
  unfold MissionControl.check_consistency, check_consistency, _build_graph.
  rewrite build_adj_task_dict, (build_task_dict_NoDup _ Hu).
  set (tasks := load_all_tasks h s) in *.
  fold (adj_of (map keyed tasks)).
  rewrite check_consistency_graph_acyclic.
  - assert (E : missing_errors (map keyed tasks) =
      flat_map
        (fun t =>
           flat_map
             (fun dep_id =>
                if str_mem dep_id (map id tasks) then []
                else [missing_message (id t) dep_id])
             (depends_on t))
        tasks).
    { unfold missing_errors. rewrite flat_map_map.
      apply flat_map_ext. intros t. simpl.
      apply flat_map_ext. intros dep_id. rewrite dict_mem_keyed.
      now destruct (str_mem dep_id (map id tasks)). }
    rewrite E. now destruct (flat_map _ tasks).
  - intros l. apply (proj2 (Hiter l)).
  - intros n Hc. apply (Hac n). unfold on_cycle.
    apply (clos_trans_equiv _ _ (fun a b => dict_edge_keyed tasks a b Hu)).
    exact Hc.
Qed.

(* ================================================================== *)
(** * The delete handler and dangling dependencies *)
(* ================================================================== *)

Lemma delete_task_absent h s task_id :
  load_task h s task_id = None -> delete_task h s task_id = (false, s).
Proof.
  unfold load_task, delete_task. intros Hnone.
  rewrite filter_all_true.
  - now rewrite Nat.ltb_irrefl.
  - intros x Hx. apply (find_none _ _ Hnone) in Hx. now rewrite Hx.
Qed.

Lemma no_dangling_remove tasks task_id :
  no_dangling tasks ->
  (forall t, In t tasks -> str_mem task_id (depends_on t) = false) ->
  no_dangling (filter (fun t => negb (id t =? task_id)%string) tasks).
Proof.
  intros Hnd Hfree t dep_id Ht Hdep.
  apply filter_In in Ht. destruct Ht as [Ht _].
  pose proof (Hnd t dep_id Ht Hdep) as Hin.
  apply in_map_iff in Hin. destruct Hin as (d & Hid & Hd).
  apply in_map_iff. exists d. split; [exact Hid|].
  apply filter_In. split; [exact Hd|].
  destruct (String.eqb_spec (id d) task_id) as [E|E]; [|reflexivity].
  exfalso. specialize (Hfree t Ht). apply str_mem_false in Hfree.
  apply Hfree. now rewrite <- E, Hid.
Qed.

(** X18. The delete handler never leaves a dangling dependency behind: on
    a store that satisfies the invariant and in which every [depends_on] id
    names an active task, the same holds after [handle_delete_task],
    whatever the id it is given. *)
Theorem handle_delete_task_keeps_references (h1 h2 h h' : HashOracle)
  (s : TaskStorage) (task_id : string) :
  store_inv s ->
  no_dangling (load_all_tasks h s) ->
  no_dangling (load_all_tasks h' (snd (handle_delete_task h1 h2 s task_id))).
Proof.
  intros Hinv Hnd.
  destruct (store_inv_load h s Hinv) as [Eh Hu].
  destruct (store_inv_load h' s Hinv) as [Eh' _].
  destruct (store_inv_load h1 s Hinv) as [Eh1 _].
  destruct (store_inv_load h2 s Hinv) as [Eh2 _].
  assert (Hsame : load_all_tasks h' s = load_all_tasks h s) by congruence.
  unfold handle_delete_task.
  destruct (MissionControl.get_task_impact h1 s task_id) as [|t0 ts] eqn:Edep.
  - unfold MissionControl.delete_task.
    destruct (load_task h2 s task_id) as [t|] eqn:E.
    + rewrite (delete_task_present h2 s task_id t E). cbn [snd].
      rewrite load_all_tasks_valid
        by (cbn [tasks_file]; apply filter_valid, load_all_tasks_all_valid).
      cbn [tasks_file].
      replace (load_all_tasks h2 s) with (load_all_tasks h s) by congruence.
      apply no_dangling_remove; [exact Hnd|].
      intros t' Ht'. unfold MissionControl.get_task_impact, get_dependents,
        _build_graph in Edep.
      replace (load_all_tasks h1 s) with (load_all_tasks h s) in Edep
        by congruence.
      rewrite (build_task_dict_NoDup _ Hu), dict_values_keyed in Edep.
      destruct (str_mem task_id (depends_on t')) eqn:Em; [|reflexivity].
      assert (Hin : In t' (filter (fun task => str_mem task_id (depends_on task))
                                  (load_all_tasks h s)))
        by (apply filter_In; auto).
      rewrite Edep in Hin. destruct Hin.
    + rewrite (delete_task_absent h2 s task_id E). cbn [snd].
      now rewrite Hsame.
  - cbn [snd]. now rewrite Hsame.
Qed.

(* ================================================================== *)
(** * Listings and handlers *)
(* ================================================================== *)

(** X19. [list_tasks] keeps the order of the log and returns exactly the
    active tasks that pass the filters given: the status, when one is
    given, and at least one shared tag, when a non-empty tag list is given.
    An empty tag list filters nothing, as no tag list does. *)
Theorem list_tasks_filters (h : HashOracle) (s : TaskStorage)
  (status_filter : option TaskStatus) (tags_filter : option (list string)) :
  let tasks := load_all_tasks h s in
  let listed := MissionControl.list_tasks h s status_filter tags_filter in
  (exists keep, listed = filter keep tasks) /\
  (forall t,
     In t listed <->
     In t tasks /\
     (forall st, status_filter = Some st -> status t = st) /\
     (forall wanted, tags_filter = Some wanted -> wanted <> [] ->
        exists tag, In tag wanted /\ In tag (tags t))) /\
  MissionControl.list_tasks h s status_filter (Some []) =
    MissionControl.list_tasks h s status_filter None /\
  MissionControl.list_tasks h s None None = tasks.
Proof.
  cbv zeta. unfold MissionControl.list_tasks.
  set (tasks := load_all_tasks h s).
  set (by_status_ := match status_filter with
                     | Some st => filter (fun t => TaskStatus_eqb (status t) st) tasks
                     | None => tasks
                     end).
  assert (Hst : exists keep, by_status_ = filter keep tasks /\
            forall t, keep t = true <->
                      forall st, status_filter = Some st -> status t = st).
  { unfold by_status_. destruct status_filter as [st|].
    - exists (fun t => TaskStatus_eqb (status t) st). split; [reflexivity|].
      intros t. rewrite TaskStatus_eqb_eq. split.
      + intros H st' [= <-]. exact H.
      + intros H. now apply H.
    - exists (fun _ => true). split.
      + symmetry. now apply filter_all_true.
      + intros t. split; [intros _ st; discriminate | reflexivity]. }
  destruct Hst as (keep & Ek & Hkeep).
  assert (Htag : forall wanted t,
            existsb (fun x => str_mem x (tags t)) wanted = true <->
            exists tag, In tag wanted /\ In tag (tags t)).
  { intros wanted t. rewrite existsb_exists.
    split; intros (tag & H1 & H2); exists tag; split; auto;
      now apply str_mem_In. }
  split; [|split; [|split]].
  - destruct tags_filter as [[|tag more]|].
    + exists keep. exact Ek.
    + exists (fun t => keep t &&
                       existsb (fun x => str_mem x (tags t)) (tag :: more)).
      rewrite Ek. clear. induction tasks as [|a l IH]; [reflexivity|].
      cbn [filter]. destruct (keep a); cbn [filter andb]; [|exact IH].
      destruct (existsb _ (tag :: more)); [now rewrite IH | exact IH].
    + exists keep. exact Ek.
  - intros t. destruct tags_filter as [[|tag more]|].
    + rewrite Ek, filter_In, Hkeep. split.
      * intros [H1 H2]. split; [exact H1|]. split; [exact H2|].
        intros wanted [= <-] Hne. now destruct Hne.
      * tauto.
    + rewrite filter_In, Ek, filter_In, Hkeep, Htag. split.
      * intros [[H1 H2] H3]. split; [exact H1|]. split; [exact H2|].
        intros wanted [= <-] _. exact H3.
      * intros (H1 & H2 & H3). split; [tauto|].
        apply (H3 (tag :: more) eq_refl). discriminate.
    + rewrite Ek, filter_In, Hkeep. split.
      * intros [H1 H2]. split; [exact H1|]. split; [exact H2|].
        intros wanted; discriminate.
      * tauto.
  - reflexivity.
  - reflexivity.
Qed.

Lemma TaskStatus_of_value_value st :
  TaskStatus_of_value (TaskStatus_value st) = Some st.
Proof. now destruct st. Qed.

Lemma TaskStatus_value_of_value v st :
  TaskStatus_of_value v = Some st -> v = TaskStatus_value st.
Proof.
  unfold TaskStatus_of_value.
  destruct (String.eqb_spec v "todo"); [intros [= <-]; assumption|].
  destruct (String.eqb_spec v "in_progress"); [intros [= <-]; assumption|].
  destruct (String.eqb_spec v "blocked"); [intros [= <-]; assumption|].
  destruct (String.eqb_spec v "done"); [intros [= <-]; assumption|].
  discriminate.
Qed.

Lemma In_firstn_list {A : Type} (n : nat) (l : list A) x :
  In x (firstn n l) -> In x l.
Proof.
  intros H. rewrite <- (firstn_skipn n l). apply in_or_app. now left.
Qed.

Lemma firstn_filter_props {A : Type} (f : A -> bool) (n : nat) (l : list A) :
  List.length (firstn n (filter f l)) <= n /\
  forall x, In x (firstn n (filter f l)) -> In x l /\ f x = true.
Proof.
  split.
  - apply firstn_le_length.
  - intros x Hx. apply filter_In. now apply (In_firstn_list n).
Qed.

(** X20. The status handler: a status string is accepted iff it is the
    value of a status (any other string raises [ValueError] before the
    store is touched); for an id that is not active the answer is the error
    object and the store is unchanged; otherwise the store is the one
    [update_task_status] leaves with auto-archive on, the answer carries the
    task that [update_task_status] returned, which is the loaded task with
    the new status and refreshed metadata, and [newly_ready] holds the first
    five tasks of the ready queue read afterwards that are not the task
    updated, each by id and title. *)
Theorem handle_update_task_status_answer (v : Vca) (hs : nat -> HashOracle)
  (s : TaskStorage) (task_id status_value : string) :
  (forall st, TaskStatus_of_value (TaskStatus_value st) = Some st) /\
  ((forall st, status_value <> TaskStatus_value st) ->
   handle_update_task_status v hs s task_id status_value = Raise ValueError) /\
  (forall st, status_value = TaskStatus_value st ->
     (MissionControl.get_task (hs 0) s task_id = None ->
      handle_update_task_status v hs s task_id status_value =
      Ok (VObject [("success"%string, VBool false);
                   ("error"%string,
                    VString ("Task " ++ task_id ++ " not found")%string)],
          s)) /\
     (forall t, MissionControl.get_task (hs 0) s task_id = Some t ->
      let r := MissionControl.update_task_status v hs s task_id st true in
      let s' := snd r in
      let updated := refresh_metadata v (set_status st t) in
      let newly :=
        firstn 5 (filter (fun x => negb (id x =? task_id)%string)
                         (MissionControl.list_ready_work (hs 5) s')) in
      fst r = Some updated /\
      handle_update_task_status v hs s task_id status_value =
        Ok (VObject [("success"%string, VBool true);
                     ("task"%string, task_to_dict updated);
                     ("newly_ready"%string, VList (map id_title_entry newly));
                     ("message"%string,
                      VString ("Updated " ++ task_id ++ " to " ++ status_value)%string)],
            s') /\
      id updated = task_id /\ status updated = st /\
      List.length newly <= 5 /\
      forall x, In x newly ->
        In x (MissionControl.list_ready_work (hs 5) s') /\ id x <> task_id)).
Proof.
  split; [exact TaskStatus_of_value_value|]. split.
  - intros Hno. unfold handle_update_task_status.
    destruct (TaskStatus_of_value status_value) as [st|] eqn:E; [|reflexivity].
    apply TaskStatus_value_of_value in E. destruct (Hno st E).
  - intros st ->. unfold handle_update_task_status.
    rewrite TaskStatus_of_value_value.
    unfold MissionControl.get_task. split.
    + intros Hnone. unfold MissionControl.update_task_status.
      now rewrite Hnone.
    + intros t Hsome. cbv zeta.
      destruct (load_task_id _ _ _ _ Hsome) as [Hid _].
      unfold MissionControl.update_task_status. rewrite Hsome.
      cbn [save_task fst snd].
      set (saved := refresh_metadata v (set_status st t)).
      set (s1 := mkTaskStorage (upsert saved (load_all_tasks (hs 1) s))
                               (archive_file s)).
      assert (Hshape : exists s',
        (if true && TaskStatus_eqb st DONE
         then match get_dependents (hs 2) s1 task_id with
              | [] => (Some saved, snd (archive_task (hs 3) (hs 4) s1 task_id))
              | _ :: _ => (Some saved, s1)
              end
         else (Some saved, s1)) = (Some saved, s')).
      { destruct (true && TaskStatus_eqb st DONE); [|eauto].
        destruct (get_dependents (hs 2) s1 task_id); eauto. }
      destruct Hshape as [s' Es']. rewrite Es'. cbn [fst snd].
      split; [reflexivity|]. split; [reflexivity|]. split; [exact Hid|].
      split; [reflexivity|].
      destruct (firstn_filter_props (fun t0 => negb (id t0 =? task_id)%string) 5
                  (MissionControl.list_ready_work (hs 5) s')) as [Hlen Hin].
      split; [exact Hlen|]. intros r Hr. destruct (Hin r Hr) as [H1 H2].
      split; [exact H1|]. intros E. rewrite E, String.eqb_refl in H2.
      discriminate.
Qed.

(** X21. [handle_get_task] on a store that satisfies the invariant never
    raises. For an id that is not active it answers with the error object.
    Otherwise the answer carries the task; with [include_chain] it carries
    under [dependency_chain] every active task that the id reaches via
    [depends_on], the task itself left out, each once, and with
    [include_impact] under [dependent_tasks] the active tasks that name the
    id in their [depends_on], in file order; without the flag the key is
    absent. *)
Theorem handle_get_task_answer (set_iter : list string -> list string)
  (hs : nat -> HashOracle) (s : TaskStorage) (task_id : string)
  (include_chain include_impact : bool) :
  set_iter_ok set_iter ->
  store_inv s ->
  let tasks := load_all_tasks (hs 0) s in
  (MissionControl.get_task (hs 0) s task_id = None ->
   handle_get_task set_iter hs s task_id include_chain include_impact =
   Ok (VObject [("success"%string, VBool false);
                ("error"%string,
                 VString ("Task " ++ task_id ++ " not found")%string)])) /\
  (forall task, MissionControl.get_task (hs 0) s task_id = Some task ->
   exists fields,
     handle_get_task set_iter hs s task_id include_chain include_impact =
       Ok (VObject fields) /\
     dict_get "success"%string fields = Some (VBool true) /\
     dict_get "task"%string fields = Some (task_to_dict task) /\
     (if include_chain then
        exists chain,
          dict_get "dependency_chain"%string fields =
            Some (VList (map task_to_dict chain)) /\
          NoDup (map id chain) /\
          forall t, In t chain <->
                    In t tasks /\ reachable tasks task_id (id t) /\
                    id t <> task_id
      else dict_get "dependency_chain"%string fields = None) /\
     (if include_impact then
        dict_get "dependent_tasks"%string fields =
          Some (VList (map task_to_dict
                         (filter (fun t => str_mem task_id (depends_on t))
                                 tasks)))
      else dict_get "dependent_tasks"%string fields = None)).
Proof.
  intros Hiter Hinv. cbv zeta.
  destruct (store_inv_load (hs 0) s Hinv) as [E0 Hu].
  destruct (store_inv_load (hs 1) s Hinv) as [E1 Hu1].
  destruct (store_inv_load (hs 2) s Hinv) as [E2 _].
  assert (E10 : load_all_tasks (hs 1) s = load_all_tasks (hs 0) s) by congruence.
  assert (E20 : load_all_tasks (hs 2) s = load_all_tasks (hs 0) s) by congruence.
  unfold handle_get_task. split.
  - intros Hnone. now rewrite Hnone.
  - intros task Hsome. rewrite Hsome.
    destruct (get_task_chain_all_graphs set_iter (hs 1) s task_id Hiter Hu1)
      as (chain & Ec & Hnd & Hin & _).
    rewrite Ec. rewrite E10 in Hin.
    assert (Himpact : MissionControl.get_task_impact (hs 2) s task_id =
                      filter (fun t => str_mem task_id (depends_on t))
                             (load_all_tasks (hs 0) s)).
    { unfold MissionControl.get_task_impact, get_dependents, _build_graph.
      rewrite E20, (build_task_dict_NoDup _ Hu), dict_values_keyed.
      reflexivity. }
    rewrite Himpact.
    assert (Hchain :
      NoDup (map id (filter (fun t => negb (id t =? task_id)%string) chain)) /\
      forall t, In t (filter (fun t => negb (id t =? task_id)%string) chain) <->
                In t (load_all_tasks (hs 0) s) /\
                reachable (load_all_tasks (hs 0) s) task_id (id t) /\
                id t <> task_id).
    { split; [now apply NoDup_map_filter|].
      intros t. rewrite filter_In, Hin.
      destruct (String.eqb_spec (id t) task_id); simpl; split;
        try tauto; try intuition congruence. }
    destruct include_chain, include_impact; eexists;
      (split; [reflexivity|]); cbn;
      (split; [reflexivity|]); (split; [reflexivity|]); split;
      try reflexivity; eexists; split; try reflexivity; exact Hchain.
Qed.

Lemma status_counts_sum tasks :
  List.length (filter (fun t => TaskStatus_eqb (status t) TODO) tasks) +
  List.length (filter (fun t => TaskStatus_eqb (status t) IN_PROGRESS) tasks) +
  List.length (filter (fun t => TaskStatus_eqb (status t) BLOCKED) tasks) +
  List.length (filter (fun t => TaskStatus_eqb (status t) DONE) tasks) =
  List.length tasks.
Proof.
  induction tasks as [|t ts IH]; [reflexivity|].
  cbn [filter]. destruct (status t); cbn [TaskStatus_eqb List.length]; lia.
Qed.

Lemma ready_le_todo h s :
  List.length (MissionControl.list_ready_work h s) <=
  List.length (filter (fun t => TaskStatus_eqb (status t) TODO)
                      (dict_values (build_task_dict (load_all_tasks h s)))).
Proof.
  rewrite list_ready_work_eq. cbv zeta.
  rewrite (Permutation_length (sort_by_key_perm _)).
  set (d0 := build_task_dict (load_all_tasks h s)).
  induction (dict_values d0) as [|t ts IH]; [simpl; lia|].
  cbn [filter]. unfold ready_in at 1.
  destruct (TaskStatus_eqb (status t) TODO); cbn [andb List.length].
  - destruct (forallb (dep_done d0) (depends_on t)); cbn [List.length]; lia.
  - exact IH.
Qed.

(** X22. [summary] raises exactly when the consistency check raises.
    When it returns, [by_status] has the four status values as keys, in the
    order of the enum, and its counts add up to [total_tasks];
    [ready_tasks] holds the first five of the ready queue ([ready_count] of
    them when there are fewer); and on a store that satisfies the invariant
    [ready_count] is at most the count under [todo]. *)
Theorem summary_counts (set_iter : list string -> list string)
  (hs : nat -> HashOracle) (dir : string) (s : TaskStorage) :
  (forall e, MissionControl.summary set_iter hs dir s = Raise e <->
             MissionControl.check_consistency set_iter (hs 1) s = Raise e) /\
  (forall r, MissionControl.summary set_iter hs dir s = Ok r ->
     exists todo doing blocked done,
       by_status r = [("todo"%string, todo); ("in_progress"%string, doing);
                      ("blocked"%string, blocked); ("done"%string, done)] /\
       todo + doing + blocked + done = total_tasks r /\
       total_tasks r = List.length (load_all_tasks (hs 0) s) /\
       MissionControl.check_consistency set_iter (hs 1) s =
         Ok (is_consistent r, consistency_errors r) /\
       ready_count r = List.length (MissionControl.list_ready_work (hs 2) s) /\
       List.length (ready_tasks r) = Nat.min 5 (ready_count r) /\
       (store_inv s -> ready_count r <= todo)).
Proof.
  unfold MissionControl.summary. split.
  - intros e.
    destruct (MissionControl.check_consistency set_iter (hs 1) s)
      as [[ok errors]|e'|]; split; intros H; try discriminate; congruence.
  - intros r.
    destruct (MissionControl.check_consistency set_iter (hs 1) s)
      as [[ok errors]|e'|]; try discriminate.
    intros [= <-].
    cbn [by_status total_tasks ready_count ready_tasks is_consistent
         consistency_errors].
    do 4 eexists. split; [reflexivity|].
    split; [apply status_counts_sum|]. split; [reflexivity|].
    split; [reflexivity|]. split; [reflexivity|]. split.
    + change (List.length
                (map (fun t : Task => (id t, title t, priority t))
                     (firstn 5 (MissionControl.list_ready_work (hs 2) s))) =
              Nat.min 5 (List.length (MissionControl.list_ready_work (hs 2) s))).
      now rewrite length_map, length_firstn.
    + intros Hinv.
      destruct (store_inv_load (hs 0) s Hinv) as [E0 Hu].
      destruct (store_inv_load (hs 2) s Hinv) as [E2 Hu2].
      pose proof (ready_le_todo (hs 2) s) as Hle.
      rewrite (build_task_dict_NoDup _ Hu2), dict_values_keyed in Hle.
      replace (load_all_tasks (hs 0) s) with (load_all_tasks (hs 2) s)
        by congruence.
      exact Hle.
Qed.

Lemma blocking_of_unique tasks t :
  unique_ids tasks ->
  blocking_of (map keyed tasks) t =
  filter (fun dep_id =>
            negb (existsb (fun d => (id d =? dep_id)%string &&
                                    TaskStatus_eqb (status d) DONE) tasks))
         (depends_on t).
Proof.
  intros Hu. unfold blocking_of. apply filter_ext. intros dep_id.
  now rewrite dep_done_unique.
Qed.

Lemma filter_nil_ext {A : Type} (f g h : A -> bool) l :
  filter f l = [] -> (forall x, g x = h x || f x) -> filter g l = filter h l.
Proof.
  intros Hnil Hg. apply filter_ext_in. intros x Hx. rewrite Hg.
  destruct (f x) eqn:E; [|now rewrite orb_false_r].
  assert (Hin : In x (filter f l)) by (apply filter_In; auto).
  rewrite Hnil in Hin. destruct Hin.
Qed.

(** X23. [handle_list_ready_work] on a store that satisfies the invariant,
    when no task is ready: every [todo] task is reported as blocked, so
    [blocked_count] is the number of [todo] tasks, and [blocked_summary]
    lists the first five of them in file order, each with its id, its title
    and its unfinished or missing dependencies. *)
Theorem handle_list_ready_work_none_ready (h1 h2 : HashOracle)
  (s : TaskStorage) :
  store_inv s ->
  MissionControl.list_ready_work h1 s = [] ->
  let tasks := load_all_tasks h1 s in
  let todo := filter (fun t => TaskStatus_eqb (status t) TODO) tasks in
  handle_list_ready_work h1 h2 s =
  VObject
    [("success"%string, VBool true);
     ("count"%string, VInt 0);
     ("tasks"%string, VList []);
     ("blocked_count"%string, VInt (Z.of_nat (List.length todo)));
     ("blocked_summary"%string,
      VList
        (map (fun t =>
                VObject
                  [("id"%string, VString (id t));
                   ("title"%string, VString (title t));
                   ("blocked_by"%string,
                    VList (map VString
                             (filter
                                (fun dep_id =>
                                   negb (existsb
                                           (fun d => (id d =? dep_id)%string &&
                                                     TaskStatus_eqb (status d) DONE)
                                           tasks))
                                (depends_on t))))])
             (firstn 5 todo)));
     ("message"%string,
      VString "No tasks ready. Check blocked tasks or create new work.")].
Proof.
  intros Hinv Hnone. cbv zeta.
  destruct (store_inv_load h1 s Hinv) as [E1 Hu].
  destruct (store_inv_load h2 s Hinv) as [E2 _].
  assert (E21 : load_all_tasks h2 s = load_all_tasks h1 s) by congruence.
  unfold handle_list_ready_work. rewrite Hnone.
  unfold MissionControl.list_blocked. rewrite get_blocked_tasks_eq. cbv zeta.
  rewrite E21, (build_task_dict_NoDup _ Hu), dict_values_keyed.
  set (tasks := load_all_tasks h1 s) in *.
  assert (Hready : filter (ready_in (map keyed tasks)) tasks = []).
  { rewrite list_ready_work_eq in Hnone. cbv zeta in Hnone. fold tasks in Hnone.
    rewrite (build_task_dict_NoDup _ Hu), dict_values_keyed in Hnone.
    pose proof (sort_by_key_perm (filter (ready_in (map keyed tasks)) tasks))
      as Hp.
    rewrite Hnone in Hp. now apply Permutation_nil in Hp. }
  assert (Hall : filter (fun t => TaskStatus_eqb (status t) TODO &&
                          negb (forallb (dep_done (map keyed tasks)) (depends_on t)))
                        tasks =
                 filter (fun t => TaskStatus_eqb (status t) TODO) tasks).
  { symmetry. apply (filter_nil_ext (ready_in (map keyed tasks))); [exact Hready|].
    intros t. unfold ready_in.
    destruct (TaskStatus_eqb (status t) TODO); [|reflexivity].
    now destruct (forallb _ (depends_on t)). }
  rewrite Hall. rewrite length_map, firstn_map, map_map.
  assert (Hm : forall l,
    map (fun x : Task =>
           VObject
             [("id"%string, VString (id x));
              ("title"%string, VString (title x));
              ("blocked_by"%string,
               VList (map VString (blocking_of (map keyed tasks) x)))]) l =
    map (fun t : Task =>
           VObject
             [("id"%string, VString (id t));
              ("title"%string, VString (title t));
              ("blocked_by"%string,
               VList (map VString
                        (filter
                           (fun dep_id =>
                              negb (existsb
                                      (fun d => (id d =? dep_id)%string &&
                                                TaskStatus_eqb (status d) DONE)
                                      tasks))
                           (depends_on t))))]) l).
  { intros l. apply map_ext. intros t. now rewrite blocking_of_unique. }
  now rewrite Hm.
Qed.

(* ================================================================== *)
(** * Completing a dependency *)
(* ================================================================== *)

Lemma In_upsert_other task tasks x :
  In x tasks -> id x <> id task -> In x (upsert task tasks).
Proof.
  intros Hin Hne. induction tasks as [|y tasks IH]; simpl in *; [tauto|].
  destruct (String.eqb_spec (id y) (id task)) as [E|E].
  - destruct Hin as [->|Hin]; [contradiction | now right].
  - destruct Hin as [->|Hin]; [now left | right; now apply IH].
Qed.

Lemma find_id_In tasks k :
  In k (map id tasks) ->
  exists t, find (fun x => (id x =? k)%string) tasks = Some t.
Proof.
  intros Hin. apply in_map_iff in Hin. destruct Hin as (t & Hid & Ht).
  destruct (find (fun x => (id x =? k)%string) tasks) as [t'|] eqn:E; [eauto|].
  apply (find_none _ _ E) in Ht. rewrite Hid, String.eqb_refl in Ht.
  discriminate.
Qed.

(** X24. Completing the last open dependency puts the waiting task in the
    ready queue: on a store that satisfies the invariant, let [t] be an
    active [todo] task all of whose dependencies other than the active id
    [dep] are done active tasks. After [update_task_status(dep, done)], with
    or without auto-archive, [t] is in the ready queue: the completed task
    has a dependent, so it is kept in the active log where the readiness
    test finds it. *)
Theorem completing_dependency_unblocks (v : Vca) (hs : nat -> HashOracle)
  (h h' : HashOracle) (s : TaskStorage) (dep : string) (t : Task)
  (auto_archive : bool) :
  store_inv s ->
  In t (load_all_tasks h s) ->
  status t = TODO ->
  id t <> dep ->
  In dep (depends_on t) ->
  In dep (map id (load_all_tasks h s)) ->
  (forall x, In x (depends_on t) -> x <> dep ->
     exists d, In d (load_all_tasks h s) /\ id d = x /\ status d = DONE) ->
  let s' := snd (MissionControl.update_task_status v hs s dep DONE
                   auto_archive) in
  In t (MissionControl.list_ready_work h' s') /\
  archive_file s' = archive_file s.
Proof.
  intros Hinv Ht Hst Hne Hdep Hactive Hothers. cbv zeta.
  destruct (store_inv_load h s Hinv) as [Eh Hu].
  set (active := load_all_tasks h s) in *.
  assert (Hload : forall g, load_all_tasks g s = active).
  { intros g. destruct (store_inv_load g s Hinv) as [Eg _]. congruence. }
  destruct (find_id_In active dep Hactive) as [d0 Hfind].
  assert (Hl0 : load_task (hs 0) s dep = Some d0)
    by (unfold load_task; now rewrite Hload).
  destruct (load_task_id _ _ _ _ Hl0) as [Hid0 Hv0].
  unfold MissionControl.update_task_status. rewrite Hl0.
  unfold save_task. rewrite Hload. cbv beta iota zeta.
  set (saved := refresh_metadata v (set_status DONE d0)).
  set (s1 := mkTaskStorage (upsert saved active) (archive_file s)).
  assert (Hids : id saved = dep) by exact Hid0.
  assert (Hv1 : Forall Task_valid (upsert saved active)).
  { apply upsert_valid.
    - apply refresh_metadata_valid. destruct Hv0. now split.
    - rewrite <- (Hload h). apply load_all_tasks_all_valid. }
  assert (Hload1 : forall g, load_all_tasks g s1 = upsert saved active)
    by (intros g; now apply load_all_tasks_valid).
  assert (Hu1 : unique_ids (upsert saved active)) by now apply upsert_unique.
  assert (Ht1 : In t (upsert saved active)).
  { apply In_upsert_other; [exact Ht | now rewrite Hids]. }
  assert (Hdeps : get_dependents (hs 2) s1 dep <> []).
  { unfold get_dependents, _build_graph.
    rewrite Hload1, (build_task_dict_NoDup _ Hu1), dict_values_keyed.
    intros Hnil.
    assert (Hin : In t (filter (fun task => str_mem dep (depends_on task))
                               (upsert saved active))).
    { apply filter_In. split; [exact Ht1 | now apply str_mem_In]. }
    rewrite Hnil in Hin. destruct Hin. }
  assert (Hs' : snd (if auto_archive && TaskStatus_eqb DONE DONE
                     then match get_dependents (hs 2) s1 dep with
                          | [] => (Some saved,
                                   snd (archive_task (hs 3) (hs 4) s1 dep))
                          | _ :: _ => (Some saved, s1)
                          end
                     else (Some saved, s1)) = s1).
  { destruct (auto_archive && TaskStatus_eqb DONE DONE); [|reflexivity].
    destruct (get_dependents (hs 2) s1 dep); [contradiction | reflexivity]. }
  rewrite Hs'. split; [|reflexivity].
  rewrite list_ready_work_eq. cbv zeta. rewrite Hload1.
  apply (Permutation_in _ (Permutation_sym (sort_by_key_perm _))).
  rewrite (build_task_dict_NoDup _ Hu1), dict_values_keyed.
  apply filter_In. split; [exact Ht1|].
  rewrite (ready_in_unique _ _ Hu1). apply is_readyb_spec.
  split; [exact Hst|]. intros x Hx.
  destruct (string_dec x dep) as [->|Hxd].
  - exists saved. split; [|split; [exact Hids | reflexivity]].
    pose proof (find_upsert saved active) as F. apply find_some in F. tauto.
  - destruct (Hothers x Hx Hxd) as (d & Hd & Hidd & Hdone).
    exists d. split; [|auto].
    apply In_upsert_other; [exact Hd | congruence].
Qed.

(* ================================================================== *)
(** * The further theorems at the sample stores *)
(* ================================================================== *)

Lemma sample_store_inv : store_inv sample_store.
Proof.
  split; [exact sample_store_ids|].
  cbn. repeat constructor; cbn; intuition discriminate.
Defined.

Lemma cycle_store_inv : store_inv cycle_store.
Proof.
  split; [repeat constructor; discriminate|].
  cbn. repeat constructor; cbn; intuition discriminate.
Defined.

Lemma cycle_store_unique : unique_ids (load_all_tasks sample_hash cycle_store).
Proof.
  unfold unique_ids. cbn. repeat constructor; cbn; intuition discriminate.
Defined.

Lemma stale_store_inv : store_inv stale_store.
Proof.
  split; [repeat constructor; discriminate|].
  cbn. repeat constructor; cbn; intuition discriminate.
Defined.

Lemma stale_store_no_dangling :
  no_dangling (load_all_tasks sample_hash stale_store).
Proof.
  intros t dep_id Ht Hdep. cbn in Ht.
  destruct Ht as [<-|[<-|[]]]; cbn in Hdep; cbn; tauto.
Defined.

Lemma save_task_idempotent_witness :
  Task_valid (sample_task "m-e" TODO ["m-a"%string] 3) /\
  save_task sample_vca sample_hash
    (snd (save_task sample_vca sample_hash sample_store
            (sample_task "m-e" TODO ["m-a"%string] 3)))
    (sample_task "m-e" TODO ["m-a"%string] 3) =
  save_task sample_vca sample_hash sample_store
    (sample_task "m-e" TODO ["m-a"%string] 3).
Proof.
  assert (Hv : Task_valid (sample_task "m-e" TODO ["m-a"%string] 3))
    by (split; [reflexivity | discriminate]).
  split; [exact Hv|].
  exact (proj1 (save_task_idempotent sample_vca sample_hash sample_hash
                  sample_store (sample_task "m-e" TODO ["m-a"%string] 3) Hv)).
Defined.

Lemma save_task_frame_witness :
  load_task sample_hash
    (snd (save_task sample_vca sample_hash sample_store
            (sample_task "m-e" TODO ["m-a"%string] 3))) "m-b" =
  load_task sample_hash sample_store "m-b".
Proof.
  apply (save_task_frame sample_vca sample_hash sample_hash sample_store
           (sample_task "m-e" TODO ["m-a"%string] 3) "m-b");
    simpl; discriminate.
Defined.

Lemma storage_writers_keep_invariant_witness :
  store_inv sample_store /\
  store_inv (snd (delete_task sample_hash sample_store "m-a")) /\
  unique_ids
    (load_all_tasks sample_hash
       (snd (archive_task sample_hash sample_hash sample_store "m-c"))).
Proof.
  split; [exact sample_store_inv|].
  destruct (storage_writers_keep_invariant sample_vca sample_hash sample_hash
              sample_hash sample_hash sample_store
              (sample_task "m-e" TODO [] 3) "m-a" sample_store_inv)
    as (_ & [Hd _] & _).
  destruct (storage_writers_keep_invariant sample_vca sample_hash sample_hash
              sample_hash sample_hash sample_store
              (sample_task "m-e" TODO [] 3) "m-c" sample_store_inv)
    as (_ & _ & [_ Ha]).
  split; [exact Hd | exact Ha].
Defined.

Lemma facade_keeps_invariant_witness :
  store_inv sample_store /\
  store_inv
    (snd (MissionControl.update_task sample_vca (fun _ => sample_hash)
            sample_store "m-b" None None (Some ["m-c"%string]) None (Some 11%Z)
            None)) /\
  store_inv
    (snd (MissionControl.update_task_status sample_vca (fun _ => sample_hash)
            sample_store "m-c" DONE true)).
Proof.
  split; [exact sample_store_inv|].
  destruct (facade_keeps_invariant sample_vca (fun _ => sample_hash)
              sample_hash sample_hash "abcdef" "2025-01-03T09:00:00"
              "2025-01-03T09:00:00" sample_store "m-b" "New" "" None None
              (Some ["m-c"%string]) None 5%Z (Some 11%Z) None DONE true
              sample_store_inv) as (_ & [Hu _] & _).
  destruct (facade_keeps_invariant sample_vca (fun _ => sample_hash)
              sample_hash sample_hash "abcdef" "2025-01-03T09:00:00"
              "2025-01-03T09:00:00" sample_store "m-c" "New" "" None None
              None None 5%Z None None DONE true
              sample_store_inv) as (_ & _ & [Hs _]).
  split; [exact Hu | exact Hs].
Defined.

Lemma update_task_persists_witness :
  exists updated,
    MissionControl.get_task sample_hash
      (snd (MissionControl.update_task sample_vca (fun _ => sample_hash)
              sample_store "m-b" (Some "B2"%string) None None None (Some 8%Z)
              None)) "m-b" = Some updated /\
    title updated = "B2"%string /\
    priority updated = 8%Z /\
    depends_on updated = ["m-a"%string].
Proof.
  destruct (update_task_persists sample_vca (fun _ => sample_hash) sample_hash
              sample_store "m-b" (sample_task "m-b" TODO ["m-a"%string] 5)
              (Some "B2"%string) None None None (Some 8%Z) None)
    as (updated & _ & Hget & _ & Ht & _ & Hd & _ & Hp & _).
  - reflexivity.
  - intros p [= <-]. lia.
  - exists updated. auto.
Defined.

Lemma update_task_bad_priority_loses_task_witness :
  MissionControl.get_task sample_hash sample_store "m-b" =
    Some (sample_task "m-b" TODO ["m-a"%string] 5) /\
  MissionControl.get_task sample_hash
    (snd (MissionControl.update_task sample_vca (fun _ => sample_hash)
            sample_store "m-b" None None None None (Some 11%Z) None)) "m-b" =
  None.
Proof.
  split; [reflexivity|].
  apply (update_task_bad_priority_loses_task sample_vca (fun _ => sample_hash)
           sample_hash sample_store "m-b"
           (sample_task "m-b" TODO ["m-a"%string] 5) 11 None None None None None).
  - reflexivity.
  - exact sample_store_unique.
  - right. lia.
Defined.

Lemma ready_blocked_partition_witness :
  store_inv sample_store /\
  List.length (MissionControl.list_ready_work sample_hash sample_store) +
  List.length (MissionControl.list_blocked sample_hash sample_store) =
  List.length
    (filter (fun t => TaskStatus_eqb (status t) TODO)
            (load_all_tasks sample_hash sample_store)).
Proof.
  split; [exact sample_store_inv|].
  destruct (ready_blocked_partition sample_hash sample_hash sample_store
              sample_store_inv) as (_ & _ & _ & _ & H).
  exact H.
Defined.

Lemma tie_store_inv : store_inv tie_store.
Proof.
  split; [repeat constructor; discriminate|].
  cbn. repeat constructor; cbn; intuition discriminate.
Defined.

Lemma list_ready_work_ties_in_file_order_witness :
  store_inv tie_store /\
  MissionControl.list_ready_work sample_hash tie_store =
    [sample_task "m-c" TODO [] 7;
     sample_task "m-z" TODO [] 5;
     sample_task "m-a" TODO [] 5] /\
  filter (same_key 5 "2025-01-01T09:00:00")
         (MissionControl.list_ready_work sample_hash tie_store) =
    [sample_task "m-z" TODO [] 5; sample_task "m-a" TODO [] 5].
Proof.
  split; [exact tie_store_inv|]. split; [reflexivity|].
  exact (eq_trans
           (list_ready_work_ties_in_file_order sample_hash tie_store 5
              "2025-01-01T09:00:00" tie_store_inv)
           eq_refl).
Defined.

Lemma get_task_chain_total_witness :
  set_iter_ok first_seen_order /\
  unique_ids (load_all_tasks sample_hash cycle_store) /\
  exists chain,
    MissionControl.get_task_chain first_seen_order sample_hash cycle_store "m-c"
      = Ok chain /\
    NoDup (map id chain).
Proof.
  split; [exact first_seen_order_ok|]. split; [exact cycle_store_unique|].
  destruct (get_task_chain_total first_seen_order sample_hash cycle_store "m-c"
              first_seen_order_ok cycle_store_unique)
    as (chain & E & Hnd & _).
  exists chain. split; [exact E | exact Hnd].
Defined.

Lemma check_consistency_acyclic_errors_witness :
  acyclic (load_all_tasks sample_hash sample_store) /\
  MissionControl.check_consistency first_seen_order sample_hash sample_store =
  Ok (false, ["Task 'm-d' depends on non-existent task 'm-ghost'"%string]).
Proof.
  split; [exact sample_store_acyclic|].
  exact (check_consistency_acyclic_errors first_seen_order sample_hash
           sample_store first_seen_order_ok sample_store_unique
           sample_store_acyclic).
Defined.

Lemma handle_delete_task_keeps_references_witness :
  store_inv stale_store /\
  no_dangling (load_all_tasks sample_hash stale_store) /\
  no_dangling
    (load_all_tasks sample_hash
       (snd (handle_delete_task sample_hash sample_hash stale_store "m-b"))).
Proof.
  split; [exact stale_store_inv|]. split; [exact stale_store_no_dangling|].
  exact (handle_delete_task_keeps_references sample_hash sample_hash sample_hash
           sample_hash stale_store "m-b" stale_store_inv
           stale_store_no_dangling).
Defined.

Lemma handle_get_task_answer_witness :
  MissionControl.get_task sample_hash sample_store "m-b" =
    Some (sample_task "m-b" TODO ["m-a"%string] 5) /\
  exists fields chain,
    handle_get_task first_seen_order (fun _ => sample_hash) sample_store "m-b"
      true true = Ok (VObject fields) /\
    dict_get "task"%string fields =
      Some (task_to_dict (sample_task "m-b" TODO ["m-a"%string] 5)) /\
    dict_get "dependency_chain"%string fields =
      Some (VList (map task_to_dict chain)) /\
    (forall t, In t chain <->
               In t (load_all_tasks sample_hash sample_store) /\
               reachable (load_all_tasks sample_hash sample_store) "m-b" (id t) /\
               id t <> "m-b"%string) /\
    dict_get "dependent_tasks"%string fields =
      Some (VList [task_to_dict (sample_task "m-c" TODO ["m-b"%string] 7)]).
Proof.
  split; [reflexivity|].
  destruct (proj2 (handle_get_task_answer first_seen_order
                     (fun _ => sample_hash) sample_store "m-b" true true
                     first_seen_order_ok sample_store_inv)
              (sample_task "m-b" TODO ["m-a"%string] 5) eq_refl)
    as (fields & E & _ & Ht & (chain & Hc & _ & Hin) & Hd).
  exists fields, chain.
  split; [exact E|]. split; [exact Ht|]. split; [exact Hc|].
  split; [exact Hin | exact Hd].
Defined.

Lemma handle_list_ready_work_none_ready_witness :
  store_inv cycle_store /\
  MissionControl.list_ready_work sample_hash cycle_store = [] /\
  exists fields,
    handle_list_ready_work sample_hash sample_hash cycle_store = VObject fields /\
    dict_get "blocked_count"%string fields = Some (VInt 3).
Proof.
  split; [exact cycle_store_inv|]. split; [reflexivity|].
  eexists. split.
  - exact (handle_list_ready_work_none_ready sample_hash sample_hash cycle_store
             cycle_store_inv eq_refl).
  - reflexivity.
Defined.

Lemma completing_dependency_unblocks_witness :
  store_inv sample_store /\
  In (sample_task "m-c" TODO ["m-b"%string] 7)
     (MissionControl.list_ready_work sample_hash
        (snd (MissionControl.update_task_status sample_vca
                (fun _ => sample_hash) sample_store "m-b" DONE true))).
Proof.
  split; [exact sample_store_inv|].
  apply (completing_dependency_unblocks sample_vca (fun _ => sample_hash)
           sample_hash sample_hash sample_store "m-b"
           (sample_task "m-c" TODO ["m-b"%string] 7) true sample_store_inv).
  - simpl. tauto.
  - reflexivity.
  - simpl. discriminate.
  - simpl. tauto.
  - simpl. tauto.
  - intros x [<-|[]] Hx. now destruct Hx.
Defined.

Lemma get_ready_tasks_blocked_by_witness :
  exists t',
    dict_get "m-c"%string (snd (get_ready_tasks_run sample_hash sample_store)) =
      Some t' /\
    blocked_by t' = ["m-b"%string].
Proof.
  destruct (get_ready_tasks_blocked_by sample_hash sample_store "m-c"
              (sample_task "m-c" TODO ["m-b"%string] 7))
    as (t' & Hget & Hb & _); try reflexivity.
  exists t'. split; [exact Hget | exact Hb].
Defined.

(* ================================================================== *)
(** * Auto-archive and the delete guard in terms of [depends_on] *)
(* ================================================================== *)

Lemma get_dependents_unique h s task_id :
  unique_ids (load_all_tasks h s) ->
  get_dependents h s task_id =
  filter (fun d => str_mem task_id (depends_on d)) (load_all_tasks h s).
Proof.
  intros Hu. unfold get_dependents, _build_graph.
  now rewrite (build_task_dict_NoDup _ Hu), dict_values_keyed.
Qed.

Lemma dependents_filter_In tasks task_id d :
  In d (filter (fun x => str_mem task_id (depends_on x)) tasks) <->
  In d tasks /\ In task_id (depends_on d).
Proof. now rewrite filter_In, str_mem_In. Qed.

Lemma has_dependent_filter tasks task_id :
  has_dependent tasks task_id <->
  filter (fun x => str_mem task_id (depends_on x)) tasks <> [].
Proof.
  unfold has_dependent. split.
  - intros (d & Hd & Hdep) Hnil.
    assert (Hin : In d (filter (fun x => str_mem task_id (depends_on x)) tasks))
      by now apply dependents_filter_In.
    rewrite Hnil in Hin. destruct Hin.
  - destruct (filter (fun x => str_mem task_id (depends_on x)) tasks)
      as [|d ds] eqn:E; [intros H; now destruct H|].
    intros _. exists d. apply dependents_filter_In. rewrite E. now left.
Qed.

(** C3. On a store that satisfies the invariant, [update_task_status(id,
    done)] with [auto_archive=True] on an existing active task leaves the
    task absent from the active set exactly when no active task named the
    id in its [depends_on] at the moment of the call; its record, with the
    new status, is then appended to the archive log. When some active task
    named it, it remains active with status [done] and the archive log is
    unchanged. *)
Theorem update_task_status_auto_archive (v : Vca) (hs : nat -> HashOracle)
  (h h' : HashOracle) (s : TaskStorage) (task_id : string) (t : Task) :
  store_inv s ->
  MissionControl.get_task h s task_id = Some t ->
  let tasks := load_all_tasks h s in
  let result := MissionControl.update_task_status v hs s task_id DONE true in
  let s' := snd result in
  let done := refresh_metadata v (set_status DONE t) in
  fst result = Some done /\
  (MissionControl.get_task h' s' task_id = None <->
   ~ has_dependent tasks task_id) /\
  (~ In task_id (map id (load_all_tasks h' s')) <->
   ~ has_dependent tasks task_id) /\
  (~ has_dependent tasks task_id ->
   archive_file s' = archive_file s ++ [done]) /\
  (has_dependent tasks task_id ->
   MissionControl.get_task h' s' task_id = Some done /\
   status done = DONE /\
   archive_file s' = archive_file s).
Proof.
  intros Hinv Hget. cbv zeta.
  destruct (store_inv_load h s Hinv) as [_ Hu].
  destruct (update_task_status_archives_by_impact v hs h h' s task_id t
              (proj1 Hinv) Hget) as (H1 & H2 & H3 & H4).
  cbv zeta in H2, H3, H4.
  unfold MissionControl.get_task_impact in H2, H3, H4.
  rewrite (get_dependents_unique h s task_id Hu) in H2, H3, H4.
  pose proof (has_dependent_filter (load_all_tasks h s) task_id) as Hd.
  assert (Hnot : ~ has_dependent (load_all_tasks h s) task_id <->
                 filter (fun x => str_mem task_id (depends_on x))
                        (load_all_tasks h s) = []).
  { rewrite Hd.
    destruct (filter (fun x => str_mem task_id (depends_on x))
                     (load_all_tasks h s)); split; intros H;
      try reflexivity; try discriminate; try (intros H'; now apply H').
    exfalso. apply H. discriminate. }
  split; [exact H1|]. split; [now rewrite Hnot|]. split; [|split].
  - rewrite Hnot, <- H2. unfold MissionControl.get_task, load_task. split.
    + intros Hnone.
      destruct (find _ (load_all_tasks h' _)) as [x|] eqn:F; [|reflexivity].
      apply find_some in F. destruct F as [Hx Hid].
      apply String.eqb_eq in Hid. exfalso. apply Hnone.
      apply in_map_iff. exists x. split; [exact Hid | exact Hx].
    + intros Hnone Hin. apply in_map_iff in Hin. destruct Hin as (x & Hid & Hx).
      apply (find_none _ _ Hnone) in Hx. rewrite Hid, String.eqb_refl in Hx.
      discriminate.
  - intros Hno. apply H3. now apply Hnot.
  - intros Hyes. apply H4. now apply Hd.
Qed.

(** C9. On a store that satisfies the invariant, when some active task
    names [task_id] in its [depends_on], the [delete_task] tool handler
    answers [success: false] with an error that counts the dependents and
    with the list of the dependents, which are exactly the active tasks
    that name [task_id] in their [depends_on], in file order, each by id and
    title, and it leaves the store as it is; [MissionControl.delete_task] on
    the same id returns [True] and removes the task without looking at its
    dependents. *)
Theorem delete_guard_tool_layer_only (h1 h2 h h' : HashOracle)
  (s : TaskStorage) (task_id : string) (t : Task) :
  store_inv s ->
  MissionControl.get_task h s task_id = Some t ->
  has_dependent (load_all_tasks h s) task_id ->
  let tasks := load_all_tasks h s in
  let dependents := filter (fun d => str_mem task_id (depends_on d)) tasks in
  (forall d, In d dependents <-> In d tasks /\ In task_id (depends_on d)) /\
  handle_delete_task h1 h2 s task_id =
    (JObject
       [("success"%string, JBool false);
        ("error"%string,
         JString ("Cannot delete task " ++ task_id ++ " - "
                  ++ str_of_nat (List.length dependents)
                  ++ " task(s) depend on it")%string);
        ("dependent_tasks"%string, JList (map dependent_entry dependents))],
     s) /\
  fst (MissionControl.delete_task h s task_id) = true /\
  MissionControl.get_task h' (snd (MissionControl.delete_task h s task_id))
                          task_id = None /\
  tasks_file (snd (MissionControl.delete_task h s task_id)) =
    filter (fun x => negb (id x =? task_id)%string) tasks /\
  archive_file (snd (MissionControl.delete_task h s task_id)) = archive_file s.
Proof.
  intros Hinv Hget Hdep. cbv zeta.
  destruct (store_inv_load h s Hinv) as [Eh Hu].
  destruct (store_inv_load h1 s Hinv) as [Eh1 Hu1].
  assert (Himpact : MissionControl.get_task_impact h1 s task_id =
                    filter (fun d => str_mem task_id (depends_on d))
                           (load_all_tasks h s)).
  { unfold MissionControl.get_task_impact.
    rewrite (get_dependents_unique h1 s task_id Hu1). congruence. }
  split; [intros d; apply dependents_filter_In|].
  rewrite <- Himpact.
  apply (delete_guard_by_impact h1 h2 h h' s task_id t Hget).
  rewrite Himpact. now apply has_dependent_filter.
Qed.

(** The claim of an upsert on the lines of the log fails on
    [out_of_range_store]: saving [m-b], whose record is the second line,
    writes a log that holds [m-b] alone, so the record of [m-a] is gone and
    [m-b] has moved to the first line. *)
Lemma save_task_upsert_log_counterexample :
  ~ upsert_on (tasks_file out_of_range_store)
              (sample_task "m-b" TODO [] 5)
              (fst (save_task sample_vca sample_hash out_of_range_store
                      (sample_task "m-b" TODO [] 5)))
              (tasks_file
                 (snd (save_task sample_vca sample_hash out_of_range_store
                         (sample_task "m-b" TODO [] 5)))).
Proof.
  intros [Hreplace _].
  specialize (Hreplace [sample_task "m-a" TODO [] 11]
                       (sample_task "m-b" TODO [] 5) [] eq_refl eq_refl).
  assert (Hpre : forall x, In x [sample_task "m-a" TODO [] 11] ->
                           id x <> id (sample_task "m-b" TODO [] 5)).
  { intros x [<-|[]]. discriminate. }
  specialize (Hreplace Hpre). discriminate Hreplace.
Qed.

Lemma update_task_status_auto_archive_witness :
  store_inv sample_store /\
  ~ has_dependent (load_all_tasks sample_hash sample_store) "m-c" /\
  has_dependent (load_all_tasks sample_hash sample_store) "m-a" /\
  MissionControl.get_task sample_hash
    (snd (MissionControl.update_task_status sample_vca (fun _ => sample_hash)
            sample_store "m-c" DONE true)) "m-c" = None /\
  MissionControl.get_task sample_hash
    (snd (MissionControl.update_task_status sample_vca (fun _ => sample_hash)
            sample_store "m-a" DONE true)) "m-a" =
    Some (refresh_metadata sample_vca
            (set_status DONE (sample_task "m-a" DONE [] 5))).
Proof.
  assert (Hc : ~ has_dependent (load_all_tasks sample_hash sample_store) "m-c").
  { intros (d & Hd & Hdep). cbn in Hd.
    destruct Hd as [<-|[<-|[<-|[<-|[]]]]]; cbn in Hdep;
      intuition discriminate. }
  assert (Ha : has_dependent (load_all_tasks sample_hash sample_store) "m-a").
  { exists (sample_task "m-b" TODO ["m-a"%string] 5). cbn. tauto. }
  split; [exact sample_store_inv|]. split; [exact Hc|]. split; [exact Ha|].
  destruct (update_task_status_auto_archive sample_vca (fun _ => sample_hash)
              sample_hash sample_hash sample_store "m-c"
              (sample_task "m-c" TODO ["m-b"%string] 7)
              sample_store_inv eq_refl) as (_ & Habsent & _).
  destruct (update_task_status_auto_archive sample_vca (fun _ => sample_hash)
              sample_hash sample_hash sample_store "m-a"
              (sample_task "m-a" DONE [] 5)
              sample_store_inv eq_refl) as (_ & _ & _ & _ & Hkept).
  split; [exact (proj2 Habsent Hc) | exact (proj1 (Hkept Ha))].
Defined.

Lemma delete_guard_tool_layer_only_witness :
  store_inv sample_store /\
  MissionControl.get_task sample_hash sample_store "m-a" =
    Some (sample_task "m-a" DONE [] 5) /\
  has_dependent (load_all_tasks sample_hash sample_store) "m-a" /\
  handle_delete_task sample_hash sample_hash sample_store "m-a" =
    (JObject
       [("success"%string, JBool false);
        ("error"%string,
         JString "Cannot delete task m-a - 1 task(s) depend on it");
        ("dependent_tasks"%string,
         JList [JObject [("id"%string, JString "m-b");
                         ("title"%string, JString "m-b")]])],
     sample_store) /\
  fst (MissionControl.delete_task sample_hash sample_store "m-a") = true.
Proof.
  assert (Ha : has_dependent (load_all_tasks sample_hash sample_store) "m-a").
  { exists (sample_task "m-b" TODO ["m-a"%string] 5). cbn. tauto. }
  split; [exact sample_store_inv|]. split; [reflexivity|]. split; [exact Ha|].
  destruct (delete_guard_tool_layer_only sample_hash sample_hash sample_hash
              sample_hash sample_store "m-a" (sample_task "m-a" DONE [] 5)
              sample_store_inv eq_refl Ha) as (_ & Hh & Hd & _).
  split; [exact Hh | exact Hd].
Defined.
